(** * ImageBox: annotation, refinement prompt, generation and reroll pipeline

    A shallow embedding of the TypeScript sources
    - [spatialProcessing.ts]  (coordinate normaliser and region describer),
    - [imageStorage.ts]       (artifact store),
    - [imageGeneration.ts]    (adapters, dispatcher, refinement composer),
    - [MessageList.tsx]       (reroll handler) with [sessionActions.ts],
    followed by the theorems that settle the properties stated about them.

    Conventions.
    - A JavaScript string is the list of its UTF-16 code units
      ([jsstring]); [length], [substring], [startsWith] act on code units as
      in the language.
    - A JavaScript number is a [jsnum]: [NaN], the two infinities, or a finite
      value held as a rational.  The arithmetic operations round their
      exact result to binary64 ([round64]: to nearest, ties to even, with
      subnormals and overflow); the sign of zero is not represented.
    - Asynchronous functions are computations in the monad [M]: they thread
      a [World] (module variables, scripted replies of the network and of
      the platform bridge, logs of what was sent) and either return a value
      or throw. *)

From Stdlib Require Import List Bool Arith ZArith NArith QArith Qround Qpower Lia Lqa.
From Stdlib Require Import Strings.String Strings.Ascii Numbers.DecimalString.
Import ListNotations.

Set Implicit Arguments.
Set Warnings "-register-all".

(* ================================================================== *)
(** ** JavaScript strings *)
(* ================================================================== *)

Module JsString.

Definition jschar := N.
Definition jsstring := list jschar.

(** A source literal, as code units. *)
Definition lit (s : string) : jsstring :=
  map N_of_ascii (list_ascii_of_string s).

Definition nl : jsstring := [10%N].       (* "\n" *)
Definition dq : jsstring := [34%N].       (* the double quote *)
Definition backslash : jschar := 92%N.
Definition slash : jschar := 47%N.

Fixpoint jseqb (a b : jsstring) : bool :=
  match a, b with
  | [], [] => true
  | x :: a', y :: b' => N.eqb x y && jseqb a' b'
  | _, _ => false
  end.

(** [s.startsWith(p)] *)
Fixpoint startsWith (s p : jsstring) : bool :=
  match p, s with
  | [], _ => true
  | c :: p', d :: s' => N.eqb c d && startsWith s' p'
  | _ :: _, [] => false
  end.

(** [s.includes(p)] *)
Fixpoint includes (s p : jsstring) : bool :=
  startsWith s p ||
  match s with
  | [] => false
  | _ :: s' => includes s' p
  end.

(** [s.substring(0, n)]: a negative [n] counts as 0, one past the end as
    the length. *)
Definition substring0 (s : jsstring) (n : Z) : jsstring :=
  firstn (Z.to_nat n) s.

(** White space and line terminators, as [String.prototype.trim] sees them. *)
Definition is_space (c : jschar) : bool :=
  (((9 <=? c) && (c <=? 13)) || (c =? 32) || (c =? 160) || (c =? 5760)
   || ((8192 <=? c) && (c <=? 8202)) || (c =? 8232) || (c =? 8233)
   || (c =? 8239) || (c =? 8287) || (c =? 12288) || (c =? 65279))%N.

Fixpoint trimStart (s : jsstring) : jsstring :=
  match s with
  | c :: s' => if is_space c then trimStart s' else s
  | [] => []
  end.

Definition trim (s : jsstring) : jsstring :=
  rev (trimStart (rev (trimStart s))).

(** [s.split(sep)] for a non-empty separator.  [skip] counts the code units
    of a separator just matched that are still to be passed over; [cur] is
    the current piece, reversed. *)
Fixpoint split_aux (sep s : jsstring) (skip : nat) (cur : jsstring)
  : list jsstring :=
  match s with
  | [] => [rev cur]
  | c :: s' =>
      match skip with
      | S k => split_aux sep s' k cur
      | O =>
          if startsWith s sep
          then rev cur :: split_aux sep s' (pred (List.length sep)) []
          else split_aux sep s' 0 (c :: cur)
      end
  end.

Definition split (s sep : jsstring) : list jsstring := split_aux sep s 0 [].

(** [s.replace(/\\/g, '/')] *)
Definition backslashes_to_slashes (s : jsstring) : jsstring :=
  map (fun c => if N.eqb c backslash then slash else c) s.

(** [s.replace(pat, by)] with a string pattern: the first occurrence only. *)
Fixpoint replace_first (s pat by_ : jsstring) : jsstring :=
  if startsWith s pat then by_ ++ skipn (List.length pat) s
  else match s with
       | [] => []
       | c :: s' => c :: replace_first s' pat by_
       end.

(** The regular expression class [\w]. *)
Definition is_word (c : jschar) : bool :=
  (((48 <=? c) && (c <=? 57)) || ((65 <=? c) && (c <=? 90))
   || ((97 <=? c) && (c <=? 122)) || (c =? 95))%N.

Fixpoint drop_word (s : jsstring) : jsstring :=
  match s with
  | c :: s' => if is_word c then drop_word s' else s
  | [] => []
  end.

(** [s.replace(/^data:image\/\w+;base64,/, '')] *)
Definition strip_data_url_header (s : jsstring) : jsstring :=
  let p := lit "data:image/" in
  if startsWith s p then
    let r := skipn (List.length p) s in
    let r' := drop_word r in
    if (List.length r' <? List.length r)%nat && startsWith r' (lit ";base64,")
    then skipn (List.length (lit ";base64,")) r'
    else s
  else s.

(** Decimal digits of an integer, as [String(n)] prints one of moderate
    size. *)
Definition Z_to_jsstring (z : Z) : jsstring :=
  lit (NilZero.string_of_int (Z.to_int z)).

(** Truthiness of a string: every string but the empty one. *)
Definition truthy_str (s : jsstring) : bool :=
  match s with [] => false | _ => true end.

(** [a || b] on optional strings ([None] is [undefined]). *)
Definition or_str (a : option jsstring) (b : jsstring) : jsstring :=
  match a with
  | Some s => if truthy_str s then s else b
  | None => b
  end.

Definition truthy_opt (a : option jsstring) : bool :=
  match a with Some s => truthy_str s | None => false end.

End JsString.
Export JsString.

(* ================================================================== *)
(** ** JavaScript numbers *)
(* ================================================================== *)

Module JsNum.

Inductive jsnum :=
| NaN
| PInf
| NInf
| Fin (q : Q).

(** *** Rounding to binary64 *)

(** [2^e], for an exponent of either sign. *)
Definition pow2 (e : Z) : Q := (2 # 1) ^ e.

(** The binade of a positive rational: the [e] with
    [2^e <= q < 2^(e+1)]. *)
Definition ilog2 (q : Q) : Z :=
  let e0 := (Z.log2 (Qnum q) - Z.log2 (Zpos (Qden q)))%Z in
  if Qle_bool (pow2 e0) q then e0 else (e0 - 1)%Z.

(** The nearest integer, a tie going to the even one. *)
Definition round_half_even (m : Q) : Z :=
  let f := Qfloor m in
  match Qcompare (m - inject_Z f) (1 # 2) with
  | Lt => f
  | Gt => (f + 1)%Z
  | Eq => if Z.even f then f else (f + 1)%Z
  end.

(** The exponent of the unit in the last place of the binary64 numbers
    around a positive [q]: 53 significant bits, subnormals below
    [2^-1022]. *)
Definition ulp_exponent (q : Q) : Z := Z.max (ilog2 q - 52) (-1074).

(** The multiple of that unit nearest to a positive [q]. *)
Definition nearest (q : Q) : Q :=
  let e := ulp_exponent q in
  inject_Z (round_half_even (q / pow2 e)) * pow2 e.

(** Rounding to binary64, to nearest and ties to even; a magnitude that
    rounds to [2^1024] or more overflows. *)
Definition round64 (q : Q) : jsnum :=
  match Qnum q with
  | Z0 => Fin 0
  | Zpos _ =>
      let v := nearest q in
      if Qle_bool (pow2 1024) v then PInf else Fin (Qred v)
  | Zneg _ =>
      let v := nearest (- q) in
      if Qle_bool (pow2 1024) v then NInf else Fin (Qred (- v))
  end.

(** A decimal literal of the source: the binary64 number nearest to it. *)
Definition num (q : Q) : jsnum := round64 q.

(** An integer literal, or an integer held exactly (below [2^53] in
    magnitude). *)
Definition of_Z (z : Z) : jsnum := Fin (inject_Z z).

Definition Qltb (a b : Q) : bool := negb (Qle_bool b a).

(** *** Arithmetic: the exact result, rounded *)

Definition add (a b : jsnum) : jsnum :=
  match a, b with
  | NaN, _ | _, NaN => NaN
  | PInf, NInf | NInf, PInf => NaN
  | PInf, _ | _, PInf => PInf
  | NInf, _ | _, NInf => NInf
  | Fin x, Fin y => round64 (x + y)
  end.

(** Negation is exact. *)
Definition neg (a : jsnum) : jsnum :=
  match a with
  | NaN => NaN
  | PInf => NInf
  | NInf => PInf
  | Fin x => Fin (Qred (- x))
  end.

Definition sub (a b : jsnum) : jsnum := add a (neg b).

Definition sign_pos (q : Q) : bool := Qltb 0 q.
Definition sign_neg (q : Q) : bool := Qltb q 0.

Definition mul (a b : jsnum) : jsnum :=
  match a, b with
  | NaN, _ | _, NaN => NaN
  | Fin x, Fin y => round64 (x * y)
  | Fin x, PInf | PInf, Fin x =>
      if sign_pos x then PInf else if sign_neg x then NInf else NaN
  | Fin x, NInf | NInf, Fin x =>
      if sign_pos x then NInf else if sign_neg x then PInf else NaN
  | PInf, PInf | NInf, NInf => PInf
  | PInf, NInf | NInf, PInf => NInf
  end.

(** Division; a zero divisor is taken to be [+0]. *)
Definition div (a b : jsnum) : jsnum :=
  match a, b with
  | NaN, _ | _, NaN => NaN
  | Fin x, Fin y =>
      if Qeq_bool y 0
      then (if sign_pos x then PInf else if sign_neg x then NInf else NaN)
      else round64 (x / y)
  | Fin _, (PInf | NInf) => Fin 0
  | PInf, Fin y => if sign_neg y then NInf else PInf
  | NInf, Fin y => if sign_neg y then PInf else NInf
  | (PInf | NInf), (PInf | NInf) => NaN
  end.

(** [a <= b] *)
Definition leb (a b : jsnum) : bool :=
  match a, b with
  | NaN, _ | _, NaN => false
  | NInf, _ => true
  | _, PInf => true
  | PInf, _ => false
  | _, NInf => false
  | Fin x, Fin y => Qle_bool x y
  end.

(** [a >= b] *)
Definition geb (a b : jsnum) : bool := leb b a.

(** [a === b] on numbers. *)
Definition eqb (a b : jsnum) : bool :=
  match a, b with
  | PInf, PInf | NInf, NInf => true
  | Fin x, Fin y => Qeq_bool x y
  | _, _ => false
  end.

Definition Math_min (a b : jsnum) : jsnum :=
  match a, b with
  | NaN, _ | _, NaN => NaN
  | _, _ => if leb a b then a else b
  end.

Definition Math_max (a b : jsnum) : jsnum :=
  match a, b with
  | NaN, _ | _, NaN => NaN
  | _, _ => if leb a b then b else a
  end.

(** [Math.round]: the nearest integer, halves towards plus infinity. *)
Definition Math_round (a : jsnum) : jsnum :=
  match a with
  | Fin x => Fin (inject_Z (Qfloor (x + (1 # 2))))
  | _ => a
  end.

(** Truthiness of a number. *)
Definition truthy_num (a : jsnum) : bool :=
  match a with
  | NaN => false
  | Fin x => negb (Qeq_bool x 0)
  | _ => true
  end.

End JsNum.
Export JsNum.

(* ================================================================== *)
(** ** JavaScript values, as JSON payloads and request bodies hold them *)
(* ================================================================== *)

Module JsValue.

Inductive jsval :=
| JUndefined
| JNull
| JBool (b : bool)
| JNum (n : jsnum)
| JStr (s : jsstring)
| JArr (items : list jsval)
| JObj (fields : list (jsstring * jsval)).

(** What the code may throw or a promise may reject with: an [Error] with
    its message, a [TypeError] raised by the engine, or any other value. *)
Inductive exn :=
| JsError (message : jsstring)
| JsTypeError
| NonError (v : jsval).

(** Built-ins of the engine whose text is fixed outside this repository. *)
Class JsEngine := {
  (** [String(x)] for a finite [x] that is not an integer below 10^21 *)
  float_to_string : Q -> jsstring;
  (** [JSON.stringify] *)
  JSON_stringify : jsval -> jsstring;
  (** [new URL(s)]: the pair protocol, host; [None] when it throws *)
  URL_parse : jsstring -> option (jsstring * jsstring);
  (** the message carried by an engine-raised [TypeError] *)
  type_error_message : jsstring
}.

Definition truthy (v : jsval) : bool :=
  match v with
  | JUndefined | JNull => false
  | JBool b => b
  | JNum n => truthy_num n
  | JStr s => truthy_str s
  | JArr _ | JObj _ => true
  end.

(** [a || b] *)
Definition or_val (a b : jsval) : jsval := if truthy a then a else b.

Fixpoint lookup (k : jsstring) (fields : list (jsstring * jsval)) : jsval :=
  match fields with
  | [] => JUndefined
  | (k', v) :: rest => if jseqb k k' then v else lookup k rest
  end.

Definition is_string (v : jsval) : bool :=
  match v with JStr _ => true | _ => false end.

Definition is_array (v : jsval) : bool :=
  match v with JArr _ => true | _ => false end.

(** [v.length > 0] for an array [v]. *)
Definition nonempty_array (v : jsval) : bool :=
  match v with JArr (_ :: _) => true | _ => false end.

(** [v.k] for one of the field names the sources read ([k] is never
    ["length"] or an index).  [None] is the [TypeError] of reading a
    property of [null] or [undefined]. *)
Definition get (v : jsval) (k : string) : option jsval :=
  match v with
  | JUndefined | JNull => None
  | JObj fields => Some (lookup (lit k) fields)
  | _ => Some JUndefined
  end.

(** [v?.k] *)
Definition opt_get (v : jsval) (k : string) : jsval :=
  match get v k with Some x => x | None => JUndefined end.

(** [v[0]] *)
Definition index0 (v : jsval) : option jsval :=
  match v with
  | JUndefined | JNull => None
  | JArr items => Some (hd JUndefined items)
  | JStr (c :: _) => Some (JStr [c])
  | JObj fields => Some (lookup (lit "0") fields)
  | _ => Some JUndefined
  end.

(** [v?.[0]] *)
Definition opt_index0 (v : jsval) : jsval :=
  match index0 v with Some x => x | None => JUndefined end.

Fixpoint join (sep : jsstring) (parts : list jsstring) : jsstring :=
  match parts with
  | [] => []
  | [p] => p
  | p :: rest => p ++ sep ++ join sep rest
  end.

Definition is_integer (q : Q) : bool := Qeq_bool (inject_Z (Qfloor q)) q.

Section WithEngine.
Context {E : JsEngine}.

(** [String(x)] on a number. *)
Definition Number_toString (a : jsnum) : jsstring :=
  match a with
  | NaN => lit "NaN"
  | PInf => lit "Infinity"
  | NInf => lit "-Infinity"
  | Fin q =>
      if is_integer q && (Z.abs (Qfloor q) <? 10 ^ 21)%Z
      then Z_to_jsstring (Qfloor q)
      else float_to_string q
  end.

(** [String(v)], as a template literal applies it. *)
Fixpoint ToString (v : jsval) : jsstring :=
  match v with
  | JUndefined => lit "undefined"
  | JNull => lit "null"
  | JBool true => lit "true"
  | JBool false => lit "false"
  | JNum n => Number_toString n
  | JStr s => s
  | JArr items =>
      join (lit ",")
        (map (fun x => match x with
                       | JUndefined | JNull => []
                       | _ => ToString x
                       end) items)
  | JObj _ => lit "[object Object]"
  end.

Definition exn_message (e : exn) : option jsstring :=
  match e with
  | JsError m => Some m
  | JsTypeError => Some type_error_message
  | NonError _ => None
  end.

(** [error instanceof Error ? error.message : 'Unknown error'] *)
Definition error_text (e : exn) : jsstring :=
  match exn_message e with
  | Some m => m
  | None => lit "Unknown error"
  end.

End WithEngine.

(** *** [encodeURIComponent] *)

Definition hex_digit (n : N) : jschar :=
  (if n <? 10 then 48 + n else 55 + n)%N.

Definition percent_byte (b : N) : jsstring :=
  [37%N; hex_digit (b / 16); hex_digit (b mod 16)].

Definition utf8_bytes (cp : N) : list N :=
  (if cp <? 128 then [cp]
   else if cp <? 2048 then [192 + cp / 64; 128 + cp mod 64]
   else if cp <? 65536
        then [224 + cp / 4096; 128 + (cp / 64) mod 64; 128 + cp mod 64]
        else [240 + cp / 262144; 128 + (cp / 4096) mod 64;
              128 + (cp / 64) mod 64; 128 + cp mod 64])%N.

(** The characters [encodeURIComponent] leaves alone:
    letters, digits and [- _ . ! ~ * ' ( )]. *)
Definition uri_unreserved (c : jschar) : bool :=
  (((48 <=? c) && (c <=? 57)) || ((65 <=? c) && (c <=? 90))
   || ((97 <=? c) && (c <=? 122))
   || (c =? 45) || (c =? 95) || (c =? 46) || (c =? 33) || (c =? 126)
   || (c =? 42) || (c =? 39) || (c =? 40) || (c =? 41))%N.

Definition is_high_surrogate (c : jschar) : bool :=
  ((55296 <=? c) && (c <=? 56319))%N.
Definition is_low_surrogate (c : jschar) : bool :=
  ((56320 <=? c) && (c <=? 57343))%N.

Definition encode_cp (cp : N) : jsstring :=
  flat_map percent_byte (utf8_bytes cp).

(** [None] is the [URIError] raised on a lone surrogate. *)
Fixpoint encodeURIComponent (s : jsstring) : option jsstring :=
  match s with
  | [] => Some []
  | c :: s' =>
      if uri_unreserved c then option_map (cons c) (encodeURIComponent s')
      else if is_low_surrogate c then None
      else if is_high_surrogate c then
        match s' with
        | d :: s'' =>
            if is_low_surrogate d
            then option_map
                   (app (encode_cp ((c - 55296) * 1024 + (d - 56320) + 65536)%N))
                   (encodeURIComponent s'')
            else None
        | [] => None
        end
      else option_map (app (encode_cp c)) (encodeURIComponent s')
  end.

End JsValue.
Export JsValue.

(* ================================================================== *)
(** ** shared/types.ts *)
(* ================================================================== *)

Module Types.

(** [type ImageSize = '1024x1024' | '1024x1792' | '1792x1024' | '512x512'] *)
Inductive ImageSize := S1024x1024 | S1024x1792 | S1792x1024 | S512x512.

Definition ImageSize_str (s : ImageSize) : jsstring :=
  match s with
  | S1024x1024 => lit "1024x1024"
  | S1024x1792 => lit "1024x1792"
  | S1792x1024 => lit "1792x1024"
  | S512x512 => lit "512x512"
  end.

(** [enum ImageGenerationModel]; [OtherModel] is any identifier outside the
    enumeration that reaches the code at run time. *)
Inductive ImageGenerationModel :=
| DALLE3 | DALLE2 | StableDiffusion | GPT4o
| OtherModel (name : jsstring).

Definition model_str (m : ImageGenerationModel) : jsstring :=
  match m with
  | DALLE3 => lit "dall-e-3"
  | DALLE2 => lit "dall-e-2"
  | StableDiffusion => lit "stable-diffusion"
  | GPT4o => lit "gpt-4o"
  | OtherModel name => name
  end.

(** [enum StableDiffusionProvider]; [OtherProvider] as above. *)
Inductive StableDiffusionProvider :=
| Local | StableDiffusionAPI | Replicate | Custom
| OtherProvider (name : jsstring).

Inductive AnnotationType := rectangle | freehand | shape.

Record Region := {
  x1 : jsnum;
  y1 : jsnum;
  x2 : jsnum;
  y2 : jsnum
}.

Record Annotation := {
  a_id : jsstring;
  a_type : AnnotationType;
  coordinates : list jsnum;
  feedback : jsstring;
  normalizedCoordinates : option Region;
  spatialReference : option jsstring
}.

Definition set_normalizedCoordinates (a : Annotation) (r : Region) :=
  {| a_id := a_id a; a_type := a_type a; coordinates := coordinates a;
     feedback := feedback a; normalizedCoordinates := Some r;
     spatialReference := spatialReference a |}.

Definition set_spatialReference (a : Annotation) (s : jsstring) :=
  {| a_id := a_id a; a_type := a_type a; coordinates := coordinates a;
     feedback := feedback a; normalizedCoordinates := normalizedCoordinates a;
     spatialReference := Some s |}.

End Types.
Export Types.

(* ================================================================== *)
(** ** spatialProcessing.ts *)
(* ================================================================== *)

Module SpatialProcessing.

(** A region written with decimal literals. *)
Definition mkRegion (a b c d : Q) : Region :=
  {| x1 := num a; y1 := num b; x2 := num c; y2 := num d |}.

(** The 3x3 grid, in the order the object literal lists its keys. *)
Definition GRID_SECTIONS : list (jsstring * Region) :=
  [ (lit "top-left",      mkRegion 0 0 (33 # 100) (33 # 100));
    (lit "top-center",    mkRegion (33 # 100) 0 (66 # 100) (33 # 100));
    (lit "top-right",     mkRegion (66 # 100) 0 1 (33 # 100));
    (lit "middle-left",   mkRegion 0 (33 # 100) (33 # 100) (66 # 100));
    (lit "center",        mkRegion (33 # 100) (33 # 100) (66 # 100) (66 # 100));
    (lit "middle-right",  mkRegion (66 # 100) (33 # 100) 1 (66 # 100));
    (lit "bottom-left",   mkRegion 0 (66 # 100) (33 # 100) 1);
    (lit "bottom-center", mkRegion (33 # 100) (66 # 100) (66 # 100) 1);
    (lit "bottom-right",  mkRegion (66 # 100) (66 # 100) 1 1) ].

Definition normalizeRectangleCoordinates
  (coords : list jsnum) (imageWidth imageHeight : jsnum) : Region :=
  let x := nth 0 coords NaN in
  let y := nth 1 coords NaN in
  let width := nth 2 coords NaN in
  let height := nth 3 coords NaN in
  {| x1 := div x imageWidth;
     y1 := div y imageHeight;
     x2 := div (add x width) imageWidth;
     y2 := div (add y height) imageHeight |}.

(** The loop of [normalizeFreehandCoordinates]: [i] advances by two; a
    missing [coordinates[i + 1]] is [undefined], hence [NaN] in
    [Math.min] and [Math.max]. *)
Fixpoint freehand_bounds (coords : list jsnum) (acc : jsnum * jsnum * jsnum * jsnum)
  : jsnum * jsnum * jsnum * jsnum :=
  let '(minX, minY, maxX, maxY) := acc in
  match coords with
  | [] => acc
  | [x] =>
      (Math_min minX x, Math_min minY NaN, Math_max maxX x, Math_max maxY NaN)
  | x :: y :: rest =>
      freehand_bounds rest
        (Math_min minX x, Math_min minY y, Math_max maxX x, Math_max maxY y)
  end.

Definition normalizeFreehandCoordinates
  (coords : list jsnum) (imageWidth imageHeight : jsnum) : Region :=
  let '(minX, minY, maxX, maxY) := freehand_bounds coords (PInf, PInf, NInf, NInf) in
  {| x1 := div minX imageWidth;
     y1 := div minY imageHeight;
     x2 := div maxX imageWidth;
     y2 := div maxY imageHeight |}.

Definition in_section (centerX centerY : jsnum) (section : Region) : bool :=
  geb centerX (x1 section) && leb centerX (x2 section) &&
  geb centerY (y1 section) && leb centerY (y2 section).

Definition centroid (r : Region) : jsnum * jsnum :=
  (div (add (x1 r) (x2 r)) (of_Z 2), div (add (y1 r) (y2 r)) (of_Z 2)).

Definition getGridSection (normalizedCoords : Region) : jsstring :=
  let '(centerX, centerY) := centroid normalizedCoords in
  match find (fun entry => in_section centerX centerY (snd entry)) GRID_SECTIONS with
  | Some (sectionName, _) => sectionName
  | None => lit "center"
  end.

(** [Math.max(0, Math.min(1, v))] *)
Definition clamp01 (v : jsnum) : jsnum :=
  Math_max (of_Z 0) (Math_min (of_Z 1) v).

Definition clampRegion (coords : Region) : Region :=
  {| x1 := clamp01 (x1 coords); y1 := clamp01 (y1 coords);
     x2 := clamp01 (x2 coords); y2 := clamp01 (y2 coords) |}.

Section WithEngine.
Context {E : JsEngine}.

Definition getPercentagePosition (value : jsnum) : jsstring :=
  Number_toString (Math_round (mul value (of_Z 100))) ++ lit "%".

(** The text built once the normalized coordinates are at hand. *)
Definition describeRegion (ty : AnnotationType) (coords : Region) : jsstring :=
  let clampedCoords := clampRegion coords in
  let gridSection := getGridSection clampedCoords in
  let left := getPercentagePosition (x1 clampedCoords) in
  let top := getPercentagePosition (y1 clampedCoords) in
  let right := getPercentagePosition (x2 clampedCoords) in
  let bottom := getPercentagePosition (y2 clampedCoords) in
  let width := getPercentagePosition (sub (x2 clampedCoords) (x1 clampedCoords)) in
  let height := getPercentagePosition (sub (y2 clampedCoords) (y1 clampedCoords)) in
  let description := lit "in the " ++ gridSection ++ lit " of the image " in
  match ty with
  | rectangle =>
      description
      ++ lit "(a rectangle from " ++ left ++ lit " left, " ++ top
      ++ lit " top to " ++ right ++ lit " right, " ++ bottom ++ lit " bottom, "
      ++ lit "with dimensions " ++ width ++ lit " wide by " ++ height
      ++ lit " tall)"
  | freehand =>
      description
      ++ lit "(a freehand drawing within a region from " ++ left
      ++ lit " left, " ++ top ++ lit " top to " ++ right ++ lit " right, "
      ++ bottom ++ lit " bottom)"
  | shape =>
      description
      ++ lit "(a shape within a region from " ++ left
      ++ lit " left, " ++ top ++ lit " top to " ++ right ++ lit " right, "
      ++ bottom ++ lit " bottom)"
  end.

(** [generateSpatialDescription]: the phrase, and the annotation as the
    call leaves it (its [normalizedCoordinates] may have been assigned). *)
Definition generateSpatialDescription
  (annotation : Annotation) (imageWidth imageHeight : jsnum)
  : jsstring * Annotation :=
  match normalizedCoordinates annotation with
  | Some coords => (describeRegion (a_type annotation) coords, annotation)
  | None =>
      if eqb imageWidth (of_Z 1) && eqb imageHeight (of_Z 1)
      then ([], annotation)
      else
        let coords :=
          match a_type annotation with
          | rectangle =>
              normalizeRectangleCoordinates (coordinates annotation)
                imageWidth imageHeight
          | freehand | shape =>
              normalizeFreehandCoordinates (coordinates annotation)
                imageWidth imageHeight
          end in
        (describeRegion (a_type annotation) coords,
         set_normalizedCoordinates annotation coords)
  end.

(** One step of the [map] of [generateAnnotationsDescription], at
    zero-based [index]. *)
Definition describeAnnotation
  (imageWidth imageHeight : jsnum) (index : nat) (annotation : Annotation)
  : jsstring * Annotation :=
  let '(spatialDescription, annotation1) :=
    if truthy_opt (spatialReference annotation)
    then (or_str (spatialReference annotation) [], annotation)
    else generateSpatialDescription annotation imageWidth imageHeight in
  (lit "Region " ++ Z_to_jsstring (Z.of_nat index + 1) ++ lit ": "
   ++ spatialDescription ++ lit ". Feedback: " ++ feedback annotation,
   set_spatialReference annotation1 spatialDescription).

Fixpoint describeAnnotations
  (imageWidth imageHeight : jsnum) (index : nat) (annotations : list Annotation)
  : list (jsstring * Annotation) :=
  match annotations with
  | [] => []
  | a :: rest =>
      describeAnnotation imageWidth imageHeight index a
      :: describeAnnotations imageWidth imageHeight (S index) rest
  end.

(** [generateAnnotationsDescription]: the text and the annotations as the
    call leaves them.  [None] stands for an absent argument. *)
Definition generateAnnotationsDescription
  (annotations : option (list Annotation)) (imageWidth imageHeight : jsnum)
  : jsstring * option (list Annotation) :=
  match annotations with
  | None | Some [] => ([], annotations)
  | Some l =>
      let ds := describeAnnotations imageWidth imageHeight 0 l in
      (join (nl ++ nl) (map fst ds), Some (map snd ds))
  end.

Record OriginalImage := {
  oi_prompt : jsstring;
  oi_description : option jsstring;
  oi_width : jsnum;
  oi_height : jsnum
}.

Definition maxDescLength : Z := 800.

Definition generateRefinementPrompt
  (originalImage : OriginalImage) (annotations : option (list Annotation))
  (globalFeedback : option jsstring)
  : jsstring * option (list Annotation) :=
  let prompt := lit "# IMAGE REFINEMENT" ++ nl ++ nl in
  let prompt := prompt ++ lit "## ORIGINAL: " ++ dq ++ oi_prompt originalImage
                ++ dq ++ nl ++ nl in
  let prompt :=
    match oi_description originalImage with
    | Some ((_ :: _) as description) =>
        let truncatedDesc :=
          if (Z.of_nat (List.length description) >? maxDescLength)%Z
          then substring0 description maxDescLength ++ lit "..."
          else description in
        prompt ++ lit "## REFERENCE IMAGE ANALYSIS" ++ nl
        ++ truncatedDesc ++ nl ++ nl
    | _ => prompt
    end in
  let prompt :=
    match globalFeedback with
    | Some g =>
        if truthy_str g && truthy_str (trim g)
        then prompt ++ lit "## GLOBAL CHANGES" ++ nl ++ g ++ nl ++ nl
        else prompt
    | None => prompt
    end in
  let '(prompt, annotations') :=
    match annotations with
    | Some (_ :: _) =>
        let '(d, l') :=
          generateAnnotationsDescription annotations
            (oi_width originalImage) (oi_height originalImage) in
        (prompt ++ lit "## REGION CHANGES" ++ nl ++ d ++ nl ++ nl, l')
    | _ => (prompt, annotations)
    end in
  (prompt ++ lit "## APPROACH" ++ nl
   ++ lit "1. Use reference analysis as base" ++ nl
   ++ lit "2. Apply specified changes" ++ nl
   ++ lit "3. Maintain composition and style consistency" ++ nl,
   annotations').

End WithEngine.

(** [Number(s)] for a run of decimal digits; the empty string is 0 and
    anything else is rendered [NaN] (the pieces of an [ImageSize] token are
    digit runs). *)
Definition digit_val (c : jschar) : option Z :=
  if ((48 <=? c) && (c <=? 57))%N then Some (Z.of_N c - 48)%Z else None.

Fixpoint digits_val (s : jsstring) (acc : Z) : option Z :=
  match s with
  | [] => Some acc
  | c :: s' =>
      match digit_val c with
      | Some d => digits_val s' (10 * acc + d)%Z
      | None => None
      end
  end.

Definition Number_of_string (s : jsstring) : jsnum :=
  match digits_val s 0 with
  | Some z => of_Z z
  | None => NaN
  end.

(** [size.split('x').map(Number)], destructured into width and height. *)
Definition estimateImageDimensions (imageSize : ImageSize) : jsnum * jsnum :=
  let dims := map Number_of_string (split (ImageSize_str imageSize) (lit "x")) in
  (nth 0 dims NaN, nth 1 dims NaN).

End SpatialProcessing.
Export SpatialProcessing.

(* ================================================================== *)
(** ** Records exchanged between the components *)
(* ================================================================== *)

(** [interface ImageGenerationOptions] *)
Module Options.
Record t := {
  prompt : jsstring;
  size : ImageSize;
  model : ImageGenerationModel;
  apiKey : option jsstring;
  apiEndpoint : option jsstring;
  stableDiffusionHost : option jsstring;
  stableDiffusionProvider : option StableDiffusionProvider;
  stableDiffusionAPIKey : option jsstring;
  sessionId : jsstring;
  negativePrompt : option jsstring;
  numberOfImages : option jsnum;
  style : option jsstring;
  quality : option jsstring;
  imageDescription : option jsstring;
  imageUrl : option jsstring;
  uploadPreviousImage : option bool
}.

Definition set_prompt (o : t) (p : jsstring) : t :=
  {| prompt := p; size := size o; model := model o; apiKey := apiKey o;
     apiEndpoint := apiEndpoint o; stableDiffusionHost := stableDiffusionHost o;
     stableDiffusionProvider := stableDiffusionProvider o;
     stableDiffusionAPIKey := stableDiffusionAPIKey o; sessionId := sessionId o;
     negativePrompt := negativePrompt o; numberOfImages := numberOfImages o;
     style := style o; quality := quality o;
     imageDescription := imageDescription o; imageUrl := imageUrl o;
     uploadPreviousImage := uploadPreviousImage o |}.

Definition set_imageDescription (o : t) (d : option jsstring) : t :=
  {| prompt := prompt o; size := size o; model := model o; apiKey := apiKey o;
     apiEndpoint := apiEndpoint o; stableDiffusionHost := stableDiffusionHost o;
     stableDiffusionProvider := stableDiffusionProvider o;
     stableDiffusionAPIKey := stableDiffusionAPIKey o; sessionId := sessionId o;
     negativePrompt := negativePrompt o; numberOfImages := numberOfImages o;
     style := style o; quality := quality o;
     imageDescription := d; imageUrl := imageUrl o;
     uploadPreviousImage := uploadPreviousImage o |}.

Definition set_uploadPreviousImage (o : t) (b : option bool) : t :=
  {| prompt := prompt o; size := size o; model := model o; apiKey := apiKey o;
     apiEndpoint := apiEndpoint o; stableDiffusionHost := stableDiffusionHost o;
     stableDiffusionProvider := stableDiffusionProvider o;
     stableDiffusionAPIKey := stableDiffusionAPIKey o; sessionId := sessionId o;
     negativePrompt := negativePrompt o; numberOfImages := numberOfImages o;
     style := style o; quality := quality o;
     imageDescription := imageDescription o; imageUrl := imageUrl o;
     uploadPreviousImage := b |}.
End Options.

(** [interface ImageGenerationResult] *)
Module Result.
Record t := {
  success : bool;
  imageUrl : jsstring;
  localImagePath : option jsstring;
  error : option jsstring;
  fullPrompt : option jsstring
}.

Definition succeeded (localImageUrl : jsstring) : t :=
  {| success := true; imageUrl := localImageUrl;
     localImagePath := Some localImageUrl; error := None; fullPrompt := None |}.

Definition failed (message : jsstring) : t :=
  {| success := false; imageUrl := []; localImagePath := None;
     error := Some message; fullPrompt := None |}.

Definition set_fullPrompt (r : t) (p : jsstring) : t :=
  {| success := success r; imageUrl := imageUrl r;
     localImagePath := localImagePath r; error := error r;
     fullPrompt := Some p |}.
End Result.

(** [interface Message], with the fields the image pipeline reads or
    writes; the word and token counters kept by [insertMessage] are left
    out. *)
Module Message.
Inductive MessageRole := system | user | assistant.

Record t := {
  id : jsstring;
  role : MessageRole;
  content : jsstring;
  timestamp : option N;
  generating : option bool;
  imageUrl : option jsstring;
  originalPrompt : option jsstring;
  refinementPrompt : option jsstring;
  imageDescription : option jsstring;
  fullPrompt : option jsstring;
  annotations : option (list Annotation);
  history : option (list jsstring);
  isReroll : option bool;
  error : option jsstring;
  errorCode : option Z
}.

(** A plain text message: [{ id, role, content, timestamp }]. *)
Definition text (id_ : jsstring) (r : MessageRole) (c : jsstring) (ts : N) : t :=
  {| id := id_; role := r; content := c; timestamp := Some ts;
     generating := None; imageUrl := None; originalPrompt := None;
     refinementPrompt := None; imageDescription := None; fullPrompt := None;
     annotations := None; history := None; isReroll := None;
     error := None; errorCode := None |}.
End Message.

Module Session.
Record t := {
  id : jsstring;
  name : jsstring;
  messages : list Message.t
}.
End Session.

(** The settings the handlers read. *)
Module Settings.
Record t := {
  imageSize : ImageSize;
  imageGenerationModel : ImageGenerationModel;
  openaiKey : option jsstring;
  apiHost : option jsstring;
  stableDiffusionHost : option jsstring;
  stableDiffusionProvider : option StableDiffusionProvider;
  stableDiffusionAPIKey : option jsstring;
  imageStyle : option jsstring;
  imageQuality : option jsstring;
  defaultPrompt : option jsstring
}.
End Settings.

(* ================================================================== *)
(** ** The world outside the renderer, and the monad of async code *)
(* ================================================================== *)

Module Effects.

(** A reply of [fetch]: the flags read by the adapters, what
    [response.json()] settles with, and what [blobToBase64(await
    response.blob())] settles with. *)
Record Response := {
  ok : bool;
  statusText : jsstring;
  r_json : jsval + exn;
  r_blob : jsstring + exn
}.

(** A request as handed to [fetch]; [body] is the object given to
    [JSON.stringify]. *)
Record Request := {
  url : jsstring;
  method : jsstring;
  headers : list (jsstring * jsstring);
  body : option jsval
}.

(** Calls that cross the platform bridge. *)
Inductive IpcCall :=
| GetAppDataDir
| EnsureDirectory (path : jsstring)
| SaveBase64Image (filePath base64Data : jsstring)
| DownloadImage (remote : jsval) (filePath : jsstring).

Record World := {
  (** [let baseImageDir] of imageStorage.ts *)
  baseImageDir : option jsstring;
  (** replies of [fetch], in call order *)
  net : list (Response + exn);
  (** replies of the platform bridge, in call order *)
  bridge : list (jsstring + exn);
  (** [Date.now()], advanced by [setTimeout] waits *)
  now : N;
  (** [uuidv4()], by call number *)
  uuids : nat -> jsstring;
  uuid_next : nat;
  (** [Math.floor(Math.random() * 1000)], by call number *)
  randoms : nat -> N;
  random_next : nat;
  (** what was sent and invoked so far, oldest first *)
  sent : list Request;
  invoked : list IpcCall;
  (** the stored value of the sessions atom *)
  sessions : list Session.t
}.

Definition with_baseImageDir (d : option jsstring) (w : World) : World :=
  {| baseImageDir := d; net := net w; bridge := bridge w; now := now w;
     uuids := uuids w; uuid_next := uuid_next w; randoms := randoms w;
     random_next := random_next w; sent := sent w; invoked := invoked w;
     sessions := sessions w |}.

Definition with_net (n : list (Response + exn)) (rq : Request) (w : World) : World :=
  {| baseImageDir := baseImageDir w; net := n; bridge := bridge w; now := now w;
     uuids := uuids w; uuid_next := uuid_next w; randoms := randoms w;
     random_next := random_next w; sent := sent w ++ [rq]; invoked := invoked w;
     sessions := sessions w |}.

Definition with_bridge (b : list (jsstring + exn)) (c : IpcCall) (w : World) : World :=
  {| baseImageDir := baseImageDir w; net := net w; bridge := b; now := now w;
     uuids := uuids w; uuid_next := uuid_next w; randoms := randoms w;
     random_next := random_next w; sent := sent w; invoked := invoked w ++ [c];
     sessions := sessions w |}.

Definition with_now (t : N) (w : World) : World :=
  {| baseImageDir := baseImageDir w; net := net w; bridge := bridge w; now := t;
     uuids := uuids w; uuid_next := uuid_next w; randoms := randoms w;
     random_next := random_next w; sent := sent w; invoked := invoked w;
     sessions := sessions w |}.

Definition with_uuid_next (k : nat) (w : World) : World :=
  {| baseImageDir := baseImageDir w; net := net w; bridge := bridge w; now := now w;
     uuids := uuids w; uuid_next := k; randoms := randoms w;
     random_next := random_next w; sent := sent w; invoked := invoked w;
     sessions := sessions w |}.

Definition with_random_next (k : nat) (w : World) : World :=
  {| baseImageDir := baseImageDir w; net := net w; bridge := bridge w; now := now w;
     uuids := uuids w; uuid_next := uuid_next w; randoms := randoms w;
     random_next := k; sent := sent w; invoked := invoked w;
     sessions := sessions w |}.

Definition with_sessions (s : list Session.t) (w : World) : World :=
  {| baseImageDir := baseImageDir w; net := net w; bridge := bridge w; now := now w;
     uuids := uuids w; uuid_next := uuid_next w; randoms := randoms w;
     random_next := random_next w; sent := sent w; invoked := invoked w;
     sessions := s |}.

(** How a computation ends: with a value, or by throwing. *)
Inductive outcome (A : Type) :=
| Ok (a : A)
| Thrown (e : exn).
Arguments Ok {A} a.
Arguments Thrown {A} e.

Definition M (A : Type) : Type := World -> outcome A * World.

Definition ret {A} (a : A) : M A := fun w => (Ok a, w).

Definition throw {A} (e : exn) : M A := fun w => (Thrown e, w).

Definition bind {A B} (c : M A) (k : A -> M B) : M B :=
  fun w =>
    match c w with
    | (Ok a, w') => k a w'
    | (Thrown e, w') => (Thrown e, w')
    end.

(** [try { c } catch (error) { handler error }] *)
Definition try_catch {A} (c : M A) (handler : exn -> M A) : M A :=
  fun w =>
    match c w with
    | (Ok a, w') => (Ok a, w')
    | (Thrown e, w') => handler e w'
    end.

(** [throw new Error(message)] *)
Definition throw_Error {A} (message : jsstring) : M A :=
  throw (JsError message).

(** A property read that raises a [TypeError] on [null] and [undefined]. *)
Definition must {A} (o : option A) : M A :=
  match o with
  | Some a => ret a
  | None => throw JsTypeError
  end.

(** Settling of a promise held in a reply. *)
Definition settle {A} (p : A + exn) : M A :=
  match p with
  | inl a => ret a
  | inr e => throw e
  end.

(** [fetch(url, init)]: the request is logged and the next scripted reply
    is consumed; with no reply left the transport fails. *)
Definition fetch (rq : Request) : M Response :=
  fun w =>
    match net w with
    | [] => (Thrown (JsError (lit "Failed to fetch")), with_net [] rq w)
    | inl r :: rest => (Ok r, with_net rest rq w)
    | inr e :: rest => (Thrown e, with_net rest rq w)
    end.

(** A call across the platform bridge, logged, consuming the next scripted
    reply; with no reply left the call is rejected. *)
Definition invoke (c : IpcCall) : M jsstring :=
  fun w =>
    match bridge w with
    | [] => (Thrown (JsError (lit "No handler registered")), with_bridge [] c w)
    | inl v :: rest => (Ok v, with_bridge rest c w)
    | inr e :: rest => (Thrown e, with_bridge rest c w)
    end.

Definition Date_now : M N := fun w => (Ok (now w), w).

(** [await new Promise(resolve => setTimeout(resolve, ms))] *)
Definition sleep (ms : N) : M unit :=
  fun w => (Ok tt, with_now (now w + ms)%N w).

Definition uuidv4 : M jsstring :=
  fun w => (Ok (uuids w (uuid_next w)), with_uuid_next (S (uuid_next w)) w).

(** [Math.floor(Math.random() * 1000)] *)
Definition random1000 : M N :=
  fun w => (Ok (randoms w (random_next w) mod 1000)%N,
            with_random_next (S (random_next w)) w).

End Effects.
Export Effects.

Declare Scope js_scope.
Delimit Scope js_scope with js.
Notation "x <- c ;; k" := (bind c (fun x => k))
  (at level 61, c at next level, right associativity) : js_scope.
Notation "c ;;; k" := (bind c (fun _ => k))
  (at level 61, right associativity) : js_scope.
Open Scope js_scope.

(* ================================================================== *)
(** ** imageStorage.ts *)
(* ================================================================== *)

Module ImageStorage.

(** One step of the [forEach] over the path segments in [getFileUrl]. *)
Definition encode_segment (count index : nat) (segment : jsstring)
  : option jsstring :=
  if (index =? 0)%nat && negb (truthy_str segment)
  then Some [slash]
  else
    match encodeURIComponent segment with
    | Some e => Some (e ++ (if (index <? count - 1)%nat then [slash] else []))
    | None => None
    end.

Fixpoint encode_segments (count index : nat) (segments : list jsstring)
  (encodedPath : jsstring) : option jsstring :=
  match segments with
  | [] => Some encodedPath
  | segment :: rest =>
      match encode_segment count index segment with
      | Some piece => encode_segments count (S index) rest (encodedPath ++ piece)
      | None => None
      end
  end.

Definition getFileUrl (filePath : jsstring) : jsstring :=
  if startsWith filePath (lit "http://")
     || startsWith filePath (lit "https://")
     || startsWith filePath (lit "file://")
  then filePath
  else
    let normalizedPath := backslashes_to_slashes filePath in
    let pathWithPrefix :=
      if startsWith normalizedPath [slash] then normalizedPath
      else slash :: normalizedPath in
    let segments := split pathWithPrefix [slash] in
    match encode_segments (List.length segments) 0 segments [] with
    | Some encodedPath => lit "file://" ++ encodedPath
    | None =>
        (* the [catch]: [encodeURIComponent] threw *)
        lit "file:///" ++ backslashes_to_slashes filePath
    end.

Definition initImageStorage (customPath : option jsstring) : M jsstring :=
  fun w =>
    if truthy_opt (baseImageDir w) then (Ok (or_str (baseImageDir w) []), w)
    else
      try_catch
        (dir <- (if truthy_opt customPath
                 then ret (or_str customPath [])
                 else appDataDir <- invoke GetAppDataDir ;;
                      ret (appDataDir ++ lit "/images")) ;;
         (fun w1 => (Ok tt, with_baseImageDir (Some dir) w1)) ;;;
         invoke (EnsureDirectory dir) ;;;
         ret dir)
        (fun error => throw error)
        w.

Definition getSessionDirectory (sessionId : jsstring) : M jsstring :=
  initImageStorage None ;;;
  fun w =>
    if negb (truthy_opt (baseImageDir w))
    then throw_Error (lit "Image storage not initialized") w
    else
      (let sessionDir := or_str (baseImageDir w) [] ++ [slash] ++ sessionId in
       invoke (EnsureDirectory sessionDir) ;;;
       ret sessionDir) w.

(** [`${Date.now()}-${uuidv4().substring(0, 8)}.png`] *)
Definition fresh_filename : M jsstring :=
  t <- Date_now ;;
  u <- uuidv4 ;;
  ret (Z_to_jsstring (Z.of_N t) ++ lit "-" ++ substring0 u 8 ++ lit ".png").

Definition saveImageFromDataUrl (dataUrl sessionId : jsstring) : M jsstring :=
  try_catch
    (sessionDir <- getSessionDirectory sessionId ;;
     filename <- fresh_filename ;;
     let filePath := sessionDir ++ [slash] ++ filename in
     let base64Data := strip_data_url_header dataUrl in
     invoke (SaveBase64Image filePath base64Data) ;;;
     ret (getFileUrl filePath))
    (fun error => throw error).

Definition placeholder_url (n : N) : jsstring :=
  lit "https://picsum.photos/1024/1024?random=" ++ Z_to_jsstring (Z.of_N n).

Definition saveImageFromUrl (remote : jsval) (sessionId : jsstring) : M jsstring :=
  try_catch
    (sessionDir <- getSessionDirectory sessionId ;;
     filename <- fresh_filename ;;
     let filePath := sessionDir ++ [slash] ++ filename in
     invoke (DownloadImage remote filePath) ;;;
     ret (getFileUrl filePath))
    (fun _ =>
       (* "For development mode, we'll provide a placeholder" *)
       n <- random1000 ;;
       ret (placeholder_url n)).

End ImageStorage.
Export ImageStorage.

(* ================================================================== *)
(** ** imageGeneration.ts *)
(* ================================================================== *)

Module ImageGeneration.

Definition DEFAULT_OPENAI_API_ENDPOINT : jsstring :=
  lit "https://api.openai.com/v1/images/generations".
Definition STABLEDIFFUSIONAPI_ENDPOINT : jsstring :=
  lit "https://stablediffusionapi.com/api/v3/text2img".
Definition REPLICATE_ENDPOINT : jsstring :=
  lit "https://api.replicate.com/v1/predictions".

Definition provider_str (p : StableDiffusionProvider) : jsstring :=
  match p with
  | Local => lit "local"
  | StableDiffusionAPI => lit "stablediffusionapi"
  | Replicate => lit "replicate"
  | Custom => lit "custom"
  | OtherProvider name => name
  end.

(** [options.model === m] *)
Definition model_is (o : Options.t) (m : ImageGenerationModel) : bool :=
  jseqb (model_str (Options.model o)) (model_str m).

(** [v === 'text'] for a value read from a payload. *)
Definition is_str (v : jsval) (text : string) : bool :=
  match v with
  | JStr s => jseqb s (lit text)
  | _ => false
  end.

Definition key (k : string) (v : jsval) : jsstring * jsval := (lit k, v).

Definition post (endpoint : jsstring) (hs : list (jsstring * jsstring))
  (requestBody : jsval) : Request :=
  {| url := endpoint; method := lit "POST"; headers := hs;
     body := Some requestBody |}.

(** [fetch(url)] with no init. *)
Definition plain_get (u : jsstring) : Request :=
  {| url := u; method := lit "GET"; headers := []; body := None |}.

Definition content_type_json : jsstring * jsstring :=
  (lit "Content-Type", lit "application/json").

Definition authorization (scheme : string) (token : option jsstring)
  : jsstring * jsstring :=
  (lit "Authorization",
   lit scheme ++ lit " "
   ++ match token with Some t => t | None => lit "undefined" end).

(** [options.size.split('x').map(Number)] *)
Definition size_numbers (o : Options.t) : jsval * jsval :=
  let '(width, height) := estimateImageDimensions (Options.size o) in
  (JNum width, JNum height).

(** [options.numberOfImages || 1] *)
Definition number_of_images (o : Options.t) : jsnum :=
  match Options.numberOfImages o with
  | Some n => if truthy_num n then n else of_Z 1
  | None => of_Z 1
  end.

(** A field present only when its value is truthy. *)
Definition optional_field (k : string) (v : option jsstring)
  : list (jsstring * jsval) :=
  if truthy_opt v then [key k (JStr (or_str v []))] else [].

Definition truncation_marker_description : jsstring :=
  lit "... [description truncated to fit DALL-E character limit]".
Definition truncation_marker_refinement : jsstring :=
  lit "... [refinement truncated to fit DALL-E character limit]".

(** [`Original image prompt: "${originalPrompt}"\n\nRefinement
    instructions: ${spatialRefinementPrompt}`] *)
Definition combine (originalPrompt spatialRefinementPrompt : jsstring) : jsstring :=
  lit "Original image prompt: " ++ dq ++ originalPrompt ++ dq ++ nl ++ nl
  ++ lit "Refinement instructions: " ++ spatialRefinementPrompt.

Definition len (s : jsstring) : Z := Z.of_nat (List.length s).

(** The length policy of [refineImage]: the combined prompt, and
    [options.imageDescription] as the policy leaves it. *)
Definition composePrompt
  (originalPrompt spatialRefinementPrompt : jsstring)
  (imageDescription : option jsstring) : jsstring * option jsstring :=
  let combinedPrompt := combine originalPrompt spatialRefinementPrompt in
  let descriptionLength :=
    if truthy_opt imageDescription then len (or_str imageDescription []) else 0%Z in
  let combinedLength := (len combinedPrompt + descriptionLength)%Z in
  if (combinedLength >? 3800)%Z then
    let imageDescription' :=
      if truthy_opt imageDescription
         && (len (or_str imageDescription []) >? 1000)%Z
      then Some (substring0 (or_str imageDescription []) 1000
                 ++ truncation_marker_description)
      else imageDescription in
    let combinedPrompt := combine originalPrompt spatialRefinementPrompt in
    if (len combinedPrompt >? 3800)%Z then
      let maxRefinementLength := (3800 - len originalPrompt - 50)%Z in
      let spatialRefinementPrompt' :=
        substring0 spatialRefinementPrompt maxRefinementLength
        ++ truncation_marker_refinement in
      (combine originalPrompt spatialRefinementPrompt', imageDescription')
    else (combinedPrompt, imageDescription')
  else (combinedPrompt, imageDescription).

Section WithEngine.
Context {E : JsEngine}.

(** The common [catch] of the adapters. *)
Definition as_failure (error : exn) : M Result.t :=
  ret (Result.failed (error_text error)).

(** The common tail of the URL adapters. *)
Definition store_remote (remote : jsval) (o : Options.t) : M Result.t :=
  localImageUrl <- saveImageFromUrl remote (Options.sessionId o) ;;
  ret (Result.succeeded localImageUrl).

Definition store_inline (dataUrl : jsstring) (o : Options.t) : M Result.t :=
  localImageUrl <- saveImageFromDataUrl dataUrl (Options.sessionId o) ;;
  ret (Result.succeeded localImageUrl).

Definition generateWithDalle (options : Options.t) : M Result.t :=
  try_catch
    (if negb (truthy_opt (Options.apiKey options))
     then throw_Error (lit "API key is required for DALL-E image generation")
     else
       let endpoint := or_str (Options.apiEndpoint options) DEFAULT_OPENAI_API_ENDPOINT in
       let dalle3 := model_is options DALLE3 in
       let modelName := if dalle3 then lit "dall-e-3" else lit "dall-e-2" in
       let requestBody :=
         JObj ([ key "model" (JStr modelName);
                 key "prompt" (JStr (Options.prompt options));
                 key "n" (JNum (of_Z 1));
                 key "size" (JStr (ImageSize_str (Options.size options)));
                 key "response_format" (JStr (lit "url")) ]
               ++ (if dalle3
                   then optional_field "style" (Options.style options)
                        ++ optional_field "quality" (Options.quality options)
                   else [])) in
       response <- fetch (post endpoint
                            [content_type_json;
                             authorization "Bearer" (Options.apiKey options)]
                            requestBody) ;;
       if negb (ok response) then
         errorData <- settle (r_json response) ;;
         err <- must (get errorData "error") ;;
         throw_Error (lit "DALL-E API error: "
                      ++ ToString (or_val (opt_get err "message")
                                     (JStr (statusText response))))
       else
         data <- settle (r_json response) ;;
         d <- must (get data "data") ;;
         let imageUrl := opt_get (opt_index0 d) "url" in
         if negb (truthy imageUrl)
         then throw_Error (lit "No image URL returned from DALL-E API")
         else store_remote imageUrl options)
    as_failure.

(** [baseApiUrl] of the GPT-4o functions. *)
Definition baseApiUrl (apiEndpoint : option jsstring) : jsstring :=
  if truthy_opt apiEndpoint then
    match URL_parse (or_str apiEndpoint []) with
    | Some (protocol, host) => protocol ++ lit "//" ++ host
    | None => lit "https://api.openai.com"
    end
  else lit "https://api.openai.com".

Definition enhancer_system_prompt : jsstring :=
  lit "You are an expert prompt enhancer for image generation. Your task is to analyze an image and the user's prompt, then create a detailed, vivid prompt that captures both the essence of the original image and incorporates the user's requested changes. Focus on artistic style, composition, lighting, and important details.".

Definition enhancer_user_text (prompt : jsstring) : jsstring :=
  lit "I want to generate a new image based on this reference image. " ++ nl
  ++ lit "    " ++ nl
  ++ lit "Original prompt: " ++ dq ++ prompt ++ dq ++ nl ++ nl
  ++ lit "Please create an enhanced, detailed prompt that incorporates all the important visual elements from the reference image while applying the changes I'm requesting in my prompt. Make the description vivid and detailed - around 100-200 words.".

(** Reading the previous image for the enhancement request. *)
Definition load_previous_image (imageUrl : jsstring) : M jsstring :=
  if startsWith imageUrl (lit "file://") then
    try_catch
      (response <- fetch (plain_get imageUrl) ;;
       settle (r_blob response))
      (fun _ => ret imageUrl)
  else if startsWith imageUrl (lit "data:") then ret imageUrl
  else
    response <- fetch (plain_get imageUrl) ;;
    settle (r_blob response).

Definition image_part (imageData : jsstring) : jsval :=
  JObj [ key "type" (JStr (lit "image_url"));
         key "image_url" (JObj [ key "url" (JStr imageData) ]) ].

Definition text_part (text : jsstring) : jsval :=
  JObj [ key "type" (JStr (lit "text")); key "text" (JStr text) ].

(** The enhanced prompt is whatever truthy value the reply holds as
    [choices[0].message.content]. *)
Definition enhancePromptWithGPT4o (options : Options.t) : M jsval :=
  let endpoint := baseApiUrl (Options.apiEndpoint options)
                  ++ lit "/v1/chat/completions" in
  image <- (if truthy_opt (Options.imageUrl options)
            then try_catch
                   (imageData <- load_previous_image
                                   (or_str (Options.imageUrl options) []) ;;
                    ret [image_part imageData])
                   (fun _ => ret [])
            else ret []) ;;
  let userContent := text_part (enhancer_user_text (Options.prompt options)) :: image in
  let messages :=
    JArr [ JObj [ key "role" (JStr (lit "system"));
                  key "content" (JStr enhancer_system_prompt) ];
           JObj [ key "role" (JStr (lit "user"));
                  key "content" (JArr userContent) ] ] in
  let requestBody :=
    JObj [ key "model" (JStr (lit "gpt-4o"));
           key "messages" messages;
           key "temperature" (JNum (num (7 # 10))) ] in
  response <- fetch (post endpoint
                       [content_type_json;
                        authorization "Bearer" (Options.apiKey options)]
                       requestBody) ;;
  if negb (ok response) then
    errorData <- settle (r_json response) ;;
    throw_Error (lit "GPT-4o API Error: " ++ JSON_stringify errorData)
  else
    data <- settle (r_json response) ;;
    choices <- must (get data "choices") ;;
    first <- must (index0 choices) ;;
    let enhancedPrompt := opt_get (opt_get first "message") "content" in
    if negb (truthy enhancedPrompt)
    then throw_Error (lit "No enhanced prompt returned from GPT-4o")
    else ret enhancedPrompt.

(** The inner [try] of [generateWithGPT4o].  When the call returns,
    [enhancedPrompt] has been assigned; the logging line that follows,
    [enhancedPrompt.substring(0, 100)], can then only throw into the same
    [catch], which leaves the assignment in place.  When the call throws,
    [enhancedPrompt] still holds [options.prompt]. *)
Definition enhance_or_keep (options : Options.t) : M jsval :=
  if match Options.uploadPreviousImage options with
     | Some b => b
     | None => false
     end
     && truthy_opt (Options.imageUrl options)
  then try_catch (enhancePromptWithGPT4o options)
         (fun _ => ret (JStr (Options.prompt options)))
  else ret (JStr (Options.prompt options)).

(** The request [generateWithGPT4o] sends to the images endpoint. *)
Definition gpt4o_image_request (options : Options.t) (enhancedPrompt : jsval)
  : Request :=
  let endpoint := baseApiUrl (Options.apiEndpoint options)
                  ++ lit "/v1/images/generations" in
  let requestBody :=
    JObj [ key "model" (JStr (lit "dall-e-3"));
           key "prompt" enhancedPrompt;
           key "n" (JNum (of_Z 1));
           key "size" (JStr (ImageSize_str (Options.size options)));
           key "quality" (JStr (or_str (Options.quality options) (lit "standard")));
           key "style" (JStr (or_str (Options.style options) (lit "vivid"))) ] in
  post endpoint
    [content_type_json; authorization "Bearer" (Options.apiKey options)]
    requestBody.

(** [generateWithGPT4o] from the images request on. *)
Definition gpt4o_generate (options : Options.t) (enhancedPrompt : jsval)
  : M Result.t :=
  response <- fetch (gpt4o_image_request options enhancedPrompt) ;;
  if negb (ok response) then
    errorData <- settle (r_json response) ;;
    throw_Error (lit "DALL-E API Error: " ++ JSON_stringify errorData)
  else
    data <- settle (r_json response) ;;
    d <- must (get data "data") ;;
    let imageUrl := opt_get (opt_index0 d) "url" in
    if negb (truthy imageUrl)
    then throw_Error (lit "No image URL found in DALL-E response")
    else store_remote imageUrl options.

Definition generateWithGPT4o (options : Options.t) : M Result.t :=
  try_catch
    (if negb (truthy_opt (Options.apiKey options))
     then ret (Result.failed (lit "API key is required for GPT-4o image generation"))
     else
       enhancedPrompt <- enhance_or_keep options ;;
       gpt4o_generate options enhancedPrompt)
    as_failure.

(** [`data:image/png;base64,${base64Image}`] *)
Definition png_data_url (base64Image : jsval) : jsstring :=
  lit "data:image/png;base64," ++ ToString base64Image.

Definition generateWithLocalStableDiffusion (options : Options.t) : M Result.t :=
  try_catch
    (let baseHost := or_str (Options.stableDiffusionHost options)
                       (lit "http://localhost:7860") in
     let endpoint := baseHost ++ lit "/sdapi/v1/txt2img" in
     let '(width, height) := size_numbers options in
     let requestBody :=
       JObj [ key "prompt" (JStr (Options.prompt options));
              key "negative_prompt" (JStr (or_str (Options.negativePrompt options) []));
              key "width" width;
              key "height" height;
              key "num_images" (JNum (number_of_images options));
              key "sampler_name" (JStr (lit "DPM++ 2M Karras"));
              key "steps" (JNum (of_Z 30)) ] in
     response <- fetch (post endpoint [content_type_json] requestBody) ;;
     if negb (ok response)
     then throw_Error (lit "Stable Diffusion API error: " ++ statusText response)
     else
       data <- settle (r_json response) ;;
       images <- must (get data "images") ;;
       let base64Image := opt_index0 images in
       if negb (truthy base64Image)
       then throw_Error (lit "No image returned from Stable Diffusion API")
       else store_inline (png_data_url base64Image) options)
    as_failure.

Definition generateWithStableDiffusionAPI (options : Options.t) : M Result.t :=
  try_catch
    (if negb (truthy_opt (Options.stableDiffusionAPIKey options))
     then throw_Error (lit "API key is required for StableDiffusionAPI.com")
     else
       let '(width, height) := size_numbers options in
       let endpoint := STABLEDIFFUSIONAPI_ENDPOINT in
       let requestBody :=
         JObj [ key "key" (JStr (or_str (Options.stableDiffusionAPIKey options) []));
                key "prompt" (JStr (Options.prompt options));
                key "negative_prompt" (JStr (or_str (Options.negativePrompt options) []));
                key "width" (JStr (ToString width));
                key "height" (JStr (ToString height));
                key "samples" (JStr (Number_toString (number_of_images options)));
                key "num_inference_steps" (JStr (lit "30"));
                key "guidance_scale" (JNum (num (15 # 2)));
                key "safety_checker" (JStr (lit "yes"));
                key "webhook" JNull;
                key "track_id" JNull ] in
       response <- fetch (post endpoint [content_type_json] requestBody) ;;
       data <- settle (r_json response) ;;
       status <- must (get data "status") ;;
       if negb (is_str status "success") then
         throw_Error (lit "StableDiffusionAPI.com error: "
                      ++ ToString (or_val (opt_get data "message")
                                     (JStr (lit "Unknown error"))))
       else
         let imageUrl := opt_index0 (opt_get data "output") in
         if negb (truthy imageUrl)
         then throw_Error (lit "No image URL returned from StableDiffusionAPI.com")
         else store_remote imageUrl options)
    as_failure.

Definition maxAttempts : nat := 30.
Definition pollInterval : N := 2000.

(** The polling loop of [generateWithReplicate] with [attempts] iterations
    left; [result] is the variable of that name, [undefined] before the
    first poll.  The value returned is [result] when the loop is left. *)
Fixpoint poll (attempts : nat) (predictionUrl : jsval)
  (token : option jsstring) (result : jsval) : M jsval :=
  match attempts with
  | O => ret result
  | S remaining =>
      pollResponse <- fetch {| url := ToString predictionUrl;
                               method := lit "GET";
                               headers := [authorization "Token" token];
                               body := None |} ;;
      result <- settle (r_json pollResponse) ;;
      status <- must (get result "status") ;;
      if is_str status "succeeded" then ret result
      else if is_str status "failed" then
        throw_Error (lit "Replicate generation failed: "
                     ++ ToString (or_val (opt_get result "error")
                                    (JStr (lit "Unknown error"))))
      else
        sleep pollInterval ;;;
        poll remaining predictionUrl token result
  end.

(** What [generateWithReplicate] does with [result] once the loop is
    left. *)
Definition after_polling (options : Options.t) (result : jsval) : M Result.t :=
  status <- (if negb (truthy result) then ret JUndefined
             else must (get result "status")) ;;
  if negb (truthy result) || negb (is_str status "succeeded")
  then throw_Error (lit "Timed out waiting for Replicate to generate image")
  else
    let imageUrl := opt_index0 (opt_get result "output") in
    if negb (truthy imageUrl)
    then throw_Error (lit "No image URL returned from Replicate")
    else store_remote imageUrl options.

Definition generateWithReplicate (options : Options.t) : M Result.t :=
  try_catch
    (if negb (truthy_opt (Options.stableDiffusionAPIKey options))
     then throw_Error (lit "API key is required for Replicate")
     else
       let '(width, height) := size_numbers options in
       let endpoint := REPLICATE_ENDPOINT in
       let requestBody :=
         JObj [ key "version"
                  (JStr (lit "db21e45d3f7023abc2a46ee38a23973f6dce16bb082a930b0c49861f96d1e5bf"));
                key "input"
                  (JObj [ key "prompt" (JStr (Options.prompt options));
                          key "negative_prompt"
                            (JStr (or_str (Options.negativePrompt options) []));
                          key "width" width;
                          key "height" height;
                          key "num_outputs" (JNum (number_of_images options));
                          key "num_inference_steps" (JNum (of_Z 30));
                          key "guidance_scale" (JNum (num (15 # 2))) ]) ] in
       response <- fetch (post endpoint
                            [content_type_json;
                             authorization "Token"
                               (Options.stableDiffusionAPIKey options)]
                            requestBody) ;;
       if negb (ok response) then
         errorData <- settle (r_json response) ;;
         detail <- must (get errorData "detail") ;;
         throw_Error (lit "Replicate API error: "
                      ++ ToString (or_val detail (JStr (statusText response))))
       else
         prediction <- settle (r_json response) ;;
         urls <- must (get prediction "urls") ;;
         let predictionUrl := opt_get urls "get" in
         if negb (truthy predictionUrl)
         then throw_Error (lit "Invalid response from Replicate")
         else
           result <- poll maxAttempts predictionUrl
                       (Options.stableDiffusionAPIKey options) JUndefined ;;
           after_polling options result)
    as_failure.

(** What the chain of tests on the custom reply decides. *)
Inductive CustomShape :=
| RemoteUrl (imageUrl : jsval)
| InlineDataUrl (dataUrl : jsstring)
| InlineBase64 (base64Image : jsstring)
| Unrecognized.

(** The [if / else if] chain of [generateWithCustomStableDiffusion];
    [None] is the [TypeError] of reading a field of [null]. *)
Definition recognize (data : jsval) : option CustomShape :=
  match get data "output" with
  | None => None
  | Some output =>
      if truthy output && is_string output then Some (RemoteUrl output)
      else if truthy output && is_array output && nonempty_array output
      then Some (RemoteUrl (opt_index0 output))
      else
        let images := opt_get data "images" in
        if truthy images && is_array images && nonempty_array images then
          match opt_index0 images with
          | JStr base64Image =>
              if startsWith base64Image (lit "data:")
              then Some (InlineDataUrl base64Image)
              else Some (InlineBase64 base64Image)
          | _ => Some Unrecognized
          end
        else
          let result := opt_get data "result" in
          if truthy result && is_string result then Some (RemoteUrl result)
          else
            let u := opt_get data "url" in
            if truthy u && is_string u then Some (RemoteUrl u)
            else Some Unrecognized
  end.

Definition generateWithCustomStableDiffusion (options : Options.t) : M Result.t :=
  try_catch
    (if negb (truthy_opt (Options.stableDiffusionHost options))
     then throw_Error (lit "Host URL is required for custom Stable Diffusion API")
     else
       let '(width, height) := size_numbers options in
       let endpoint := or_str (Options.stableDiffusionHost options) [] in
       let with_key := truthy_opt (Options.stableDiffusionAPIKey options) in
       let requestBody :=
         JObj ([ key "prompt" (JStr (Options.prompt options));
                 key "negative_prompt"
                   (JStr (or_str (Options.negativePrompt options) []));
                 key "width" width;
                 key "height" height;
                 key "num_images" (JNum (number_of_images options));
                 key "steps" (JNum (of_Z 30)) ]
               ++ optional_field "key" (Options.stableDiffusionAPIKey options)) in
       let hs :=
         content_type_json
         :: (if with_key
             then [authorization "Bearer" (Options.stableDiffusionAPIKey options)]
             else []) in
       response <- fetch (post endpoint hs requestBody) ;;
       if negb (ok response)
       then throw_Error (lit "Custom Stable Diffusion API error: "
                         ++ statusText response)
       else
         data <- settle (r_json response) ;;
         found <- must (recognize data) ;;
         match found with
         | InlineDataUrl base64Image => store_inline base64Image options
         | InlineBase64 base64Image =>
             store_inline (lit "data:image/png;base64," ++ base64Image) options
         | RemoteUrl imageUrl =>
             if negb (truthy imageUrl)
             then throw_Error (lit "No image URL found in custom API response")
             else store_remote imageUrl options
         | Unrecognized =>
             throw_Error (lit "No image URL found in custom API response")
         end)
    as_failure.

(** [options.stableDiffusionProvider || StableDiffusionProvider.Local],
    then the [switch]. *)
Definition generateWithStableDiffusion (options : Options.t) : M Result.t :=
  (* The [try] of the source encloses the choice only: the promise of the
     chosen adapter is returned without [await] and settles outside it. *)
  let provider :=
    match Options.stableDiffusionProvider options with
    | Some p => if truthy_str (provider_str p) then provider_str p
                else provider_str Local
    | None => provider_str Local
    end in
  if jseqb provider (provider_str Local)
  then generateWithLocalStableDiffusion options
  else if jseqb provider (provider_str StableDiffusionAPI)
  then generateWithStableDiffusionAPI options
  else if jseqb provider (provider_str Replicate)
  then generateWithReplicate options
  else if jseqb provider (provider_str Custom)
  then generateWithCustomStableDiffusion options
  else generateWithLocalStableDiffusion options.

Definition generateImage (options : Options.t) : M Result.t :=
  initImageStorage None ;;;
  let fullPrompt := Options.prompt options in
  result <- (if model_is options DALLE3 || model_is options DALLE2
             then generateWithDalle options
             else if model_is options GPT4o
             then generateWithGPT4o options
             else if model_is options StableDiffusion
             then generateWithStableDiffusion options
             else ret (Result.failed (lit "Unsupported model: "
                                      ++ model_str (Options.model options)))) ;;
  if Result.success result
  then ret (Result.set_fullPrompt result fullPrompt)
  else ret result.

Definition analysisInstructions (prompt : jsstring) : jsstring :=
  nl
  ++ lit "You are an expert image analyst. Create a CONCISE but detailed description of this image for use as a reference by DALL-E." ++ nl
  ++ nl
  ++ lit "IMPORTANT: Your entire description MUST be under 1500 characters as it will be combined with other text, and the total must stay under 4000 characters." ++ nl
  ++ nl
  ++ lit "Describe the following in the most space-efficient way possible:" ++ nl
  ++ lit "1. PRIMARY SUBJECTS: Main subjects with positions (using top-left, center, bottom-right, etc.)" ++ nl
  ++ lit "2. SPATIAL RELATIONSHIPS: Key spatial relationships between elements" ++ nl
  ++ lit "3. COMPOSITION: Essential foreground, middle-ground, background elements" ++ nl
  ++ lit "4. LIGHTING & COLOR: Key lighting direction and dominant color palette" ++ nl
  ++ lit "5. STYLE: Be VERY specific about the rendering style (photorealistic, cartoon, oil painting, watercolor, sketch, etc.) and any distinctive visual techniques used" ++ nl
  ++ lit "6. MOOD/ATMOSPHERE: Overall feeling in 1-2 words" ++ nl
  ++ nl
  ++ lit "BE SPECIFIC about positioning and style while keeping your description brief and focused. Avoid flowery language and unnecessary details." ++ nl
  ++ nl
  ++ lit "Original prompt: " ++ dq ++ prompt ++ dq ++ nl
  ++ lit "    ".

Definition load_error_text : jsstring :=
  lit "Error loading image for analysis. Using original prompt as fallback.".

(** The image for the vision request: [inl] its data URL, [inr] the text
    the function returns early with. *)
Definition load_for_analysis (imageUrl : jsstring) : M (jsstring + jsstring) :=
  if startsWith imageUrl (lit "file://") then
    try_catch
      (let filePath := replace_first imageUrl (lit "file://") [] in
       response <- fetch (plain_get (lit "file://" ++ filePath)) ;;
       base64Image <- settle (r_blob response) ;;
       ret (inl base64Image))
      (fun _ => ret (inr load_error_text))
  else if startsWith imageUrl (lit "data:image") then ret (inl imageUrl)
  else
    try_catch
      (response <- fetch (plain_get imageUrl) ;;
       base64Image <- settle (r_blob response) ;;
       ret (inl base64Image))
      (fun _ => ret (inr load_error_text)).

(** [generateImageDescription].  The declared result is a string; a truthy
    [content] of another kind, which the source would return as it is, is
    rendered the way the prompt templates print it. *)
Definition generateImageDescription
  (prompt : jsstring) (imageUrl apiKey apiEndpoint : option jsstring)
  : M jsstring :=
  if negb (truthy_opt imageUrl) then
    ret (lit "No image available for analysis. Original prompt was: "
         ++ dq ++ prompt ++ dq)
  else if negb (truthy_opt apiKey) then
    ret (lit "Error: API key required for detailed image analysis.")
  else
    try_catch
      (let endpoint :=
         or_str apiEndpoint (lit "https://api.openai.com/v1/chat/completions") in
       loaded <- load_for_analysis (or_str imageUrl []) ;;
       match loaded with
       | inr early => ret early
       | inl base64Image =>
           let requestBody :=
             JObj [ key "model" (JStr (lit "gpt-4o"));
                    key "messages"
                      (JArr [ JObj [ key "role" (JStr (lit "user"));
                                     key "content"
                                       (JArr [ text_part (analysisInstructions prompt);
                                               image_part base64Image ]) ] ]);
                    key "max_tokens" (JNum (of_Z 1500)) ] in
           response <- fetch (post endpoint
                                [content_type_json; authorization "Bearer" apiKey]
                                requestBody) ;;
           if negb (ok response) then
             errorData <- settle (r_json response) ;;
             err <- must (get errorData "error") ;;
             throw_Error (lit "GPT-4 Vision API error: "
                          ++ ToString (or_val (opt_get err "message")
                                         (JStr (statusText response))))
           else
             data <- settle (r_json response) ;;
             choices <- must (get data "choices") ;;
             let description :=
               opt_get (opt_get (opt_index0 choices) "message") "content" in
             if negb (truthy description)
             then throw_Error (lit "No description returned from GPT-4 Vision API")
             else ret (ToString description)
       end)
      (fun _ =>
         ret (lit "Failed to generate detailed image description. Using original prompt: "
              ++ dq ++ prompt ++ dq)).

Definition analysis_heading : jsstring := lit "## REFERENCE IMAGE ANALYSIS".

(** The part of [refineImage] that precedes the dispatch: the combined
    prompt, with [options] and the annotations as that part leaves them. *)
Definition refineImage_prompt
  (originalPrompt refinementPrompt : jsstring) (options : Options.t)
  (annotations : option (list Annotation))
  : M (jsstring * Options.t * option (list Annotation)) :=
  let '(width, height) := estimateImageDimensions (Options.size options) in
  let hasImageAnalysisInPrompt := includes refinementPrompt analysis_heading in
  options <-
    (if negb (truthy_opt (Options.imageDescription options))
        && truthy_opt (Options.imageUrl options)
        && truthy_opt (Options.apiKey options)
        && negb hasImageAnalysisInPrompt
     then
       try_catch
         (imageDescription <-
            generateImageDescription originalPrompt (Options.imageUrl options)
              (Options.apiKey options)
              (if truthy_opt (Options.apiEndpoint options)
               then Some (replace_first (or_str (Options.apiEndpoint options) [])
                            (lit "/v1/images/generations")
                            (lit "/v1/chat/completions"))
               else None) ;;
          ret (Options.set_imageDescription options (Some imageDescription)))
         (fun _ => ret options)
     else ret options) ;;
  let '(spatialRefinementPrompt, annotations) :=
    match annotations with
    | Some (_ :: _) =>
        if negb hasImageAnalysisInPrompt then
          let globalFeedback := trim (hd [] (split refinementPrompt (nl ++ nl))) in
          generateRefinementPrompt
            {| oi_prompt := originalPrompt;
               oi_description := Options.imageDescription options;
               oi_width := width;
               oi_height := height |}
            annotations (Some globalFeedback)
        else (refinementPrompt, annotations)
    | _ => (refinementPrompt, annotations)
    end in
  let '(combinedPrompt, imageDescription) :=
    composePrompt originalPrompt spatialRefinementPrompt
      (Options.imageDescription options) in
  ret (combinedPrompt,
       Options.set_prompt (Options.set_imageDescription options imageDescription)
         combinedPrompt,
       annotations).

(** [refineImage]: the result, and the annotations as the call leaves
    them. *)
Definition refineImage
  (originalPrompt refinementPrompt : jsstring) (options : Options.t)
  (annotations : option (list Annotation))
  : M (Result.t * option (list Annotation)) :=
  composed <- refineImage_prompt originalPrompt refinementPrompt options annotations ;;
  let '(combinedPrompt, options, annotations) := composed in
  result <- generateImage
              (Options.set_uploadPreviousImage options
                 (if model_is options GPT4o then Some true
                  else Options.uploadPreviousImage options)) ;;
  if Result.success result
  then ret (Result.set_fullPrompt result combinedPrompt, annotations)
  else ret (result, annotations).

End WithEngine.
End ImageGeneration.
Export ImageGeneration.

(* ================================================================== *)
(** ** stores/atoms.ts and stores/sessionActions.ts *)
(* ================================================================== *)

Module SessionActions.

(** [shared/defaults.ts], which the sources read through
    [defaults.sessions()] and [defaults.getDefaultPrompt()]. *)
Class Defaults := {
  defaults_sessions : list Session.t;
  getDefaultPrompt : jsstring
}.

Section WithDefaults.
Context {D : Defaults}.

(** The getter of [sessionsAtom]: the defaults stand in for an empty
    stored list. *)
Definition get_sessions (w : World) : list Session.t :=
  match sessions w with
  | [] => defaults_sessions
  | stored => stored
  end.

(** The setter of [sessionsAtom], given the list the update produced. *)
Definition put_sessions (newSessions : list Session.t) : M unit :=
  fun w =>
    (Ok tt,
     with_sessions (match newSessions with
                    | [] => defaults_sessions
                    | _ => newSessions
                    end) w).

Definition has_session (sessionId : jsstring) (l : list Session.t) : bool :=
  existsb (fun s => jseqb (Session.id s) sessionId) l.

(** [initEmptyChatSession()], with [newSession.id = sessionId] applied. *)
Definition newSessionFor (settings : Settings.t) (sessionId : jsstring)
  (msgs : list Message.t) : M Session.t :=
  _discarded <- uuidv4 ;;
  systemId <- uuidv4 ;;
  let systemMessage :=
    {| Message.id := systemId; Message.role := Message.system;
       Message.content := or_str (Settings.defaultPrompt settings) getDefaultPrompt;
       Message.timestamp := None; Message.generating := None;
       Message.imageUrl := None; Message.originalPrompt := None;
       Message.refinementPrompt := None; Message.imageDescription := None;
       Message.fullPrompt := None; Message.annotations := None;
       Message.history := None; Message.isReroll := None;
       Message.error := None; Message.errorCode := None |} in
  ret {| Session.id := sessionId; Session.name := lit "Untitled";
         Session.messages := systemMessage :: msgs |}.

Definition ensureSessionExists (settings : Settings.t) (sessionId : jsstring)
  : M unit :=
  fun w =>
    if has_session sessionId (get_sessions w) then (Ok tt, w)
    else
      (newSession <- newSessionFor settings sessionId [] ;;
       fun w1 => put_sessions (sessions w1 ++ [newSession]) w1) w.

Definition with_messages (s : Session.t) (msgs : list Message.t) : Session.t :=
  {| Session.id := Session.id s; Session.name := Session.name s;
     Session.messages := msgs |}.

Definition insertMessage (settings : Settings.t) (sessionId : jsstring)
  (msg : Message.t) : M unit :=
  ensureSessionExists settings sessionId ;;;
  fun w =>
    if negb (has_session sessionId (sessions w)) then
      (newSession <- newSessionFor settings sessionId [msg] ;;
       fun w1 => put_sessions (sessions w1 ++ [newSession]) w1) w
    else
      put_sessions
        (map (fun s =>
                if jseqb (Session.id s) sessionId
                then with_messages s (Session.messages s ++ [msg])
                else s)
           (sessions w)) w.

Definition set_timestamp (m : Message.t) (ts : N) : Message.t :=
  {| Message.id := Message.id m; Message.role := Message.role m;
     Message.content := Message.content m; Message.timestamp := Some ts;
     Message.generating := Message.generating m;
     Message.imageUrl := Message.imageUrl m;
     Message.originalPrompt := Message.originalPrompt m;
     Message.refinementPrompt := Message.refinementPrompt m;
     Message.imageDescription := Message.imageDescription m;
     Message.fullPrompt := Message.fullPrompt m;
     Message.annotations := Message.annotations m;
     Message.history := Message.history m;
     Message.isReroll := Message.isReroll m;
     Message.error := Message.error m;
     Message.errorCode := Message.errorCode m |}.

(** The closure [handle] of [modifyMessage]; [hasHandled] is the flag it
    shares with later calls. *)
Definition handle (updated : Message.t) (hasHandled : bool)
  (msgs : list Message.t) : list Message.t * bool :=
  let result :=
    map (fun m => if jseqb (Message.id m) (Message.id updated)
                  then updated else m) msgs in
  let hasHandled :=
    hasHandled
    || existsb (fun m => jseqb (Message.id m) (Message.id updated)) msgs in
  if negb hasHandled then (result ++ [updated], true) else (result, hasHandled).

Fixpoint modify_in (sessionId : jsstring) (updated : Message.t)
  (hasHandled : bool) (l : list Session.t) : list Session.t :=
  match l with
  | [] => []
  | s :: rest =>
      if negb (jseqb (Session.id s) sessionId)
      then s :: modify_in sessionId updated hasHandled rest
      else
        let '(msgs, hasHandled) := handle updated hasHandled (Session.messages s) in
        with_messages s msgs :: modify_in sessionId updated hasHandled rest
  end.

(** [modifyMessage]; the message is returned as the call leaves it (its
    [timestamp] is reassigned). *)
Definition modifyMessage (settings : Settings.t) (sessionId : jsstring)
  (updated : Message.t) : M Message.t :=
  ts <- Date_now ;;
  let updated := set_timestamp updated ts in
  ensureSessionExists settings sessionId ;;;
  (fun w =>
     if negb (has_session sessionId (sessions w)) then
       (newSession <- newSessionFor settings sessionId [updated] ;;
        fun w1 => put_sessions (sessions w1 ++ [newSession]) w1) w
     else
       put_sessions (modify_in sessionId updated false (sessions w)) w) ;;;
  ret updated.

End WithDefaults.
End SessionActions.
Export SessionActions.

(* ================================================================== *)
(** ** MessageList.tsx: the reroll handler *)
(* ================================================================== *)

Module MessageList.

(** [`${s}`] for an optional string. *)
Definition shown (s : option jsstring) : jsstring :=
  match s with
  | Some t => t
  | None => lit "undefined"
  end.

(** [url => url && url.trim() !== ''] *)
Definition valid_url (u : jsstring) : bool :=
  truthy_str u && negb (jseqb (trim u) []).








Definition errorMessage (newId : jsstring) (ts : N) (text : jsstring)
  : Message.t :=
  {| Message.id := newId; Message.role := Message.system;
     Message.content := lit "Error rerolling image: " ++ text;
     Message.timestamp := Some ts; Message.generating := None;
     Message.imageUrl := None; Message.originalPrompt := None;
     Message.refinementPrompt := None; Message.imageDescription := None;
     Message.fullPrompt := None; Message.annotations := None;
     Message.history := None; Message.isReroll := None;
     Message.error := Some text; Message.errorCode := Some 500%Z |}.

Section WithEnvironment.
Context {E : JsEngine} {D : Defaults}.



End WithEnvironment.
End MessageList.
Export MessageList.

(* ================================================================== *)
(** ** Notions used in the statements *)
(* ================================================================== *)

Module Statements.

(** An engine for the closed examples; none of them depends on the text
    these built-ins produce. *)
Definition sample_engine : JsEngine :=
  {| float_to_string := fun _ => lit "0.5";
     JSON_stringify := fun _ => lit "{}";
     URL_parse := fun _ => None;
     type_error_message := lit "Cannot read properties of null" |}.

Definition sample_defaults : Defaults :=
  {| defaults_sessions := [];
     getDefaultPrompt := lit "You are a helpful assistant." |}.

(** *** Strings *)

(** The test that opens [getFileUrl]. *)
Definition is_url (filePath : jsstring) : bool :=
  startsWith filePath (lit "http://")
  || startsWith filePath (lit "https://")
  || startsWith filePath (lit "file://").

(** *** Regions *)

(** [0 <= v && v <= 1] *)
Definition in_unit (v : jsnum) : Prop :=
  leb (of_Z 0) v = true /\ leb v (of_Z 1) = true.

(** The value of [Math.max(0, Math.min(1, q))] on a finite [q]. *)
Definition Qclamp (q : Q) : Q :=
  if Qle_bool 1 q then 1 else if Qle_bool 0 q then q else 0.

(** The cells of the grid whose closed rectangle holds the centroid. *)
Definition cells_containing (r : Region) : list jsstring :=
  let '(centerX, centerY) := centroid r in
  map fst (filter (fun entry => in_section centerX centerY (snd entry))
             GRID_SECTIONS).

(** The first of the three closed bands [0, 0.33], [0.33, 0.66],
    [0.66, 1] that holds [v]. *)
Definition band (v : jsnum) : option nat :=
  if geb v (num 0) && leb v (num (33 # 100)) then Some 0%nat
  else if geb v (num (33 # 100)) && leb v (num (66 # 100)) then Some 1%nat
  else if geb v (num (66 # 100)) && leb v (num 1) then Some 2%nat
  else None.

Definition cell_name (row col : nat) : jsstring :=
  match row, col with
  | 0, 0 => lit "top-left"
  | 0, 1 => lit "top-center"
  | 0, _ => lit "top-right"
  | 1, 0 => lit "middle-left"
  | 1, 1 => lit "center"
  | 1, _ => lit "middle-right"
  | _, 0 => lit "bottom-left"
  | _, 1 => lit "bottom-center"
  | _, _ => lit "bottom-right"
  end%nat.

(** A rectangle annotation fresh from the canvas. *)
Definition rectangle_annotation (x y width height : Q) : Annotation :=
  {| a_id := lit "a1"; a_type := rectangle;
     coordinates := [Fin x; Fin y; Fin width; Fin height];
     feedback := []; normalizedCoordinates := None;
     spatialReference := None |}.

(** *** Computations *)

(** [c] run from [w] returns normally. *)
Definition returns {A} (c : M A) (w : World) : Prop :=
  exists a w', c w = (Ok a, w').

(** Every value [c] can return satisfies [P]. *)
Definition yields {A} (P : A -> Prop) (c : M A) : Prop :=
  forall w a w', c w = (Ok a, w') -> P a.

(** A result is either a success without error text or a failure with an
    error text and the empty image URL. *)
Definition reported (r : Result.t) : Prop :=
  if Result.success r
  then Result.error r = None
  else Result.imageUrl r = [] /\ Result.error r <> None.

(** *** Sample inputs of the closed examples *)

Definition sample_world : World :=
  {| baseImageDir := None;
     net := [];
     bridge := [];
     now := 1700000000000%N;
     uuids := fun k => Z_to_jsstring (Z.of_nat k)
                       ++ lit "c9e1f7a-58b2-4d3c-9a41-6e0f2b7d8c35";
     uuid_next := 0;
     randoms := fun k => (42 + N.of_nat k)%N;
     random_next := 0;
     sent := [];
     invoked := [];
     sessions := [] |}.

Definition with_replies (replies : list (Response + exn))
  (answers : list (jsstring + exn)) (dir : option jsstring) : World :=
  {| baseImageDir := dir;
     net := replies;
     bridge := answers;
     now := now sample_world;
     uuids := uuids sample_world;
     uuid_next := 0;
     randoms := randoms sample_world;
     random_next := 0;
     sent := [];
     invoked := [];
     sessions := [] |}.

Definition sample_options (m : ImageGenerationModel) : Options.t :=
  {| Options.prompt := lit "a lighthouse at dusk";
     Options.size := S1024x1024;
     Options.model := m;
     Options.apiKey := Some (lit "sk-test");
     Options.apiEndpoint := None;
     Options.stableDiffusionHost := Some (lit "http://sd.example/generate");
     Options.stableDiffusionProvider := None;
     Options.stableDiffusionAPIKey := Some (lit "r8-test");
     Options.sessionId := lit "session-1";
     Options.negativePrompt := None;
     Options.numberOfImages := None;
     Options.style := None;
     Options.quality := None;
     Options.imageDescription := None;
     Options.imageUrl := None;
     Options.uploadPreviousImage := None |}.

(** A reply with status 200 and the given JSON body. *)
Definition json_reply (v : jsval) : Response + exn :=
  inl {| ok := true; statusText := lit "OK"; r_json := inl v;
         r_blob := inr (JsError (lit "not an image")) |}.

(** [{ data: [{ url }] }] *)
Definition dalle_payload (u : string) : jsval :=
  JObj [ (lit "data", JArr [ JObj [ (lit "url", JStr (lit u)) ] ]) ].

(** *** Replies of the polled provider *)

(** The JSON body of a scripted reply, when it has one. *)
Definition reply_json (rp : Response + exn) : option jsval :=
  match rp with
  | inl r => match r_json r with inl v => Some v | inr _ => None end
  | inr _ => None
  end.

(** The [status] field of a scripted reply. *)
Definition reply_status (rp : Response + exn) : jsval :=
  match reply_json rp with
  | Some v => opt_get v "status"
  | None => JUndefined
  end.

(** A poll answered with a JSON object (or other non-null value) whose
    status is neither [succeeded] nor [failed]: [pending], [starting],
    [processing] and the like. *)
Definition is_pending (rp : Response + exn) : bool :=
  match reply_json rp with
  | Some JNull | Some JUndefined | None => false
  | Some _ =>
      negb (is_str (reply_status rp) "succeeded")
      && negb (is_str (reply_status rp) "failed")
  end.

(** A poll answered with status [failed]. *)
Definition is_failed (rp : Response + exn) : bool :=
  is_str (reply_status rp) "failed".

(** The submission was accepted and names [predictionUrl] as the address
    to poll. *)
Definition accepted (rp : Response + exn) (predictionUrl : jsval) : Prop :=
  exists r prediction urls,
    rp = inl r /\ ok r = true /\ r_json r = inl prediction
    /\ get prediction "urls" = Some urls
    /\ opt_get urls "get" = predictionUrl
    /\ truthy predictionUrl = true.

(** The request of one poll. *)
Definition poll_request {E : JsEngine} (predictionUrl : jsval)
  (token : option jsstring) : Request :=
  {| url := ToString predictionUrl; method := lit "GET";
     headers := [authorization "Token" token]; body := None |}.

(** [{ status }] and [{ status, output: [url] }] *)
Definition status_reply (status : string) : Response + exn :=
  json_reply (JObj [ (lit "status", JStr (lit status)) ]).

Definition output_reply (status u : string) : Response + exn :=
  json_reply (JObj [ (lit "status", JStr (lit status));
                     (lit "output", JArr [ JStr (lit u) ]) ]).

Definition submission_reply (u : string) : Response + exn :=
  json_reply (JObj [ (lit "urls", JObj [ (lit "get", JStr (lit u)) ]) ]).

(** *** Shapes of the custom provider's reply *)



(** The file the store writes for the first image of a session, in a
    world whose image directory is [dir]. *)
Definition stored_path (dir sessionId : jsstring) (w : World) : jsstring :=
  (dir ++ [slash] ++ sessionId) ++ [slash]
  ++ Z_to_jsstring (Z.of_N (now w)) ++ lit "-"
  ++ substring0 (uuids w (uuid_next w)) 8 ++ lit ".png".



(** [{ images: [base64] }] *)
Definition images_payload (base64 : jsstring) : jsval :=
  JObj [ (lit "images", JArr [ JStr base64 ]) ].

(** [c] sends nothing over the network. *)
Definition silent {A} (c : M A) : Prop :=
  forall w o w', c w = (o, w') -> sent w' = sent w.

(** [c] leaves the observation [f] of the world as it was. *)
Definition preserves {X A} (f : World -> X) (c : M A) : Prop :=
  forall w o w', c w = (o, w') -> f w' = f w.

(** *** The session store *)

(** The messages of the session [sessionId], as stored. *)
Definition session_messages (sessionId : jsstring) (w : World)
  : list Message.t :=
  match find (fun s => jseqb (Session.id s) sessionId) (sessions w) with
  | Some s => Session.messages s
  | None => []
  end.

(** Appending to every session named [sessionId]. *)
Definition append_in (sessionId : jsstring) (msg : Message.t)
  (l : list Session.t) : list Session.t :=
  map (fun s => if jseqb (Session.id s) sessionId
                then with_messages s (Session.messages s ++ [msg])
                else s) l.

(** No message of the list carries the identifier [i]. *)
Definition fresh_id (i : jsstring) (msgs : list Message.t) : bool :=
  forallb (fun m => negb (jseqb (Message.id m) i)) msgs.


(** A refinement entry as [handleRefineImage] creates one, already
    generated. *)
Definition refined_entry (history : list jsstring) (imageUrl : string)
  : Message.t :=
  {| Message.id := lit "msg-B"; Message.role := Message.assistant;
     Message.content := []; Message.timestamp := Some 1699999990000%N;
     Message.generating := Some false;
     Message.imageUrl := Some (lit imageUrl);
     Message.originalPrompt := Some (lit "a lighthouse at dusk");
     Message.refinementPrompt := Some (lit "make the sky stormy");
     Message.imageDescription := Some (lit "A white lighthouse on a cliff.");
     Message.fullPrompt := Some (lit "(prompt of B)");
     Message.annotations := Some [];
     Message.history := Some history;
     Message.isReroll := None; Message.error := None;
     Message.errorCode := None |}.

Definition sample_settings : Settings.t :=
  {| Settings.imageSize := S1024x1024;
     Settings.imageGenerationModel := DALLE3;
     Settings.openaiKey := Some (lit "sk-test");
     Settings.apiHost := None;
     Settings.stableDiffusionHost := None;
     Settings.stableDiffusionProvider := None;
     Settings.stableDiffusionAPIKey := None;
     Settings.imageStyle := None;
     Settings.imageQuality := None;
     Settings.defaultPrompt := None |}.

(** [sample_options] for the chat-model-mediated adapter, asking for the
    previous image (held as a data URL) to be uploaded. *)
Definition sample_enrich_options : Options.t :=
  Options.set_uploadPreviousImage
    {| Options.prompt := lit "a lighthouse at dusk";
       Options.size := S1024x1024;
       Options.model := GPT4o;
       Options.apiKey := Some (lit "sk-test");
       Options.apiEndpoint := None;
       Options.stableDiffusionHost := None;
       Options.stableDiffusionProvider := None;
       Options.stableDiffusionAPIKey := None;
       Options.sessionId := lit "session-1";
       Options.negativePrompt := None;
       Options.numberOfImages := None;
       Options.style := None;
       Options.quality := None;
       Options.imageDescription := None;
       Options.imageUrl := Some (lit "data:image/png;base64,iVBORw0KGgo=");
       Options.uploadPreviousImage := None |}
    (Some true).

(** A reply with an error status. *)
Definition error_reply (status : string) (v : jsval) : Response + exn :=
  inl {| ok := false; statusText := lit status; r_json := inl v;
         r_blob := inr (JsError (lit "not an image")) |}.

(** A world whose store holds one session, [session-1], with the given
    messages, and whose image directory is set up. *)
Definition reroll_world (msgs : list Message.t)
  (replies : list (Response + exn)) (answers : list (jsstring + exn)) : World :=
  {| baseImageDir := Some (lit "/data/images");
     net := replies;
     bridge := answers;
     now := now sample_world;
     uuids := uuids sample_world;
     uuid_next := 0;
     randoms := randoms sample_world;
     random_next := 0;
     sent := [];
     invoked := [];
     sessions := [ {| Session.id := lit "session-1";
                      Session.name := lit "Untitled";
                      Session.messages := msgs |} ] |}.


End Statements.
Export Statements.

(* ================================================================== *)
(** ** imageGeneration.ts: the placeholder generator *)
(* ================================================================== *)

Module PlaceholderImage.

(** The message of the [URIError] that [encodeURIComponent] raises on a
    lone surrogate; its text is the engine's. *)
Class JsUriError := {
  uri_malformed : jsstring
}.

Section WithEngine.
Context {E : JsEngine} {U : JsUriError}.

(** [encodeURIComponent(s)] as a computation. *)
Definition encode_or_throw (s : jsstring) : M jsstring :=
  match encodeURIComponent s with
  | Some encoded => ret encoded
  | None => throw (JsError uri_malformed)
  end.

Definition generatePlaceholderImage (options : Options.t) : M Result.t :=
  try_catch
    (let '(width, height) := size_numbers options in
     encoded <- encode_or_throw (substring0 (Options.prompt options) 20) ;;
     let placeholderUrl :=
       lit "https://placehold.co/" ++ ToString width ++ lit "x"
       ++ ToString height ++ lit "/png?text=" ++ encoded in
     store_remote (JStr placeholderUrl) options)
    as_failure.

End WithEngine.
End PlaceholderImage.
Export PlaceholderImage.

(* ================================================================== *)
(** ** stores/sessionActions.ts: further actions *)
(* ================================================================== *)

Module SessionStore.

Definition is_system (m : Message.t) : bool :=
  match Message.role m with
  | Message.system => true
  | _ => false
  end.

(** [msg.error || msg.errorCode] *)
Definition has_error (msg : Message.t) : bool :=
  truthy_opt (Message.error msg)
  || match Message.errorCode msg with
     | Some code => negb (Z.eqb code 0)
     | None => false
     end.

(** The loop of [genMessageContext], from the last message backwards;
    [remaining] holds the messages not yet visited, last first.  The token
    estimates the source adds up along the way are used for nothing. *)
Fixpoint context_loop (openaiMaxContextMessageCount : jsnum)
  (remaining prompts : list Message.t) : list Message.t :=
  match remaining with
  | [] => prompts
  | msg :: earlier =>
      if has_error msg
      then context_loop openaiMaxContextMessageCount earlier prompts
      else if leb openaiMaxContextMessageCount (of_Z 20)
              && geb (of_Z (Z.of_nat (List.length prompts)))
                   (add openaiMaxContextMessageCount (of_Z 1))
      then prompts
      else context_loop openaiMaxContextMessageCount earlier (msg :: prompts)
  end.

(** [genMessageContext(settings, msgs)], given
    [settings.openaiMaxContextMessageCount]. *)
Definition genMessageContext (openaiMaxContextMessageCount : jsnum)
  (msgs : list Message.t) : list Message.t + exn :=
  match msgs with
  | [] => inr (JsError (lit "No messages to replay"))
  | first :: others =>
      let head := if is_system first then Some first else None in
      let msgs := match head with Some _ => others | None => msgs end in
      let prompts := context_loop openaiMaxContextMessageCount (rev msgs) [] in
      inl match head with
          | Some h => h :: prompts
          | None => prompts
          end
  end.

Section WithDefaults.
Context {D : Defaults}.

(** [getSession] *)
Definition getSession (sessionId : jsstring) (w : World) : option Session.t :=
  find (fun s => jseqb (Session.id s) sessionId) (get_sessions w).

(** [modify] *)
Definition modify (update : Session.t) : M unit :=
  fun w =>
    put_sessions
      (map (fun s => if jseqb (Session.id s) (Session.id update)
                     then update else s)
         (sessions w)) w.

(** [remove] *)
Definition remove (session : Session.t) : M unit :=
  fun w =>
    put_sessions
      (filter (fun s => negb (jseqb (Session.id s) (Session.id session)))
         (sessions w)) w.

(** [clear] *)
Definition clear (sessionId : jsstring) : M unit :=
  fun w =>
    match getSession sessionId w with
    | None => (Ok tt, w)
    | Some session =>
        modify (with_messages session
                  (filter is_system (Session.messages session))) w
    end.

End WithDefaults.
End SessionStore.

(* ================================================================== *)
(** ** AnnotationCanvas.tsx: coordinates of an annotation *)
(* ================================================================== *)

Module AnnotationCanvas.

(** The state [imageSize]: the displayed image and its offset in the
    stage. *)
Record ImageSizeState := {
  display_width : jsnum;
  display_height : jsnum;
  offsetX : jsnum;
  offsetY : jsnum
}.

(** [a < b] and [a > b] *)
Definition lt_num (a b : jsnum) : bool :=
  match a, b with
  | NaN, _ | _, NaN => false
  | _, _ => negb (leb b a)
  end.

Definition gt_num (a b : jsnum) : bool := lt_num b a.

(** One axis of [stageToImageCoords]. *)
Definition clamp_to_image (stage offset extent : jsnum) : jsnum :=
  let isOutsideImage :=
    lt_num stage offset || gt_num stage (add offset extent) in
  if isOutsideImage
  then Math_max offset (Math_min stage (add offset extent))
  else stage.

Definition stageToImageCoords (imageSize : ImageSizeState)
  (stageX stageY : jsnum) : jsnum * jsnum :=
  (clamp_to_image stageX (offsetX imageSize) (display_width imageSize),
   clamp_to_image stageY (offsetY imageSize) (display_height imageSize)).

(** [coordinates.filter((_, i) => i % 2 === 0)] and [... === 1] *)
Fixpoint even_indexed (A : Type) (l : list A) : list A :=
  match l with
  | x :: _ :: rest => x :: even_indexed rest
  | [x] => [x]
  | [] => []
  end.

Definition odd_indexed (A : Type) (l : list A) : list A :=
  match l with
  | _ :: rest => even_indexed rest
  | [] => []
  end.

(** [Math.min(...l)] and [Math.max(...l)] *)
Definition Math_min_of (l : list jsnum) : jsnum := fold_left Math_min l PInf.
Definition Math_max_of (l : list jsnum) : jsnum := fold_left Math_max l NInf.

Section WithEngine.
Context {E : JsEngine}.

(** [processAnnotation]; [imageElement] tells whether the image has
    loaded. *)
Definition processAnnotation (imageElement : bool) (imageSize : ImageSizeState)
  (annotation : Annotation) : Annotation :=
  if negb imageElement then annotation
  else
    let bounds :=
      match a_type annotation with
      | rectangle =>
          Some (nth 0 (coordinates annotation) NaN,
                nth 1 (coordinates annotation) NaN,
                nth 2 (coordinates annotation) NaN,
                nth 3 (coordinates annotation) NaN)
      | freehand =>
          Some (Math_min_of (even_indexed (coordinates annotation)),
                Math_min_of (odd_indexed (coordinates annotation)),
                Math_max_of (even_indexed (coordinates annotation)),
                Math_max_of (odd_indexed (coordinates annotation)))
      | shape => None
      end in
    match bounds with
    | None => annotation
    | Some (minX, minY, maxX, maxY) =>
        let relMinX := div (sub minX (offsetX imageSize)) (display_width imageSize) in
        let relMinY := div (sub minY (offsetY imageSize)) (display_height imageSize) in
        let relMaxX := div (sub maxX (offsetX imageSize)) (display_width imageSize) in
        let relMaxY := div (sub maxY (offsetY imageSize)) (display_height imageSize) in
        let annotation :=
          set_normalizedCoordinates annotation
            {| x1 := clamp01 relMinX; y1 := clamp01 relMinY;
               x2 := clamp01 relMaxX; y2 := clamp01 relMaxY |} in
        let '(description, annotation) :=
          generateSpatialDescription annotation (of_Z 1) (of_Z 1) in
        set_spatialReference annotation description
    end.

End WithEngine.
End AnnotationCanvas.
Export AnnotationCanvas.

(* ================================================================== *)
(** ** ImageGenerationToolbar.tsx: the host field *)
(* ================================================================== *)

Module Toolbar.

Definition set_stableDiffusionHost (settings : Settings.t) (value : jsstring)
  : Settings.t :=
  {| Settings.imageSize := Settings.imageSize settings;
     Settings.imageGenerationModel := Settings.imageGenerationModel settings;
     Settings.openaiKey := Settings.openaiKey settings;
     Settings.apiHost := Settings.apiHost settings;
     Settings.stableDiffusionHost := Some value;
     Settings.stableDiffusionProvider := Settings.stableDiffusionProvider settings;
     Settings.stableDiffusionAPIKey := Settings.stableDiffusionAPIKey settings;
     Settings.imageStyle := Settings.imageStyle settings;
     Settings.imageQuality := Settings.imageQuality settings;
     Settings.defaultPrompt := Settings.defaultPrompt settings |}.

(** [handleSDHostChange], given [event.target.value]: the settings it
    sets. *)
Definition handleSDHostChange (settings : Settings.t) (input : jsstring)
  : Settings.t :=
  let value := trim input in
  let value :=
    if truthy_str value && (0 <? List.length value)%nat
       && negb (startsWith value (lit "http"))
    then lit "http://" ++ value
    else value in
  set_stableDiffusionHost settings value.

End Toolbar.
Export Toolbar.

(* ================================================================== *)
(** ** MessageList.tsx: the refine handler *)
(* ================================================================== *)

Module RefineHandler.

(** The code units that open the three chat lines and the bullets of the
    analysis notice, as the source file holds them. *)
Definition loading_glyph : jsstring := [240%N; 376%N; 8221%N].
Definition analysis_glyph : jsstring := [240%N; 376%N; 8220%N; 352%N].
Definition refining_glyph : jsstring := [240%N; 376%N; 8221%N; 8222%N].
Definition bullet : jsstring := [226%N; 8364%N; 162%N].

Definition loadingText : jsstring :=
  loading_glyph ++ lit " Analyzing image for refinement...".

Definition descriptionText (originalPrompt : option jsstring) : jsstring :=
  analysis_glyph ++ lit " Generated Detailed Image Analysis" ++ nl ++ nl
  ++ lit "A comprehensive analysis of " ++ dq ++ shown originalPrompt ++ dq
  ++ lit " has been performed using advanced vision technology, including:" ++ nl
  ++ bullet ++ lit " Precise subject identification with exact positioning" ++ nl
  ++ bullet ++ lit " Detailed spatial relationships and environmental context" ++ nl
  ++ bullet ++ lit " Complete compositional, lighting, and color analysis" ++ nl
  ++ bullet ++ lit " Texture mapping and atmospheric qualities" ++ nl ++ nl
  ++ lit "This detailed analysis enables highly accurate refinements while preserving the image's key characteristics.".

Definition refinementText (refinementPrompt : jsstring) : jsstring :=
  refining_glyph ++ lit " Refining image with prompt:" ++ nl ++ refinementPrompt.

(** [[...(message.history || []), message.imageUrl].filter(url => typeof
    url === 'string' && url.trim() !== '')] *)
Definition refine_history (message : Message.t) : list jsstring :=
  filter valid_url
    (match Message.history message with Some h => h | None => [] end
     ++ match Message.imageUrl message with Some u => [u] | None => [] end).

Definition refineOptions (settings : Settings.t) (currentSessionId : jsstring)
  (message : Message.t) (imageDescription : jsstring) : Options.t :=
  {| Options.prompt := or_str (Message.originalPrompt message) (lit "An image");
     Options.size := Settings.imageSize settings;
     Options.model := Settings.imageGenerationModel settings;
     Options.apiKey := Settings.openaiKey settings;
     Options.apiEndpoint :=
       if truthy_opt (Settings.apiHost settings)
       then Some (or_str (Settings.apiHost settings) []
                  ++ lit "/v1/images/generations")
       else None;
     Options.stableDiffusionHost := Settings.stableDiffusionHost settings;
     Options.stableDiffusionProvider := Settings.stableDiffusionProvider settings;
     Options.stableDiffusionAPIKey := Settings.stableDiffusionAPIKey settings;
     Options.sessionId := currentSessionId;
     Options.negativePrompt := None;
     Options.numberOfImages := None;
     Options.style :=
       if truthy_opt (Settings.imageStyle settings)
       then Settings.imageStyle settings else None;
     Options.quality :=
       if truthy_opt (Settings.imageQuality settings)
       then Settings.imageQuality settings else None;
     Options.imageDescription := Some imageDescription;
     Options.imageUrl := Message.imageUrl message;
     Options.uploadPreviousImage := None |}.

(** [refinedImageMessage] as first inserted. *)
Definition refinedImageMessage (newId : jsstring) (ts : N)
  (message : Message.t) (refinementPrompt imageDescription : jsstring)
  : Message.t :=
  {| Message.id := newId;
     Message.role := Message.assistant;
     Message.content := [];
     Message.timestamp := Some ts;
     Message.generating := Some true;
     Message.imageUrl := Some [];
     Message.originalPrompt := Message.originalPrompt message;
     Message.refinementPrompt := Some refinementPrompt;
     Message.imageDescription := Some imageDescription;
     Message.fullPrompt := Some [];
     Message.annotations := Some [];
     Message.history := Some (refine_history message);
     Message.isReroll := None;
     Message.error := None;
     Message.errorCode := None |}.

(** The assignments made to [refinedImageMessage] once the refinement has
    returned. *)
Definition settle_refine (refined : Message.t) (result : Result.t)
  : Message.t :=
  if Result.success result then
    {| Message.id := Message.id refined;
       Message.role := Message.role refined;
       Message.content := Message.content refined;
       Message.timestamp := Message.timestamp refined;
       Message.generating := Some false;
       Message.imageUrl := Some (Result.imageUrl result);
       Message.originalPrompt := Message.originalPrompt refined;
       Message.refinementPrompt := Message.refinementPrompt refined;
       Message.imageDescription := Message.imageDescription refined;
       Message.fullPrompt := Result.fullPrompt result;
       Message.annotations := Message.annotations refined;
       Message.history := Message.history refined;
       Message.isReroll := Message.isReroll refined;
       Message.error := Message.error refined;
       Message.errorCode := Message.errorCode refined |}
  else
    {| Message.id := Message.id refined;
       Message.role := Message.role refined;
       Message.content := Message.content refined;
       Message.timestamp := Message.timestamp refined;
       Message.generating := Some false;
       Message.imageUrl := Message.imageUrl refined;
       Message.originalPrompt := Message.originalPrompt refined;
       Message.refinementPrompt := Message.refinementPrompt refined;
       Message.imageDescription := Message.imageDescription refined;
       Message.fullPrompt := Message.fullPrompt refined;
       Message.annotations := Message.annotations refined;
       Message.history := Message.history refined;
       Message.isReroll := Message.isReroll refined;
       Message.error := Result.error result;
       Message.errorCode := Some 500%Z |}.

Definition refineErrorMessage (newId : jsstring) (ts : N) (text : jsstring)
  : Message.t :=
  {| Message.id := newId; Message.role := Message.system;
     Message.content := lit "Error refining image: " ++ text;
     Message.timestamp := Some ts; Message.generating := None;
     Message.imageUrl := None; Message.originalPrompt := None;
     Message.refinementPrompt := None; Message.imageDescription := None;
     Message.fullPrompt := None; Message.annotations := None;
     Message.history := None; Message.isReroll := None;
     Message.error := Some text; Message.errorCode := Some 500%Z |}.

Section WithEnvironment.
Context {E : JsEngine} {D : Defaults}.

(** The [catch] blocks of the handler. *)
Definition report_refine_error (settings : Settings.t)
  (currentSessionId : jsstring) (error : exn) : M unit :=
  errorId <- uuidv4 ;;
  ts <- Date_now ;;
  insertMessage settings currentSessionId
    (refineErrorMessage errorId ts (error_text error)).

(** The description shown for the image being refined. *)
Definition describe_for_refinement (settings : Settings.t)
  (message : Message.t) : M jsstring :=
  if truthy_opt (Message.imageUrl message) then
    generateImageDescription
      (or_str (Message.originalPrompt message) [])
      (Message.imageUrl message)
      (Settings.openaiKey settings)
      (if truthy_opt (Settings.apiHost settings)
       then Some (or_str (Settings.apiHost settings) []
                  ++ lit "/v1/chat/completions")
       else None)
  else
    ret (or_str (Message.imageDescription message)
           (lit "No image available for analysis. Original prompt was: "
            ++ dq ++ shown (Message.originalPrompt message) ++ dq)).

(** [handleRefineImage]; [globalFeedback] is not read. *)
Definition handleRefineImage (settings : Settings.t)
  (currentSessionId : jsstring) (message : Message.t)
  (annotations : list Annotation) (globalFeedback refinementPrompt : jsstring)
  : M unit :=
  try_catch
    (loadingId <- uuidv4 ;;
     loadingTs <- Date_now ;;
     let loadingTextMessage :=
       Message.text loadingId Message.user loadingText loadingTs in
     insertMessage settings currentSessionId loadingTextMessage ;;;
     imageDescription <- describe_for_refinement settings message ;;
     descriptionId <- uuidv4 ;;
     _descriptionTs <- Date_now ;;
     modifyMessage settings currentSessionId
       (Message.text descriptionId Message.user
          (descriptionText (Message.originalPrompt message)) loadingTs) ;;;
     refinementTextId <- uuidv4 ;;
     refinementTs <- Date_now ;;
     insertMessage settings currentSessionId
       (Message.text refinementTextId Message.user
          (refinementText refinementPrompt) refinementTs) ;;;
     refinedId <- uuidv4 ;;
     refinedTs <- Date_now ;;
     let refined :=
       refinedImageMessage refinedId refinedTs message refinementPrompt
         imageDescription in
     insertMessage settings currentSessionId refined ;;;
     try_catch
       (refinedResult <-
          refineImage
            (or_str (Message.originalPrompt message) (lit "An image"))
            refinementPrompt
            (refineOptions settings currentSessionId message imageDescription)
            (Some annotations) ;;
        modifyMessage settings currentSessionId
          (settle_refine refined (fst refinedResult)) ;;;
        ret tt)
       (report_refine_error settings currentSessionId))
    (report_refine_error settings currentSessionId).

End WithEnvironment.
End RefineHandler.
Export RefineHandler.

(* ================================================================== *)
(** ** Notions used in the further properties *)
(* ================================================================== *)

Module Properties.

(** The points of a freehand drawing [x1, y1, x2, y2, ...]. *)
Fixpoint points (coords : list jsnum) : list (jsnum * jsnum) :=
  match coords with
  | x :: y :: rest => (x, y) :: points rest
  | _ => []
  end.

(** A number other than [NaN]. *)
Definition is_number (v : jsnum) : bool :=
  match v with NaN => false | _ => true end.

(** The four bounds of a region are numbers. *)
Definition numeric (r : Region) : bool :=
  is_number (x1 r) && is_number (y1 r) && is_number (x2 r) && is_number (y2 r).

(** [`${n}%`] for an integer [n]. *)
Definition percent (n : Z) : jsstring := Z_to_jsstring n ++ lit "%".

(** A rational that is a binary64 number: rounding leaves it as it is. *)
Definition double (q : Q) : Prop := round64 q = Fin (Qred q).

(** What clamping into the unit interval is to give, by cases. *)
Definition unit_clamp (v : jsnum) : jsnum :=
  match v with
  | NaN => NaN
  | PInf => Fin 1
  | NInf => Fin 0
  | Fin q => Fin (Qclamp q)
  end.

(** The midpoint of two bounds, as the arithmetic of the language
    computes it. *)
Definition midpoint (a b : jsnum) : jsnum := div (add a b) (of_Z 2).

(** The integer [Math.round(100 * v)] is [n]. *)
Definition rounds_to_percent (v : jsnum) (n : Z) : Prop :=
  Math_round (mul v (of_Z 100)) = of_Z n.

(** The text of a description, given the name of the cell and the
    percentages to print: the corners for every type, the dimensions for a
    rectangle only. *)
Definition region_phrase (ty : AnnotationType) (cell : jsstring)
  (left top right bottom wide tall : Z) : jsstring :=
  let corners :=
    percent left ++ lit " left, " ++ percent top ++ lit " top to "
    ++ percent right ++ lit " right, " ++ percent bottom ++ lit " bottom" in
  lit "in the " ++ cell ++ lit " of the image "
  ++ match ty with
     | rectangle =>
         lit "(a rectangle from " ++ corners ++ lit ", with dimensions "
         ++ percent wide ++ lit " wide by " ++ percent tall ++ lit " tall)"
     | freehand =>
         lit "(a freehand drawing within a region from " ++ corners ++ lit ")"
     | shape =>
         lit "(a shape within a region from " ++ corners ++ lit ")"
     end.

(** The copy of a region with each bound clamped. *)
Definition clamped_copy (r : Region) : Region :=
  {| x1 := unit_clamp (x1 r); y1 := unit_clamp (y1 r);
     x2 := unit_clamp (x2 r); y2 := unit_clamp (y2 r) |}.

(** [phrase] describes the region [c] as an annotation of type [ty]: it
    names the cell whose bands hold the midpoint of [c], prints the four
    bounds of [c] as whole percentages from 0 to 100 and, for a rectangle,
    the differences of its bounds as whole percentages from -100 to
    100, not negative when the bounds are in order. *)
Definition describes (ty : AnnotationType) (c : Region) (phrase : jsstring)
  : Prop :=
  exists row col left top right bottom wide tall,
    band (midpoint (y1 c) (y2 c)) = Some row
    /\ band (midpoint (x1 c) (x2 c)) = Some col
    /\ rounds_to_percent (x1 c) left /\ rounds_to_percent (y1 c) top
    /\ rounds_to_percent (x2 c) right /\ rounds_to_percent (y2 c) bottom
    /\ rounds_to_percent (sub (x2 c) (x1 c)) wide
    /\ rounds_to_percent (sub (y2 c) (y1 c)) tall
    /\ (0 <= left <= 100)%Z /\ (0 <= top <= 100)%Z
    /\ (0 <= right <= 100)%Z /\ (0 <= bottom <= 100)%Z
    /\ (-100 <= wide <= 100)%Z /\ (-100 <= tall <= 100)%Z
    /\ (leb (x1 c) (x2 c) = true -> (0 <= wide)%Z)
    /\ (leb (y1 c) (y2 c) = true -> (0 <= tall)%Z)
    /\ phrase = region_phrase ty (cell_name row col)
                  left top right bottom wide tall.

(** *** Paths *)

(** A path made of the characters [encodeURIComponent] leaves alone and
    of separators. *)
Definition plain_path (p : jsstring) : bool :=
  forallb (fun c => uri_unreserved c || N.eqb c slash || N.eqb c backslash) p.

(** [pathWithPrefix] of [getFileUrl], for a normalized path. *)
Definition with_leading_slash (p : jsstring) : jsstring :=
  if startsWith p [slash] then p else slash :: p.

(** *** Network traffic *)

(** [c] sends at most [n] requests. *)
Definition sends_at_most {A} (n : nat) (c : M A) : Prop :=
  forall w o w', c w = (o, w') ->
    exists l, sent w' = sent w ++ l /\ (List.length l <= n)%nat.

(** A finite number. *)
Definition is_finite (v : jsnum) : bool :=
  match v with Fin _ => true | _ => false end.

(** A region whose four bounds lie between 0 and 1. *)
Definition in_unit_square (r : Region) : Prop :=
  in_unit (x1 r) /\ in_unit (y1 r) /\ in_unit (x2 r) /\ in_unit (y2 r).

(** [{ data: [{ url }] }], the reply of the images endpoint. *)
Definition images_reply (u : jsstring) : jsval :=
  JObj [ (lit "data", JArr [ JObj [ (lit "url", JStr u) ] ]) ].

(** *** Contexts *)

(** The last [k] elements of a list. *)
Definition lastn (A : Type) (k : nat) (l : list A) : list A :=
  skipn (List.length l - k) l.

(** The system message that opens a conversation, when there is one, and
    the messages after it. *)
Definition context_head (msgs : list Message.t)
  : list Message.t * list Message.t :=
  match msgs with
  | first :: others =>
      if SessionStore.is_system first then ([first], others) else ([], msgs)
  | [] => ([], [])
  end.

Definition without_errors (msgs : list Message.t) : list Message.t :=
  filter (fun m => negb (SessionStore.has_error m)) msgs.

End Properties.
Export Properties.

(* ================================================================== *)
(** ** main.ts: the handlers behind the platform bridge *)
(* ================================================================== *)

Module MainProcess.

(** [fs.Stats], as far as the handlers look at it. *)
Record Stats := {
  isFile : bool;
  isDirectory : bool
}.

(** Built-ins of Node and Electron the handlers call; their text is fixed
    outside this repository.  [Disk] is the state of the file system,
    [Buffer] a buffer of bytes. *)
Class NodeRuntime := {
  Disk : Type;
  Buffer : Type;
  (** [fs.promises.mkdir(path, { recursive: true })] *)
  fs_mkdir_recursive : jsstring -> Disk -> (unit + exn) * Disk;
  (** [fs.promises.writeFile(path, data)] *)
  fs_writeFile : jsstring -> Buffer -> Disk -> (unit + exn) * Disk;
  (** [fs.promises.stat(path)] *)
  fs_stat : jsstring -> Disk -> Stats + exn;
  (** [path.dirname] *)
  path_dirname : jsstring -> jsstring;
  (** [Buffer.from(data, 'base64')] *)
  Buffer_from_base64 : jsstring -> Buffer;
  (** [new URL(s).hostname]; [None] when the constructor throws *)
  URL_hostname : jsstring -> option jsstring;
  (** [app.getPath('userData')] *)
  userData : jsstring
}.

Section WithRuntime.
Context {E : JsEngine} {N : NodeRuntime}.

(** The main process: the file system, and what the web answers to its
    requests, in call order (a status code with the body, or a failure of
    the transport). *)
Record Main := {
  disk : Disk;
  web : list ((Z * Buffer) + exn)
}.

(** A step of a handler: it returns or throws, and leaves a state. *)
Definition P (A : Type) : Type := Main -> (A + exn) * Main.

Definition retP {A} (a : A) : P A := fun m => (inl a, m).

Definition failP {A} (e : exn) : P A := fun m => (inr e, m).

Definition bindP {A B} (c : P A) (k : A -> P B) : P B :=
  fun m =>
    match c m with
    | (inl a, m') => k a m'
    | (inr e, m') => (inr e, m')
    end.

(** [try { ... } catch (error) { return false }]: what every image
    handler is wrapped in. *)
Definition attempt (c : P bool) : Main -> bool * Main :=
  fun m =>
    match c m with
    | (inl b, m') => (b, m')
    | (inr _, m') => (false, m')
    end.

(** An operation of [fs.promises] that changes the disk. *)
Definition fs (op : Disk -> (unit + exn) * Disk) : P unit :=
  fun m =>
    let '(r, d) := op (disk m) in
    (r, {| disk := d; web := web m |}).

Definition stat (path : jsstring) : P Stats :=
  fun m => (fs_stat path (disk m), m).

(** [https.get] or [http.get] wrapped in a promise: any status but 200
    rejects, as does a failure of the transport. *)
Definition http_get : P Buffer :=
  fun m =>
    match web m with
    | [] => (inr (JsError (lit "connect ECONNREFUSED")), m)
    | inr e :: rest => (inr e, {| disk := disk m; web := rest |})
    | inl (statusCode, data) :: rest =>
        (if (statusCode =? 200)%Z then inl data
         else inr (JsError (lit "HTTP error: " ++ Z_to_jsstring statusCode)),
         {| disk := disk m; web := rest |})
    end.

Definition ensureDirectory (dirPath : jsstring) : Main -> bool * Main :=
  attempt
    (bindP (fs (fs_mkdir_recursive dirPath)) (fun _ =>
     bindP (stat dirPath) (fun stats =>
     if negb (isDirectory stats) then retP false else retP true))).

Definition saveBase64Image (filePath base64Data : jsstring)
  : Main -> bool * Main :=
  attempt
    (let buffer := Buffer_from_base64 base64Data in
     let dirPath := path_dirname filePath in
     bindP (fs (fs_mkdir_recursive dirPath)) (fun _ =>
     bindP (fs (fs_writeFile filePath buffer)) (fun _ =>
     bindP (stat filePath) (fun stats =>
     if negb (isFile stats) then retP false else retP true)))).

Definition allowedDomains : list jsstring :=
  [ lit "openai.com"; lit "api.openai.com";
    lit "replicate.com"; lit "api.replicate.com";
    lit "stability.ai"; lit "api.stability.ai";
    lit "loremflickr.com"; lit "picsum.photos";
    lit "placehold.co"; lit "placehold.it";
    lit "blob.core.windows.net" ].

(** [allowedDomains.some(domain => hostname.includes(domain))] *)
Definition isAllowed (hostname : jsstring) : bool :=
  existsb (fun domain => includes hostname domain) allowedDomains.

(** The handler is given whatever the renderer passed as [url]: the
    constructor [URL] reads it as a string, and [url.startsWith] throws
    when it is none. *)
Definition downloadImage (url : jsval) (filePath : jsstring)
  : Main -> bool * Main :=
  attempt
    (match URL_hostname (ToString url) with
     | None => failP JsTypeError
     | Some hostname =>
         if negb (isAllowed hostname)
         then failP (JsError (lit "Downloads not allowed from " ++ hostname))
         else
           bindP (if is_string url then http_get else failP JsTypeError)
             (fun responseData =>
           let dirPath := path_dirname filePath in
           bindP (fs (fs_mkdir_recursive dirPath)) (fun _ =>
           bindP (fs (fs_writeFile filePath responseData)) (fun _ =>
           bindP (stat filePath) (fun stats =>
           if negb (isFile stats) then retP false else retP true))))
     end).

(** A value a handler resolves with, as the renderer's script of replies
    holds it: printed as a string. *)
Definition printed (b : bool) : jsstring :=
  if b then lit "true" else lit "false".

(** [ipcMain.handle]: the handler registered for each call. *)
Definition ipcMain_handle (c : IpcCall) (m : Main) : jsstring * Main :=
  match c with
  | GetAppDataDir => (userData, m)
  | EnsureDirectory dirPath =>
      let '(b, m') := ensureDirectory dirPath m in (printed b, m')
  | SaveBase64Image filePath base64Data =>
      let '(b, m') := saveBase64Image filePath base64Data m in (printed b, m')
  | DownloadImage url filePath =>
      let '(b, m') := downloadImage url filePath m in (printed b, m')
  end.

(** The calls of the renderer handled one after the other: what each is
    answered, and the state left. *)
Fixpoint serve (calls : list IpcCall) (m : Main) : list jsstring * Main :=
  match calls with
  | [] => ([], m)
  | c :: rest =>
      let '(reply, m1) := ipcMain_handle c m in
      let '(replies, m2) := serve rest m1 in
      (reply :: replies, m2)
  end.

End WithRuntime.

(** *** Notions used in the statements about the two processes *)

Section Statements.
Context {E : JsEngine} {N : NodeRuntime}.

(** The bridge of [w] answers first what the handlers of main.ts, run
    from [m], answer to [calls]. *)
Definition served_by (calls : list IpcCall) (m : Main) (w : World) : Prop :=
  exists more, bridge w = map inl (fst (serve calls m)) ++ more.

(** The download of [u] cannot succeed from [m]: [u] is no URL, or its
    host is on none of the allowed domains, or the web does not answer
    the request with status 200. *)
Definition download_fails (u : jsstring) (m : Main) : Prop :=
  match URL_hostname u with
  | None => True
  | Some hostname =>
      isAllowed hostname = false
      \/ match web m with
         | inl (statusCode, _) :: _ => statusCode <> 200%Z
         | _ => True
         end
  end.


End Statements.




(** A file system for the closed examples: the files written, every
    operation succeeding; host names are read off addresses of the form
    [scheme://host/path]. *)
Fixpoint until_slash (s : jsstring) : jsstring :=
  match s with
  | [] => []
  | c :: s' => if N.eqb c slash then [] else c :: until_slash s'
  end.

Definition sample_hostname (s : jsstring) : option jsstring :=
  if startsWith s (lit "https://") then Some (until_slash (skipn 8 s))
  else if startsWith s (lit "http://") then Some (until_slash (skipn 7 s))
  else None.

Definition sample_node : NodeRuntime :=
  {| Disk := list (jsstring * jsstring);
     Buffer := jsstring;
     fs_mkdir_recursive := fun _ d => (inl tt, d);
     fs_writeFile := fun path data d => (inl tt, (path, data) :: d);
     fs_stat := fun path d =>
       if existsb (fun entry => jseqb (fst entry) path) d
       then inl {| isFile := true; isDirectory := false |}
       else inl {| isFile := false; isDirectory := true |};
     path_dirname := fun p => p;
     Buffer_from_base64 := fun s => s;
     URL_hostname := sample_hostname;
     userData := lit "/home/user/.config/ImageBox" |}.

End MainProcess.
Export MainProcess.

(** [rq] is the request [generateWithGPT4o] makes to the images endpoint,
    with [p] as its prompt: the fields of [requestBody], the two headers,
    and the endpoint under the base address. *)
Definition images_request_with {E : JsEngine} (options : Options.t)
  (p : jsval) (rq : Request) : Prop :=
  url rq = baseApiUrl (Options.apiEndpoint options)
           ++ lit "/v1/images/generations"
  /\ method rq = lit "POST"
  /\ headers rq = [ (lit "Content-Type", lit "application/json");
                    authorization "Bearer" (Options.apiKey options) ]
  /\ exists fields,
       body rq = Some (JObj fields)
       /\ lookup (lit "model") fields = JStr (lit "dall-e-3")
       /\ lookup (lit "prompt") fields = p
       /\ lookup (lit "n") fields = JNum (of_Z 1)
       /\ lookup (lit "size") fields
          = JStr (ImageSize_str (Options.size options))
       /\ lookup (lit "quality") fields
          = JStr (or_str (Options.quality options) (lit "standard"))
       /\ lookup (lit "style") fields
          = JStr (or_str (Options.style options) (lit "vivid")).

(* ================================================================== *)
(** ** Numbers: rounding to binary64 keeps the order *)
(* ================================================================== *)

Lemma pow2_pos (e : Z) : 0 < pow2 e.
Proof. apply Qpower_0_lt. reflexivity. Qed.

Lemma pow2_add (a b : Z) : pow2 (a + b) == pow2 a * pow2 b.
Proof. apply Qpower_plus. discriminate. Qed.

Lemma pow2_le (a b : Z) : (a <= b)%Z -> pow2 a <= pow2 b.
Proof. intros H. apply Qpower_le_compat_l; [exact H | discriminate]. Qed.

Lemma pow2_lt (a b : Z) : (a < b)%Z -> pow2 a < pow2 b.
Proof. intros H. apply Qpower_lt_compat_l; [exact H | reflexivity]. Qed.

Lemma pow2_Z (k : Z) : (0 <= k)%Z -> pow2 k == inject_Z (2 ^ k).
Proof. intros H. unfold pow2. symmetry. apply (Zpower_Qpower 2 k H). Qed.

Lemma pow2_sub (a b : Z) : pow2 (a - b) == pow2 a / pow2 b.
Proof. apply Qpower_minus. discriminate. Qed.

(** [ilog2] names the binade. *)
Lemma ilog2_spec (q : Q) :
  0 < q -> pow2 (ilog2 q) <= q /\ q < pow2 (ilog2 q + 1).
Proof.
  intros Hq. destruct q as [n d].
  assert (Hn : (0 < n)%Z).
  { unfold Qlt in Hq. cbn in Hq. lia. }
  unfold ilog2. cbn [Qnum Qden].
  set (ln := Z.log2 n). set (ld := Z.log2 (Z.pos d)).
  destruct (Z.log2_spec n Hn) as [Hn1 Hn2].
  destruct (Z.log2_spec (Z.pos d) (Pos2Z.is_pos d)) as [Hd1 Hd2].
  fold ln in Hn1, Hn2. fold ld in Hd1, Hd2.
  assert (Hln : (0 <= ln)%Z) by apply Z.log2_nonneg.
  assert (Hld : (0 <= ld)%Z) by apply Z.log2_nonneg.
  assert (Hq' : n # d == inject_Z n / inject_Z (Z.pos d)) by apply Qmake_Qdiv.
  assert (Hdpos : 0 < inject_Z (Z.pos d)).
  { unfold Qlt. cbn. lia. }
  (* q < 2^(ln - ld + 1) and 2^(ln - ld - 1) < q *)
  assert (Hup : n # d < pow2 (ln - ld + 1)).
  { replace (ln - ld + 1)%Z with ((ln + 1) - ld)%Z by ring.
    rewrite pow2_sub, Hq', (pow2_Z (k := ln + 1)), (pow2_Z Hld) by lia.
    apply Qlt_shift_div_l.
    - rewrite <- (pow2_Z Hld). apply pow2_pos.
    - unfold Qdiv. rewrite <- Qmult_assoc, (Qmult_comm (/ _)), Qmult_assoc.
      apply Qlt_shift_div_r; [exact Hdpos|].
      rewrite <- !inject_Z_mult, <- Zlt_Qlt.
      replace (Z.succ ln) with (ln + 1)%Z in Hn2 by lia. nia. }
  assert (Hlow : pow2 (ln - ld - 1) < n # d).
  { replace (ln - ld - 1)%Z with (ln - (ld + 1))%Z by ring.
    rewrite pow2_sub, Hq', (pow2_Z Hln), (pow2_Z (k := ld + 1)) by lia.
    apply Qlt_shift_div_r.
    - rewrite <- (pow2_Z (k := ld + 1)) by lia. apply pow2_pos.
    - unfold Qdiv. rewrite <- Qmult_assoc, (Qmult_comm (/ _)), Qmult_assoc.
      apply Qlt_shift_div_l; [exact Hdpos|].
      rewrite <- !inject_Z_mult, <- Zlt_Qlt.
      replace (Z.succ ld) with (ld + 1)%Z in Hd2 by lia. nia. }
  destruct (Qle_bool (pow2 (ln - ld)) (n # d)) eqn:Hc.
  - apply Qle_bool_iff in Hc. split; assumption.
  - assert (Hlt : n # d < pow2 (ln - ld)).
    { apply Qnot_le_lt. intros H. apply Qle_bool_iff in H. congruence. }
    replace (ln - ld - 1 + 1)%Z with (ln - ld)%Z by ring.
    split; [apply Qlt_le_weak; exact Hlow | exact Hlt].
Qed.

Lemma ilog2_mono (x y : Q) : 0 < x -> x <= y -> (ilog2 x <= ilog2 y)%Z.
Proof.
  intros Hx Hxy.
  assert (Hy : 0 < y) by (eapply Qlt_le_trans; eassumption).
  destruct (ilog2_spec Hx) as [Hx1 _]. destruct (ilog2_spec Hy) as [_ Hy2].
  destruct (Z.le_gt_cases (ilog2 x) (ilog2 y)) as [H|H]; [exact H|].
  exfalso.
  assert (Hp : pow2 (ilog2 y + 1) <= pow2 (ilog2 x)) by (apply pow2_le; lia).
  apply (Qlt_irrefl y).
  eapply Qlt_le_trans; [exact Hy2|].
  eapply Qle_trans; [exact Hp|]. eapply Qle_trans; eassumption.
Qed.

Lemma round_half_even_bounds (m : Q) :
  (Qfloor m <= round_half_even m <= Qfloor m + 1)%Z.
Proof.
  unfold round_half_even.
  destruct (Qcompare _ _); [destruct (Z.even _)| |]; lia.
Qed.

Lemma round_half_even_Z (n : Z) : round_half_even (inject_Z n) = n.
Proof.
  unfold round_half_even. rewrite Qfloor_Z.
  assert (H : inject_Z n - inject_Z n == 0) by ring.
  assert (Hc : Qcompare (inject_Z n - inject_Z n) (1 # 2) = Lt).
  { rewrite H. reflexivity. }
  rewrite Hc. reflexivity.
Qed.

Lemma round_half_even_mono (a b : Q) :
  a <= b -> (round_half_even a <= round_half_even b)%Z.
Proof.
  intros Hab.
  pose proof (Qfloor_resp_le _ _ Hab) as Hf.
  pose proof (round_half_even_bounds a) as Ha.
  pose proof (round_half_even_bounds b) as Hb.
  destruct (Z.eq_dec (Qfloor a) (Qfloor b)) as [Heq|Hne]; [|lia].
  unfold round_half_even. rewrite <- Heq.
  destruct (Qcompare (a - inject_Z (Qfloor a)) (1 # 2)) eqn:Ca;
    destruct (Qcompare (b - inject_Z (Qfloor a)) (1 # 2)) eqn:Cb;
    try (destruct (Z.even (Qfloor a))); try lia; exfalso;
    repeat match goal with
           | H : Qcompare _ _ = Eq |- _ => apply Qeq_alt in H
           | H : Qcompare _ _ = Lt |- _ => apply Qlt_alt in H
           | H : Qcompare _ _ = Gt |- _ => apply Qgt_alt in H
           end; lra.
Qed.

Lemma ulp_exponent_mono (x y : Q) :
  0 < x -> x <= y -> (ulp_exponent x <= ulp_exponent y)%Z.
Proof.
  intros Hx Hxy. unfold ulp_exponent.
  pose proof (ilog2_mono Hx Hxy). lia.
Qed.

(** Dividing by the unit and multiplying back. *)
Lemma scaled_le (x : Q) (e : Z) (k : Z) :
  x <= inject_Z k * pow2 e -> x / pow2 e <= inject_Z k.
Proof.
  intros H. apply Qle_shift_div_r; [apply pow2_pos | exact H].
Qed.

Lemma le_scaled (x : Q) (e : Z) (k : Z) :
  inject_Z k * pow2 e <= x -> inject_Z k <= x / pow2 e.
Proof.
  intros H. apply Qle_shift_div_l; [apply pow2_pos | exact H].
Qed.

Lemma nearest_nonneg (x : Q) : 0 < x -> 0 <= nearest x.
Proof.
  intros Hx. unfold nearest.
  apply Qmult_le_0_compat; [|apply Qlt_le_weak, pow2_pos].
  assert (H0 : (round_half_even 0 <= round_half_even (x / pow2 (ulp_exponent x)))%Z).
  { apply round_half_even_mono. apply Qle_shift_div_l; [apply pow2_pos|].
    rewrite Qmult_0_l. apply Qlt_le_weak, Hx. }
  change 0 with (inject_Z 0) in H0 at 1. rewrite round_half_even_Z in H0.
  change (inject_Z 0 <= inject_Z (round_half_even (x / pow2 (ulp_exponent x)))).
  rewrite <- Zle_Qle. exact H0.
Qed.

Lemma nearest_mono (x y : Q) : 0 < x -> x <= y -> nearest x <= nearest y.
Proof.
  intros Hx Hxy.
  assert (Hy : 0 < y) by (eapply Qlt_le_trans; eassumption).
  pose proof (ulp_exponent_mono Hx Hxy) as He.
  unfold nearest.
  set (ex := ulp_exponent x) in *. set (ey := ulp_exponent y) in *.
  destruct (Z.eq_dec ex ey) as [Heq|Hne].
  - rewrite <- Heq. apply Qmult_le_compat_r; [|apply Qlt_le_weak, pow2_pos].
    rewrite <- Zle_Qle. apply round_half_even_mono.
    apply Qmult_le_compat_r; [exact Hxy|].
    apply Qlt_le_weak, Qinv_lt_0_compat, pow2_pos.
  - assert (Hlt : (ex < ey)%Z) by lia.
    (* x is below 2^(ex+53), y at least 2^(ey+52) *)
    destruct (ilog2_spec Hx) as [_ Hx2]. destruct (ilog2_spec Hy) as [Hy1 _].
    assert (Hey : ey = (ilog2 y - 52)%Z).
    { unfold ey, ulp_exponent in *. unfold ex, ulp_exponent in Hlt. lia. }
    assert (Hex : (ilog2 x + 1 <= ex + 53)%Z).
    { unfold ex, ulp_exponent. lia. }
    assert (Hxm : (round_half_even (x / pow2 ex) <= 2 ^ 53)%Z).
    { rewrite <- (round_half_even_Z (2 ^ 53)).
      apply round_half_even_mono, scaled_le.
      rewrite <- (pow2_Z (k := 53)) by lia. rewrite <- pow2_add.
      apply Qlt_le_weak. eapply Qlt_le_trans; [exact Hx2|].
      apply pow2_le. lia. }
    assert (Hym : (2 ^ 52 <= round_half_even (y / pow2 ey))%Z).
    { rewrite <- (round_half_even_Z (2 ^ 52)) at 1.
      apply round_half_even_mono, le_scaled.
      rewrite <- (pow2_Z (k := 52)) by lia. rewrite <- pow2_add.
      eapply Qle_trans; [|exact Hy1]. apply pow2_le. lia. }
    apply Qle_trans with (inject_Z (2 ^ 53) * pow2 ex).
    { apply Qmult_le_compat_r; [|apply Qlt_le_weak, pow2_pos].
      rewrite <- Zle_Qle. exact Hxm. }
    apply Qle_trans with (inject_Z (2 ^ 52) * pow2 ey).
    { rewrite <- !pow2_Z by lia. rewrite <- !pow2_add. apply pow2_le. lia. }
    apply Qmult_le_compat_r; [|apply Qlt_le_weak, pow2_pos].
    rewrite <- Zle_Qle. exact Hym.
Qed.

Lemma Qle_bool_false (a b : Q) : Qle_bool a b = false -> b < a.
Proof.
  intros H. apply Qnot_le_lt. intros Hle. apply Qle_bool_iff in Hle. congruence.
Qed.

Lemma Qnum_sign (q : Q) :
  match Qnum q with
  | Z0 => q == 0
  | Zpos _ => 0 < q
  | Zneg _ => q < 0
  end.
Proof.
  destruct q as [[|p|p] d]; unfold Qeq, Qlt; cbn; lia.
Qed.

(** Rounding never gives [NaN]... *)
Lemma round64_number (q : Q) : round64 q <> NaN.
Proof.
  unfold round64. destruct (Qnum q); [discriminate| |];
    destruct (Qle_bool _ _); discriminate.
Qed.

(** ... and keeps the order. *)
Theorem round64_mono (x y : Q) : x <= y -> leb (round64 x) (round64 y) = true.
Proof.
  intros Hxy. unfold round64.
  pose proof (Qnum_sign x) as Sx. pose proof (Qnum_sign y) as Sy.
  destruct (Qnum x) eqn:Ex; destruct (Qnum y) eqn:Ey;
    try (exfalso; lra).
  - reflexivity.
  - destruct (Qle_bool (pow2 1024) (nearest y)); [reflexivity|].
    unfold leb. apply Qle_bool_iff. rewrite Qred_correct. apply nearest_nonneg, Sy.
  - pose proof (nearest_mono Sx Hxy) as Hn.
    destruct (Qle_bool (pow2 1024) (nearest x)) eqn:Ox.
    + apply Qle_bool_iff in Ox.
      assert (Oy : Qle_bool (pow2 1024) (nearest y) = true).
      { apply Qle_bool_iff. eapply Qle_trans; eassumption. }
      rewrite Oy. reflexivity.
    + destruct (Qle_bool (pow2 1024) (nearest y)); [reflexivity|].
      unfold leb. apply Qle_bool_iff. rewrite !Qred_correct. exact Hn.
  - destruct (Qle_bool (pow2 1024) (nearest (- x))); [reflexivity|].
    unfold leb. apply Qle_bool_iff. rewrite Qred_correct.
    assert (H : 0 <= nearest (- x)) by (apply nearest_nonneg; lra). lra.
  - assert (Hx : 0 <= nearest (- x)) by (apply nearest_nonneg; lra).
    assert (Hy : 0 <= nearest y) by (apply nearest_nonneg; lra).
    destruct (Qle_bool (pow2 1024) (nearest (- x)));
      destruct (Qle_bool (pow2 1024) (nearest y)); try reflexivity.
    unfold leb. apply Qle_bool_iff. rewrite !Qred_correct. lra.
  - assert (Hn : nearest (- y) <= nearest (- x)) by (apply nearest_mono; lra).
    destruct (Qle_bool (pow2 1024) (nearest (- x))) eqn:Ox;
      [destruct (Qle_bool (pow2 1024) (nearest (- y))); reflexivity|].
    destruct (Qle_bool (pow2 1024) (nearest (- y))) eqn:Oy.
    + apply Qle_bool_iff in Oy. apply Qle_bool_false in Ox. exfalso. lra.
    + unfold leb. apply Qle_bool_iff. rewrite !Qred_correct. lra.
Qed.

(* ================================================================== *)
(** ** Numbers: order, clamping, percentages *)
(* ================================================================== *)

Ltac qle_cases :=
  repeat match goal with
    | |- context [Qle_bool ?a ?b] =>
        let H := fresh "Hq" in
        destruct (Qle_bool a b) eqn:H;
        [ apply Qle_bool_iff in H
        | apply not_true_iff_false in H; rewrite Qle_bool_iff in H;
          apply Qnot_le_lt in H ]
    end.

Lemma leb_Fin (a b : Q) : leb (Fin a) (Fin b) = true <-> a <= b.
Proof. simpl. apply Qle_bool_iff. Qed.

Lemma leb_is_number_refl (a : jsnum) : is_number a = true -> leb a a = true.
Proof.
  destruct a; simpl; try reflexivity; try discriminate.
  intros _. apply Qle_bool_iff. apply Qle_refl.
Qed.

Lemma leb_trans (a b c : jsnum) :
  leb a b = true -> leb b c = true -> leb a c = true.
Proof.
  destruct a, b, c; simpl; try reflexivity; try discriminate.
  rewrite !Qle_bool_iff. apply Qle_trans.
Qed.

Lemma leb_total (a b : jsnum) :
  is_number a = true -> is_number b = true -> leb a b = false -> leb b a = true.
Proof.
  destruct a, b; simpl; try reflexivity; try discriminate.
  intros _ _ H. apply Qle_bool_iff.
  apply not_true_iff_false in H. rewrite Qle_bool_iff in H.
  apply Qlt_le_weak. now apply Qnot_le_lt.
Qed.

Lemma leb_numbers (a b : jsnum) :
  leb a b = true -> is_number a = true /\ is_number b = true.
Proof. destruct a, b; simpl; try discriminate; now split. Qed.

Lemma Math_min_spec (a b : jsnum) :
  is_number a = true -> is_number b = true ->
  is_number (Math_min a b) = true
  /\ leb (Math_min a b) a = true /\ leb (Math_min a b) b = true.
Proof.
  intros Ha Hb.
  assert (Hm : Math_min a b = if leb a b then a else b)
    by (destruct a, b; try discriminate; reflexivity).
  rewrite Hm. destruct (leb a b) eqn:Hab.
  - repeat split; [assumption | now apply leb_is_number_refl | assumption].
  - repeat split; [assumption | now apply leb_total
                  | now apply leb_is_number_refl].
Qed.

Lemma Math_max_spec (a b : jsnum) :
  is_number a = true -> is_number b = true ->
  is_number (Math_max a b) = true
  /\ leb a (Math_max a b) = true /\ leb b (Math_max a b) = true.
Proof.
  intros Ha Hb.
  assert (Hm : Math_max a b = if leb a b then b else a)
    by (destruct a, b; try discriminate; reflexivity).
  rewrite Hm. destruct (leb a b) eqn:Hab.
  - repeat split; [assumption | assumption | now apply leb_is_number_refl].
  - repeat split; [assumption | now apply leb_is_number_refl
                  | now apply leb_total].
Qed.

(** *** Rounded results *)

Lemma round64_is_number (q : Q) : is_number (round64 q) = true.
Proof.
  pose proof (round64_number q) as H. now destruct (round64 q).
Qed.

(** The thresholds of the grid are finite numbers. *)
Lemma grid_thresholds :
  num 0 = Fin 0 /\ num 1 = Fin 1
  /\ num (33 # 100) = Fin (5944751508129055 # 18014398509481984)
  /\ num (66 # 100) = Fin (5944751508129055 # 9007199254740992).
Proof. vm_compute. repeat split. Qed.

(** Between two binary64 numbers the rounded value is finite and stays
    between them. *)
Lemma round64_between (a b a' b' q : Q) :
  round64 a = Fin a' -> round64 b = Fin b' -> a <= q <= b ->
  exists r, round64 q = Fin r /\ a' <= r <= b'.
Proof.
  intros Ha Hb [H1 H2].
  pose proof (round64_mono H1) as M1. pose proof (round64_mono H2) as M2.
  rewrite Ha in M1. rewrite Hb in M2.
  destruct (round64 q) as [| | |r]; try discriminate.
  exists r. split; [reflexivity|]. now rewrite <- !leb_Fin.
Qed.

Lemma sign_neg_positive (w : Q) : 0 < w -> sign_neg w = false.
Proof.
  intros Hw. unfold sign_neg, Qltb. apply negb_false_iff, Qle_bool_iff.
  now apply Qlt_le_weak.
Qed.

Lemma div_positive (a w : Q) : 0 < w -> div (Fin a) (Fin w) = round64 (a / w).
Proof.
  intros Hw. unfold div.
  destruct (Qeq_bool w 0) eqn:Hz; [|reflexivity].
  apply Qeq_bool_iff in Hz. rewrite Hz in Hw. inversion Hw.
Qed.

(** Division by a positive width keeps the order. *)
Lemma div_positive_mono (a b : jsnum) (w : Q) :
  0 < w -> is_number a = true -> is_number b = true ->
  leb a b = true -> leb (div a (Fin w)) (div b (Fin w)) = true.
Proof.
  intros Hw Ha Hb Hab.
  pose proof (sign_neg_positive Hw) as Hneg.
  destruct a as [| | |x], b as [| | |y]; try discriminate;
    rewrite ?(div_positive _ Hw);
    cbn [div]; rewrite ?Hneg; try reflexivity; try discriminate Hab.
  - pose proof (round64_is_number (y / w)) as N.
    now destruct (round64 (y / w)).
  - pose proof (round64_is_number (x / w)) as N.
    now destruct (round64 (x / w)).
  - apply round64_mono. apply Qle_bool_iff in Hab.
    apply Qmult_le_compat_r; [exact Hab|].
    apply Qlt_le_weak, Qinv_lt_0_compat, Hw.
Qed.

Lemma div_positive_number (a : jsnum) (w : Q) :
  0 < w -> is_number a = true -> is_number (div a (Fin w)) = true.
Proof.
  intros Hw Ha. pose proof (sign_neg_positive Hw) as Hneg.
  destruct a as [| | |x]; try discriminate.
  - cbn [div]. now rewrite Hneg.
  - cbn [div]. now rewrite Hneg.
  - rewrite (div_positive _ Hw). apply round64_is_number.
Qed.

Lemma add_number (x y : Q) : is_number (add (Fin x) (Fin y)) = true.
Proof. apply round64_is_number. Qed.

(** A binary64 number is below the rounding of anything above it. *)
Lemma double_le_round64 (x z : Q) :
  double x -> x <= z -> leb (Fin x) (round64 z) = true.
Proof.
  intros Hx Hxz. pose proof (round64_mono Hxz) as M. rewrite Hx in M.
  destruct (round64 z) as [| | |r]; try discriminate; [reflexivity|].
  apply leb_Fin. apply leb_Fin in M. now rewrite Qred_correct in M.
Qed.

(** *** Clamping into the unit interval *)

Lemma clamp01_Fin (q : Q) : clamp01 (Fin q) = Fin (Qclamp q).
Proof.
  unfold clamp01, Qclamp, Math_max, Math_min, of_Z, leb. simpl inject_Z.
  change (inject_Z 1) with 1. change (inject_Z 0) with 0.
  destruct (Qle_bool 1 q) eqn:H1.
  - reflexivity.
  - destruct (Qle_bool 0 q); reflexivity.
Qed.

(** The clamp of the source does what [unit_clamp] says. *)
Lemma clamp01_unit_clamp (v : jsnum) : clamp01 v = unit_clamp v.
Proof. destruct v; [reflexivity..|apply clamp01_Fin]. Qed.

Lemma Qclamp_unit (q : Q) : 0 <= Qclamp q <= 1.
Proof. unfold Qclamp. qle_cases; lra. Qed.

Lemma Qclamp_mono (a b : Q) : a <= b -> Qclamp a <= Qclamp b.
Proof. unfold Qclamp. intros Hab. qle_cases; lra. Qed.

Lemma Qclamp_inside (q : Q) : 0 <= q <= 1 -> Qclamp q == q.
Proof. unfold Qclamp. intros [H0 H1]. qle_cases; lra. Qed.

Lemma clamp01_in_unit (q : Q) : in_unit (clamp01 (Fin q)).
Proof.
  rewrite clamp01_Fin. unfold in_unit, of_Z.
  change (inject_Z 1) with 1. change (inject_Z 0) with 0.
  rewrite !leb_Fin. apply Qclamp_unit.
Qed.

Lemma clamp01_number (v : jsnum) :
  is_number v = true -> exists c, clamp01 v = Fin c /\ 0 <= c <= 1.
Proof.
  destruct v as [| | |q]; try discriminate; intros _.
  - exists 1. split; [reflexivity | lra].
  - exists 0. split; [reflexivity | lra].
  - exists (Qclamp q). split; [apply clamp01_Fin | apply Qclamp_unit].
Qed.

Lemma unit_clamp_number (v : jsnum) :
  is_number v = true -> exists c, unit_clamp v = Fin c /\ 0 <= c <= 1.
Proof. rewrite <- clamp01_unit_clamp. apply clamp01_number. Qed.

Lemma unit_clamp_mono (a b : jsnum) :
  leb a b = true -> leb (unit_clamp a) (unit_clamp b) = true.
Proof.
  destruct a as [| | |x], b as [| | |y]; try discriminate; intros H;
    cbn [unit_clamp]; apply leb_Fin;
    try (apply Qclamp_mono; now apply leb_Fin);
    repeat match goal with
      | |- context [Qclamp ?q] =>
          let B := fresh "B" in
          pose proof (Qclamp_unit q) as B; generalize dependent (Qclamp q); intros
      end; lra.
Qed.

(** *** Percentages *)

Lemma Number_toString_integer {E : JsEngine} (z : Z) :
  (Z.abs z < 10 ^ 21)%Z ->
  Number_toString (Fin (inject_Z z)) = Z_to_jsstring z.
Proof.
  intros Hz. unfold Number_toString, is_integer.
  rewrite Qfloor_Z.
  assert (H1 : Qeq_bool (inject_Z z) (inject_Z z) = true)
    by (apply Qeq_bool_iff; reflexivity).
  assert (H2 : (Z.abs z <? 10 ^ 21)%Z = true) by now apply Z.ltb_lt.
  now rewrite H1, H2.
Qed.

(** A value between -1 and 1 has a percentage between -100 and 100, and
    one between 0 and 1 a percentage from 0 to 100. *)
Lemma percent_of_fraction (c : Q) :
  -1 <= c <= 1 ->
  exists n, rounds_to_percent (Fin c) n
            /\ (-100 <= n <= 100)%Z /\ (0 <= c -> (0 <= n)%Z).
Proof.
  intros [H0 H1]. unfold rounds_to_percent, of_Z. cbn [mul].
  assert (Hb : -100 <= c * inject_Z 100 <= 100).
  { change (inject_Z 100) with 100. lra. }
  destruct (@round64_between (-100) 100 (-100) 100 _ eq_refl eq_refl Hb)
    as [m [Hm [M0 M1]]].
  rewrite Hm. cbn [Math_round]. exists (Qfloor (m + (1 # 2))).
  split; [reflexivity|]. split; [split|].
  - assert (Hle : inject_Z (-100) <= m + (1 # 2)).
    { change (inject_Z (-100)) with (-100). lra. }
    apply Qfloor_resp_le in Hle. now rewrite Qfloor_Z in Hle.
  - assert (Hle : m + (1 # 2) <= 100 + (1 # 2)) by lra.
    apply Qfloor_resp_le in Hle. exact Hle.
  - intros Hc.
    assert (Hb0 : 0 <= c * inject_Z 100 <= 100).
    { change (inject_Z 100) with 100. lra. }
    destruct (@round64_between 0 100 0 100 _ eq_refl eq_refl Hb0)
      as [m' [Hm' [M0' _]]].
    rewrite Hm in Hm'. injection Hm' as <-.
    assert (Hle : inject_Z 0 <= m + (1 # 2)).
    { change (inject_Z 0) with 0. lra. }
    apply Qfloor_resp_le in Hle. now rewrite Qfloor_Z in Hle.
Qed.

Lemma rounds_to_percent_mono (a b : Q) (m n : Z) :
  a <= b -> rounds_to_percent (Fin a) m -> rounds_to_percent (Fin b) n ->
  (m <= n)%Z.
Proof.
  unfold rounds_to_percent, of_Z. cbn [mul]. intros Hab Hm Hn.
  assert (Hle : a * inject_Z 100 <= b * inject_Z 100).
  { change (inject_Z 100) with 100. lra. }
  pose proof (round64_mono Hle) as M.
  destruct (round64 (a * inject_Z 100)) as [| | |x]; try discriminate;
    destruct (round64 (b * inject_Z 100)) as [| | |y]; try discriminate.
  assert (Em : Qfloor (x + (1 # 2)) = m).
  { unfold Math_round, inject_Z in Hm. congruence. }
  assert (En : Qfloor (y + (1 # 2)) = n).
  { unfold Math_round, inject_Z in Hn. congruence. }
  apply leb_Fin in M. rewrite <- Em, <- En.
  apply Qfloor_resp_le. lra.
Qed.

Lemma rounds_to_percent_text {E : JsEngine} (v : jsnum) (n : Z) :
  rounds_to_percent v n -> (-100 <= n <= 100)%Z ->
  getPercentagePosition v = percent n.
Proof.
  unfold rounds_to_percent, getPercentagePosition, percent, of_Z.
  intros -> Hn. rewrite Number_toString_integer; [reflexivity|].
  apply Z.abs_lt. split; [apply Z.lt_le_trans with (-100)%Z|
                            apply Z.le_lt_trans with 100%Z]; lia.
Qed.

(* ================================================================== *)
(** ** Strings: basic facts *)
(* ================================================================== *)

Lemma startsWith_app (p s : jsstring) : startsWith (p ++ s) p = true.
Proof.
  induction p as [|c p IH]; simpl.
  - now destruct s.
  - now rewrite N.eqb_refl, IH.
Qed.

Lemma is_url_file (s : jsstring) : is_url (lit "file://" ++ s) = true.
Proof.
  unfold is_url.
  rewrite (startsWith_app (lit "file://") s).
  now rewrite !orb_true_r.
Qed.

Lemma getFileUrl_fixed (p : jsstring) : is_url p = true -> getFileUrl p = p.
Proof.
  unfold is_url, getFileUrl. now intros ->.
Qed.

Lemma getFileUrl_file (p : jsstring) :
  is_url p = false -> exists s, getFileUrl p = lit "file://" ++ s.
Proof.
  unfold is_url, getFileUrl. intros ->.
  match goal with
  | |- context [encode_segments ?n ?i ?l ?acc] =>
      destruct (encode_segments n i l acc) as [encodedPath|]
  end.
  - now exists encodedPath.
  - exists (slash :: backslashes_to_slashes p). reflexivity.
Qed.

(** C10.  [getFileUrl] returns a string that already begins with
    [http://], [https://] or [file://] unchanged, returns a string
    beginning with [file://] for every other input, and is idempotent. *)
Theorem getFileUrl_idempotent (p : jsstring) :
  (if is_url p then getFileUrl p = p
   else startsWith (getFileUrl p) (lit "file://") = true)
  /\ getFileUrl (getFileUrl p) = getFileUrl p.
Proof.
  destruct (is_url p) eqn:Hp.
  - split.
    + now apply getFileUrl_fixed.
    + now rewrite !(getFileUrl_fixed p Hp).
  - destruct (getFileUrl_file p Hp) as [s Hs]. split.
    + rewrite Hs. apply startsWith_app.
    + rewrite Hs. apply getFileUrl_fixed, is_url_file.
Qed.

(* ================================================================== *)
(** ** Region describer *)
(* ================================================================== *)

(** C6, as stated, fails: the centroid (0.33, 0.33) lies on the boundary
    shared by four cells, [center] among them, and the label is
    [top-left].  (In binary64 the centroid of a region whose four bounds
    are the literal 0.33 is that same number, so the comparisons agree.) *)
Lemma getGridSection_tie_not_center :
  let r := mkRegion (33 # 100) (33 # 100) (33 # 100) (33 # 100) in
  cells_containing r
  = [lit "top-left"; lit "top-center"; lit "middle-left"; lit "center"]
  /\ getGridSection r = lit "top-left"
  /\ getGridSection r <> lit "center".
Proof.
  vm_compute. repeat split. discriminate.
Qed.

Ltac abstract_comparisons v :=
  generalize (leb (num 0) v), (leb v (num (33 # 100))),
    (leb (num (33 # 100)) v), (leb v (num (66 # 100))),
    (leb (num (66 # 100)) v), (leb v (num 1)).

(** The search through the grid picks the first band of each axis. *)
Lemma find_section_bands (centerX centerY : jsnum) :
  match find (fun entry => in_section centerX centerY (snd entry)) GRID_SECTIONS with
  | Some (sectionName, _) => sectionName
  | None => lit "center"
  end =
  match band centerY, band centerX with
  | Some row, Some col => cell_name row col
  | _, _ => lit "center"
  end.
Proof.
  cbv beta iota delta
    [find GRID_SECTIONS in_section mkRegion x1 x2 y1 y2 snd fst geb band].
  abstract_comparisons centerX.
  intros a0 a1 a2 a3 a4 a5.
  destruct a0, a1, a2, a3, a4, a5; cbv beta iota delta [andb];
    abstract_comparisons centerY;
    intros [] [] [] [] [] []; reflexivity.
Qed.

(** C6, amended.  The label is the name of the first cell, in the order
    the grid is declared (row by row, left to right), whose closed
    rectangle holds the centroid: its row is the first band holding the
    centroid's y, its column the first band holding its x, so a centroid on
    a shared boundary gets the upper or left cell.  [center] is also the
    label when no cell holds the centroid. *)
Theorem getGridSection_first_cell (r : Region) :
  getGridSection r =
  match band (snd (centroid r)), band (fst (centroid r)) with
  | Some row, Some col => cell_name row col
  | _, _ => lit "center"
  end.
Proof.
  unfold getGridSection.
  destruct (centroid r) as [centerX centerY]. simpl fst; simpl snd.
  apply find_section_bands.
Qed.

(* ================================================================== *)
(** ** Coordinate normaliser *)
(* ================================================================== *)

Lemma describeRegion_opening {E : JsEngine} (ty : AnnotationType) (r : Region) :
  exists rest,
    describeRegion ty r
    = lit "in the " ++ getGridSection (clampRegion r) ++ lit " of the image "
      ++ rest.
Proof.
  unfold describeRegion. destruct ty; rewrite <- !app_assoc;
    eexists; reflexivity.
Qed.

(** A value of the unit interval lies in one of the three bands. *)
Lemma band_of_unit (c : Q) : 0 <= c <= 1 -> exists k, band (Fin c) = Some k.
Proof.
  intros [H0 H1]. unfold band, geb.
  destruct grid_thresholds as [-> [-> [-> ->]]].
  cbn [leb].
  qle_cases; cbn [andb]; try (eexists; reflexivity); exfalso; lra.
Qed.

(** The midpoint of two values of the unit interval is one. *)
Lemma midpoint_unit (a b : Q) :
  0 <= a <= 1 -> 0 <= b <= 1 ->
  exists m, midpoint (Fin a) (Fin b) = Fin m /\ 0 <= m <= 1.
Proof.
  intros Ha Hb. unfold midpoint, of_Z. cbn [add].
  assert (Hs : 0 <= a + b <= 2) by lra.
  destruct (@round64_between 0 2 0 2 _ eq_refl eq_refl Hs) as [s [Es [S0 S1]]].
  rewrite Es. rewrite div_positive by reflexivity.
  apply (@round64_between 0 1 0 1 _ eq_refl eq_refl).
  change (inject_Z 2) with 2. split.
  - apply Qle_shift_div_l; [reflexivity | lra].
  - apply Qle_shift_div_r; [reflexivity | lra].
Qed.

Lemma sub_unit (a b : Q) :
  0 <= a <= 1 -> 0 <= b <= 1 ->
  exists d, sub (Fin b) (Fin a) = Fin d /\ -1 <= d <= 1 /\ (a <= b -> 0 <= d).
Proof.
  intros Ha Hb. unfold sub. cbn [neg add].
  assert (Hs : -1 <= b + Qred (- a) <= 1) by (rewrite Qred_correct; lra).
  destruct (@round64_between (-1) 1 (-1) 1 _ eq_refl eq_refl Hs)
    as [d [Ed [D0 D1]]].
  exists d. split; [exact Ed|]. split; [now split|].
  intros Hab.
  assert (Hs0 : 0 <= b + Qred (- a) <= 1) by (rewrite Qred_correct; lra).
  destruct (@round64_between 0 1 0 1 _ eq_refl eq_refl Hs0) as [d' [Ed' [D0' _]]].
  rewrite Ed in Ed'. now injection Ed' as <-.
Qed.

(** What [describeRegion] prints, for a region whose bounds are
    numbers. *)
Lemma describeRegion_describes {E : JsEngine} (ty : AnnotationType)
  (r : Region) :
  numeric r = true -> describes ty (clamped_copy r) (describeRegion ty r).
Proof.
  unfold numeric. rewrite !andb_true_iff. intros [[[Na Nb] Nc] Nd].
  destruct (unit_clamp_number _ Na) as [a [Ea Ba]].
  destruct (unit_clamp_number _ Nb) as [b [Eb Bb]].
  destruct (unit_clamp_number _ Nc) as [c [Ec Bc]].
  destruct (unit_clamp_number _ Nd) as [d [Ed Bd]].
  unfold describes, clamped_copy. cbn [x1 y1 x2 y2].
  rewrite Ea, Eb, Ec, Ed.
  destruct (midpoint_unit Ba Bc) as [mx [Emx Bmx]].
  destruct (midpoint_unit Bb Bd) as [my [Emy Bmy]].
  destruct (band_of_unit Bmx) as [col Hcol].
  destruct (band_of_unit Bmy) as [row Hrow].
  assert (Wa : -1 <= a <= 1) by lra. assert (Wb : -1 <= b <= 1) by lra.
  assert (Wc : -1 <= c <= 1) by lra. assert (Wd : -1 <= d <= 1) by lra.
  destruct (percent_of_fraction Wa) as [l [Pl [Rl Sl]]].
  destruct (percent_of_fraction Wb) as [t [Pt [Rt St]]].
  destruct (percent_of_fraction Wc) as [rt [Pr [Rr Sr]]].
  destruct (percent_of_fraction Wd) as [bt [Pb [Rb Sb]]].
  destruct (sub_unit Ba Bc) as [dx [Edx [Bdx Sdx]]].
  destruct (sub_unit Bb Bd) as [dy [Edy [Bdy Sdy]]].
  destruct (percent_of_fraction Bdx) as [wd [Pw [Rw Sw]]].
  destruct (percent_of_fraction Bdy) as [ht [Ph [Rh Sh]]].
  exists row, col, l, t, rt, bt, wd, ht.
  rewrite Emx, Emy, Edx, Edy.
  specialize (Sl (proj1 Ba)). specialize (St (proj1 Bb)).
  specialize (Sr (proj1 Bc)). specialize (Sb (proj1 Bd)).
  repeat (split; [first [assumption | lia]|]).
  split; [intros Hle; apply leb_Fin in Hle; auto|].
  split; [intros Hle; apply leb_Fin in Hle; auto|].
  unfold describeRegion, clampRegion. cbn [x1 y1 x2 y2].
  rewrite !clamp01_unit_clamp, Ea, Eb, Ec, Ed, Edx, Edy.
  rewrite (rounds_to_percent_text Pl), (rounds_to_percent_text Pt),
    (rounds_to_percent_text Pr), (rounds_to_percent_text Pb),
    (rounds_to_percent_text Pw), (rounds_to_percent_text Ph) by lia.
  assert (Hcell : getGridSection
                    {| x1 := Fin a; y1 := Fin b; x2 := Fin c; y2 := Fin d |}
                  = cell_name row col).
  { unfold getGridSection, centroid. cbn [x1 y1 x2 y2].
    fold (midpoint (Fin a) (Fin c)). fold (midpoint (Fin b) (Fin d)).
    rewrite Emx, Emy, find_section_bands, Hrow, Hcol. reflexivity. }
  rewrite Hcell. unfold region_phrase.
  destruct ty; rewrite <- ?app_assoc; reflexivity.
Qed.

(** C5, as stated, fails on both counts: a corner dragged past the right
    edge leaves a stored bound above 1 (2000 / 1024, exact in binary64),
    and on a 1x1 image the phrase is empty and no region is stored. *)
Lemma generateSpatialDescription_unclamped_or_empty :
  (let '(phrase, a) :=
     generateSpatialDescription (E := sample_engine)
       (rectangle_annotation 2000 0 10 10) (of_Z 1024) (of_Z 1024) in
   normalizedCoordinates a
   = Some (mkRegion (125 # 64) 0 (1005 # 512) (5 # 512))
   /\ leb (Fin (125 # 64)) (of_Z 1) = false)
  /\
  (let '(phrase, a) :=
     generateSpatialDescription (E := sample_engine)
       (rectangle_annotation 0 0 1 1) (of_Z 1) (of_Z 1) in
   phrase = [] /\ normalizedCoordinates a = None).
Proof.
  vm_compute. repeat split.
Qed.

(** C5, amended.  For a rectangle [x, y, width, height] of finite numbers
    without a stored region and positive image dimensions other than 1x1,
    normalizing and then describing stores on the annotation the region
    [x / W, y / H, (x + width) / W, (y + height) / H], not clamped, and
    returns a phrase that is never empty and describes the clamped copy of
    that region: the cell of its midpoint, its four bounds as whole
    percentages from 0 to 100, the differences of its bounds as whole
    percentages from -100 to 100.  The clamped bounds lie in [0, 1], with
    x1 <= x2 when the width is not negative and y1 <= y2 when the height
    is not.  On a 1x1 image the phrase is empty and nothing is stored. *)
Theorem rectangle_normalize_then_describe
  {E : JsEngine} (ann : Annotation) (x y width height W H : Q) :
  a_type ann = rectangle ->
  coordinates ann = [Fin x; Fin y; Fin width; Fin height] ->
  normalizedCoordinates ann = None ->
  0 < W -> 0 < H ->
  let stored := {| x1 := div (Fin x) (Fin W);
                   y1 := div (Fin y) (Fin H);
                   x2 := div (add (Fin x) (Fin width)) (Fin W);
                   y2 := div (add (Fin y) (Fin height)) (Fin H) |} in
  let c := clamped_copy stored in
  if Qeq_bool W 1 && Qeq_bool H 1
  then generateSpatialDescription ann (Fin W) (Fin H) = ([], ann)
  else
    exists phrase,
      generateSpatialDescription ann (Fin W) (Fin H)
      = (phrase, set_normalizedCoordinates ann stored)
      /\ describes rectangle c phrase
      /\ in_unit_square c
      /\ (double x -> 0 <= width -> leb (x1 c) (x2 c) = true)
      /\ (double y -> 0 <= height -> leb (y1 c) (y2 c) = true)
      /\ phrase <> [].
Proof.
  intros Hty Hcoords Hnone HW HH stored c.
  unfold generateSpatialDescription. rewrite Hnone, Hty, Hcoords.
  change (eqb (Fin W) (of_Z 1) && eqb (Fin H) (of_Z 1))
    with (Qeq_bool W 1 && Qeq_bool H 1).
  destruct (Qeq_bool W 1 && Qeq_bool H 1); [reflexivity|].
  unfold normalizeRectangleCoordinates. cbn [nth]. fold stored.
  assert (Nx1 : is_number (x1 stored) = true)
    by (apply div_positive_number; [exact HW | reflexivity]).
  assert (Ny1 : is_number (y1 stored) = true)
    by (apply div_positive_number; [exact HH | reflexivity]).
  assert (Nx2 : is_number (x2 stored) = true)
    by (apply div_positive_number; [exact HW | apply add_number]).
  assert (Ny2 : is_number (y2 stored) = true)
    by (apply div_positive_number; [exact HH | apply add_number]).
  assert (Hnum : numeric stored = true).
  { unfold numeric. now rewrite Nx1, Ny1, Nx2, Ny2. }
  exists (describeRegion rectangle stored).
  split; [reflexivity|].
  split; [exact (describeRegion_describes rectangle stored Hnum)|].
  assert (Hunit : forall v, is_number v = true -> in_unit (unit_clamp v)).
  { intros v Nv. destruct (unit_clamp_number v Nv) as [q [-> Hq]].
    unfold in_unit, of_Z. change (inject_Z 0) with 0. change (inject_Z 1) with 1.
    now rewrite !leb_Fin. }
  split.
  { subst c. unfold in_unit_square, clamped_copy. cbn [x1 y1 x2 y2].
    repeat split; now apply Hunit. }
  assert (Hord : forall p extent size,
             0 < size -> double p -> 0 <= extent ->
             leb (unit_clamp (div (Fin p) (Fin size)))
               (unit_clamp (div (add (Fin p) (Fin extent)) (Fin size))) = true).
  { intros p extent size Hs Hp He. apply unit_clamp_mono.
    apply div_positive_mono; [exact Hs | reflexivity | apply add_number|].
    cbn [add]. apply double_le_round64; [exact Hp | lra]. }
  split; [intros Dx Hw; subst c; cbn [clamped_copy x1 x2 stored]; now apply Hord|].
  split; [intros Dy Hh; subst c; cbn [clamped_copy y1 y2 stored]; now apply Hord|].
  destruct (describeRegion_opening rectangle stored) as [rest ->]. discriminate.
Qed.

Lemma rectangle_normalize_then_describe_witness :
  let ann := rectangle_annotation 2000 737 (-256) 236 in
  (a_type ann = rectangle /\ normalizedCoordinates ann = None /\ 0 < 1024)
  /\ exists phrase,
       generateSpatialDescription (E := sample_engine) ann (Fin 1024) (Fin 1024)
       = (phrase,
          set_normalizedCoordinates ann
            {| x1 := div (Fin 2000) (Fin 1024);
               y1 := div (Fin 737) (Fin 1024);
               x2 := div (add (Fin 2000) (Fin (-256))) (Fin 1024);
               y2 := div (add (Fin 737) (Fin 236)) (Fin 1024) |})
       /\ phrase <> [].
Proof.
  cbv zeta. split; [repeat split|].
  destruct (@rectangle_normalize_then_describe sample_engine
              (rectangle_annotation 2000 737 (-256) 236)
              2000 737 (-256) 236 1024 1024
              eq_refl eq_refl eq_refl eq_refl eq_refl)
    as [phrase [Hrun [_ [_ [_ [_ Hne]]]]]].
  exists phrase. split; [exact Hrun | exact Hne].
Defined.

(* ================================================================== *)
(** ** Refinement prompt composer *)
(* ================================================================== *)

Lemma includes_unfold (s p : jsstring) :
  includes s p
  = startsWith s p || match s with [] => false | _ :: s' => includes s' p end.
Proof. destruct s; reflexivity. Qed.

Lemma includes_intro (before p after : jsstring) :
  includes (before ++ p ++ after) p = true.
Proof.
  induction before as [|c before IH].
  - simpl app. rewrite includes_unfold, startsWith_app. reflexivity.
  - simpl app. rewrite includes_unfold, IH. apply orb_true_r.
Qed.

Lemma len_app (a b : jsstring) : len (a ++ b) = (len a + len b)%Z.
Proof. unfold len. rewrite length_app. lia. Qed.


Lemma len_substring0 (s : jsstring) (n : Z) :
  len (substring0 s n) = Z.min (Z.max 0 n) (len s).
Proof.
  unfold substring0, len. rewrite length_firstn. lia.
Qed.

Lemma len_nonneg (s : jsstring) : (0 <= len s)%Z.
Proof. unfold len. lia. Qed.



(* ================================================================== *)
(** ** The monad: how computations compose *)
(* ================================================================== *)

Lemma yields_ret {A} (P : A -> Prop) (a : A) : P a -> yields P (ret a).
Proof. intros Ha w a' w' H. inversion H; subst. exact Ha. Qed.

Lemma yields_throw {A} (P : A -> Prop) (e : exn) : yields P (throw e).
Proof. intros w a w' H. discriminate H. Qed.

Lemma yields_throw_Error {A} (P : A -> Prop) (m : jsstring) :
  yields P (throw_Error m).
Proof. apply yields_throw. Qed.

Lemma yields_bind {A B} (P : B -> Prop) (c : M A) (k : A -> M B) :
  (forall a, yields P (k a)) -> yields P (bind c k).
Proof.
  intros Hk w b w' H. unfold bind in H.
  destruct (c w) as [[a|e] w1].
  - exact (Hk a w1 b w' H).
  - discriminate H.
Qed.

Lemma yields_try_catch {A} (P : A -> Prop) (c : M A) (h : exn -> M A) :
  yields P c -> (forall e, yields P (h e)) -> yields P (try_catch c h).
Proof.
  intros Hc Hh w a w' H. unfold try_catch in H.
  destruct (c w) as [[a1|e] w1] eqn:Hcw.
  - inversion H; subst. exact (Hc _ _ _ Hcw).
  - exact (Hh e w1 a w' H).
Qed.

(** A [catch] that returns makes the whole [try] return. *)
Lemma try_catch_returns {A} (c : M A) (h : exn -> M A) (w : World) :
  (forall e w1, returns (h e) w1) -> returns (try_catch c h) w.
Proof.
  intros Hh. unfold returns, try_catch.
  destruct (c w) as [[a|e] w1].
  - now exists a, w1.
  - apply Hh.
Qed.

Lemma ret_returns {A} (a : A) (w : World) : returns (ret a) w.
Proof. now exists a, w. Qed.

Lemma bind_returns {A B} (c : M A) (k : A -> M B) (w : World) :
  returns c w -> (forall a w1, returns (k a) w1) -> returns (bind c k) w.
Proof.
  intros [a [w1 Hc]] Hk. unfold returns, bind. rewrite Hc. apply Hk.
Qed.

Ltac yields_step :=
  first
    [ progress cbv zeta
    | apply yields_ret
    | apply yields_throw_Error
    | apply yields_throw
    | apply yields_bind; intros ?
    | apply yields_try_catch; [|intros ?]
    | match goal with
      | |- yields _ (if ?b then _ else _) => destruct b
      | |- yields _ (must ?o) => destruct o; unfold must
      | |- yields _ (settle ?p) => destruct p; unfold settle
      | |- yields _ (match ?x with _ => _ end) => destruct x
      end ].

(* ================================================================== *)
(** ** Artifact store *)
(* ================================================================== *)

(** [saveImageFromUrl] returns whatever the bridge does. *)
Lemma saveImageFromUrl_returns (remote : jsval) (sessionId : jsstring) (w : World) :
  returns (saveImageFromUrl remote sessionId) w.
Proof.
  unfold saveImageFromUrl. apply try_catch_returns.
  intros e w1. unfold returns, bind, random1000, ret. eauto.
Qed.

(* ================================================================== *)
(** ** Dispatcher *)
(* ================================================================== *)

Section Dispatcher.
Context {E : JsEngine}.

Lemma reported_failed (m : jsstring) : reported (Result.failed m).
Proof. unfold reported. simpl. split; [reflexivity | discriminate]. Qed.

Lemma reported_succeeded (u : jsstring) : reported (Result.succeeded u).
Proof. reflexivity. Qed.

Lemma yields_as_failure (e : exn) : yields reported (as_failure e).
Proof. apply yields_ret, reported_failed. Qed.

Lemma yields_store_remote (remote : jsval) (o : Options.t) :
  yields reported (store_remote remote o).
Proof.
  unfold store_remote. apply yields_bind; intros u.
  apply yields_ret, reported_succeeded.
Qed.

Lemma yields_store_inline (dataUrl : jsstring) (o : Options.t) :
  yields reported (store_inline dataUrl o).
Proof.
  unfold store_inline. apply yields_bind; intros u.
  apply yields_ret, reported_succeeded.
Qed.

Ltac adapter_yields :=
  repeat first
    [ apply yields_as_failure
    | apply yields_store_remote
    | apply yields_store_inline
    | apply yields_ret, reported_failed
    | yields_step ].





Lemma yields_after_polling (o : Options.t) (result : jsval) :
  yields reported (after_polling o result).
Proof. unfold after_polling. adapter_yields. Qed.








Lemma reported_set_fullPrompt (r : Result.t) (p : jsstring) :
  reported r -> reported (Result.set_fullPrompt r p).
Proof. unfold reported. destruct r as [[] u l e f]; simpl; auto. Qed.

End Dispatcher.

(* ================================================================== *)
(** ** Running a computation step by step *)
(* ================================================================== *)

Lemma bind_Ok {A B} (c : M A) (k : A -> M B) (w w1 : World) (a : A) :
  c w = (Ok a, w1) -> bind c k w = k a w1.
Proof. intros H. unfold bind. now rewrite H. Qed.

Lemma bind_Thrown {A B} (c : M A) (k : A -> M B) (w w1 : World) (e : exn) :
  c w = (Thrown e, w1) -> bind c k w = (Thrown e, w1).
Proof. intros H. unfold bind. now rewrite H. Qed.

Lemma try_catch_Ok {A} (c : M A) (h : exn -> M A) (w w1 : World) (a : A) :
  c w = (Ok a, w1) -> try_catch c h w = (Ok a, w1).
Proof. intros H. unfold try_catch. now rewrite H. Qed.

Lemma try_catch_Thrown {A} (c : M A) (h : exn -> M A) (w w1 : World) (e : exn) :
  c w = (Thrown e, w1) -> try_catch c h w = h e w1.
Proof. intros H. unfold try_catch. now rewrite H. Qed.

Lemma fetch_reply (rq : Request) (w : World) (r : Response)
  (rest : list (Response + exn)) :
  net w = inl r :: rest -> fetch rq w = (Ok r, with_net rest rq w).
Proof. intros H. unfold fetch. now rewrite H. Qed.

Lemma get_opt_get (v : jsval) (k : string) :
  truthy v = true -> get v k = Some (opt_get v k).
Proof. destruct v; simpl; intros H; try discriminate; reflexivity. Qed.

Lemma get_defined (v : jsval) (k : string) :
  v <> JNull -> v <> JUndefined -> get v k = Some (opt_get v k).
Proof. destruct v; simpl; intros H1 H2; try reflexivity; congruence. Qed.

Lemma is_str_object (v : jsval) (k text : string) :
  is_str (opt_get v k) text = true -> exists fields, v = JObj fields.
Proof.
  destruct v; simpl; intros H; try discriminate. now eexists.
Qed.

(* ================================================================== *)
(** ** Poll-based adapter *)
(* ================================================================== *)

Section Polling.
Context {E : JsEngine}.

(** One poll answered [pending]: wait, then go on with one attempt less. *)
Lemma poll_pending_step (k : nat) (predictionUrl : jsval)
  (token : option jsstring) (result : jsval) (w : World)
  (rp : Response + exn) (rest : list (Response + exn)) :
  net w = rp :: rest -> is_pending rp = true ->
  exists v,
    reply_json rp = Some v
    /\ is_str (opt_get v "status") "succeeded" = false
    /\ poll (S k) predictionUrl token result w
       = poll k predictionUrl token v
           (with_now (now w + pollInterval)%N
              (with_net rest (poll_request predictionUrl token) w)).
Proof.
  intros Hnet Hp. unfold is_pending, reply_status in Hp.
  destruct rp as [r|e]; simpl in Hp; [|discriminate].
  destruct (r_json r) as [v|e] eqn:Hj; simpl in Hp; [|discriminate].
  exists v. split; [simpl; now rewrite Hj|].
  assert (Hget : get v "status" = Some (opt_get v "status")).
  { apply get_defined; intros ->; discriminate Hp. }
  assert (Hst : is_str (opt_get v "status") "succeeded" = false
                /\ is_str (opt_get v "status") "failed" = false).
  { destruct v; try discriminate Hp;
      apply andb_true_iff in Hp; destruct Hp as [H1 H2];
      apply negb_true_iff in H1, H2; now split. }
  destruct Hst as [Hs Hf]. split; [exact Hs|].
  cbn [poll]. unfold bind at 1.
  change {| url := ToString predictionUrl; method := lit "GET";
            headers := [authorization "Token" token]; body := None |}
    with (poll_request predictionUrl token).
  rewrite (fetch_reply _ _ Hnet).
  unfold bind at 1. rewrite Hj. cbn [settle ret].
  unfold bind at 1. rewrite Hget. cbn [must ret].
  rewrite Hs, Hf. unfold bind at 1. reflexivity.
Qed.

(** A run of [pending] answers uses up as many attempts, each with its
    request and its wait, and leaves the rest of the script. *)
Lemma poll_pending_run (pend : list (Response + exn)) :
  forall (k : nat) (predictionUrl : jsval) (token : option jsstring)
         (result : jsval) (w : World) (rest : list (Response + exn)),
    net w = pend ++ rest -> forallb is_pending pend = true ->
    is_str (opt_get result "status") "succeeded" = false ->
    exists result' w',
      poll (List.length pend + k) predictionUrl token result w
      = poll k predictionUrl token result' w'
      /\ net w' = rest
      /\ is_str (opt_get result' "status") "succeeded" = false
      /\ sent w'
         = sent w ++ repeat (poll_request predictionUrl token) (List.length pend)
      /\ now w' = (now w + pollInterval * N.of_nat (List.length pend))%N.
Proof.
  induction pend as [|rp pend IH]; intros k predictionUrl token result w rest
    Hnet Hall Hres.
  - exists result, w. cbn [List.length repeat]. rewrite app_nil_r.
    repeat split; [exact Hnet|exact Hres|lia].
  - simpl in Hall. apply andb_true_iff in Hall. destruct Hall as [Hp Hall].
    simpl in Hnet.
    simpl List.length. simpl Nat.add.
    destruct (poll_pending_step (List.length pend + k) predictionUrl token
                result w Hnet Hp) as [v' [Hv' [Hs' Hstep']]].
    rewrite Hstep'.
    match goal with
    | |- context [poll _ _ _ v' ?w0] =>
        destruct (IH k predictionUrl token v' w0 rest eq_refl Hall Hs')
          as [result' [w' [Hrun [Hrest [Hres' [Hsent Hnow]]]]]]
    end.
    exists result', w'. split; [exact Hrun|]. split; [exact Hrest|].
    split; [exact Hres'|].
    rewrite Hsent, Hnow. cbn [sent now with_now with_net repeat].
    rewrite <- app_assoc. cbn [app]. split; [reflexivity|].
    unfold pollInterval. lia.
Qed.

(** The loop makes at most [attempts] requests, all of them the poll
    request.  It waits the fixed interval after every poll when it runs
    out of attempts, and after every poll but the last when it stops at an
    answer. *)
Lemma poll_counted (attempts : nat) :
  forall (predictionUrl : jsval) (token : option jsstring) (result : jsval)
         (w w' : World) (o : outcome jsval),
    poll attempts predictionUrl token result w = (o, w') ->
    exists polls,
      sent w' = sent w ++ repeat (poll_request predictionUrl token) polls
      /\ (polls <= attempts)%nat
      /\ ((polls = attempts
           /\ now w' = (now w + pollInterval * N.of_nat polls)%N)
          \/ ((1 <= polls)%nat
              /\ now w' = (now w + pollInterval * N.of_nat (polls - 1))%N)).
Proof.
  induction attempts as [|k IH]; intros predictionUrl token result w w' o H.
  - cbn [poll ret] in H. inversion H; subst.
    exists 0%nat. cbn [repeat]. rewrite app_nil_r.
    unfold pollInterval. split; [reflexivity|]. split; [lia|]. left. lia.
  - cbn [poll] in H. unfold bind at 1 in H.
    change {| url := ToString predictionUrl; method := lit "GET";
              headers := [authorization "Token" token]; body := None |}
      with (poll_request predictionUrl token) in H.
    set (rq := poll_request predictionUrl token) in *.
    assert (Hone : forall o1 w1, fetch rq w = (o1, w1) ->
                   sent w1 = sent w ++ [rq] /\ now w1 = now w).
    { unfold fetch. intros o1 w1.
      destruct (net w) as [|[r|e] rest]; intros H1; inversion H1; subst;
        now split. }
    assert (Hstop : forall w1, sent w1 = sent w ++ [rq] -> now w1 = now w ->
              w' = w1 ->
              exists polls,
                sent w' = sent w ++ repeat rq polls
                /\ (polls <= S k)%nat
                /\ ((polls = S k
                     /\ now w' = (now w + pollInterval * N.of_nat polls)%N)
                    \/ ((1 <= polls)%nat
                        /\ now w'
                           = (now w + pollInterval * N.of_nat (polls - 1))%N))).
    { intros w1 Hs Hn ->. exists 1%nat. cbn [repeat]. rewrite Hs, Hn.
      unfold pollInterval. split; [reflexivity|]. split; [lia|]. right. lia. }
    destruct (fetch rq w) as [[r|e] w1] eqn:Hf;
      destruct (Hone _ _ eq_refl) as [Hs Hn].
    2:{ inversion H; subst. now apply (Hstop w'). }
    unfold bind at 1 in H.
    destruct (r_json r) as [v|e]; cbn [settle ret throw] in H;
      [|inversion H; now apply (Hstop w1)].
    unfold bind at 1 in H.
    destruct (get v "status") as [status|]; cbn [must ret throw] in H;
      [|inversion H; now apply (Hstop w1)].
    destruct (is_str status "succeeded");
      [cbn [ret] in H; inversion H; now apply (Hstop w1)|].
    destruct (is_str status "failed");
      [unfold throw_Error, throw in H; inversion H; now apply (Hstop w1)|].
    unfold bind at 1 in H. cbn [sleep] in H.
    destruct (IH _ _ _ _ _ _ H) as [polls [Hsent [Hp Hnow]]].
    exists (S polls).
    rewrite Hsent. cbn [with_now sent now] in *. rewrite Hs.
    rewrite <- app_assoc. cbn [app repeat].
    split; [reflexivity|]. split; [lia|].
    unfold pollInterval in *. rewrite Hn in Hnow.
    destruct Hnow as [[Hk Hnow]|[Hk Hnow]]; [left|right]; lia.
Qed.

(** Once the submission is accepted, the adapter runs the loop and then
    the collection step, inside its [try]. *)
Lemma generateWithReplicate_submitted (options : Options.t) (w : World)
  (submission : Response + exn) (script : list (Response + exn))
  (predictionUrl : jsval) :
  truthy_opt (Options.stableDiffusionAPIKey options) = true ->
  net w = submission :: script ->
  accepted submission predictionUrl ->
  exists rq w1,
    net w1 = script /\ sent w1 = sent w ++ [rq] /\ now w1 = now w /\
    generateWithReplicate options w
    = try_catch
        (result <- poll maxAttempts predictionUrl
                     (Options.stableDiffusionAPIKey options) JUndefined ;;
         after_polling options result)
        as_failure w1.
Proof.
  intros Hkey Hnet (r & prediction & urls & -> & Hok & Hjson & Hurls & Hget & Hurl).
  unfold generateWithReplicate. rewrite Hkey. cbn [negb].
  destruct (size_numbers options) as [width height].
  match goal with
  | |- context [fetch ?rq] => exists rq, (with_net script rq w)
  end.
  split; [reflexivity|]. split; [reflexivity|]. split; [reflexivity|].
  unfold try_catch. unfold bind at 1.
  rewrite (fetch_reply _ _ Hnet). rewrite Hok. cbn [negb].
  unfold bind at 1. rewrite Hjson. cbn [settle ret].
  unfold bind at 1. rewrite Hurls. cbn [must ret]. rewrite Hget, Hurl.
  cbn [negb]. reflexivity.
Qed.

(** The collection step on a [succeeded] result with a first output. *)
Lemma after_polling_succeeded (options : Options.t) (result : jsval) (w : World) :
  is_str (opt_get result "status") "succeeded" = true ->
  truthy (opt_index0 (opt_get result "output")) = true ->
  exists localImageUrl w',
    after_polling options result w = (Ok (Result.succeeded localImageUrl), w').
Proof.
  intros Hs Hout.
  destruct (is_str_object result "status" "succeeded" Hs) as [fields ->].
  unfold after_polling. cbn [truthy negb]. unfold bind at 1.
  cbn [get must ret]. change (lookup (lit "status") fields)
    with (opt_get (JObj fields) "status").
  rewrite Hs. cbn [negb orb]. rewrite Hout. cbn [negb].
  unfold store_remote.
  destruct (saveImageFromUrl_returns
              (opt_index0 (opt_get (JObj fields) "output"))
              (Options.sessionId options) w) as [u [w' Hsave]].
  exists u, w'. unfold bind. now rewrite Hsave.
Qed.

(** The collection step on a result that is not [succeeded]. *)
Lemma after_polling_timed_out (options : Options.t) (result : jsval) (w : World) :
  is_str (opt_get result "status") "succeeded" = false ->
  after_polling options result w
  = (Thrown (JsError (lit "Timed out waiting for Replicate to generate image")), w).
Proof.
  intros Hs. unfold after_polling.
  destruct (truthy result) eqn:Ht; cbn [negb].
  - unfold bind at 1. rewrite (get_opt_get result "status" Ht).
    cbn [must ret]. rewrite Hs. reflexivity.
  - unfold bind at 1. reflexivity.
Qed.

Lemma jseqb_eq (a b : jsstring) : jseqb a b = true -> a = b.
Proof.
  revert b. induction a as [|x a IH]; destruct b as [|y b]; simpl;
    intros H; try discriminate; [reflexivity|].
  apply andb_true_iff in H. destruct H as [Hxy Hab].
  apply N.eqb_eq in Hxy. subst. f_equal. now apply IH.
Qed.

(** The collection step on a [succeeded] result without a first
    output. *)
Lemma after_polling_no_output (options : Options.t) (result : jsval) (w : World) :
  is_str (opt_get result "status") "succeeded" = true ->
  truthy (opt_index0 (opt_get result "output")) = false ->
  after_polling options result w
  = (Thrown (JsError (lit "No image URL returned from Replicate")), w).
Proof.
  intros Hs Hout.
  destruct (is_str_object result "status" "succeeded" Hs) as [fields ->].
  unfold after_polling. cbn [truthy negb]. unfold bind at 1.
  cbn [get must ret]. change (lookup (lit "status") fields)
    with (opt_get (JObj fields) "status").
  rewrite Hs. cbn [negb orb]. rewrite Hout. reflexivity.
Qed.

(** One poll answered [succeeded]: the loop is left with that answer,
    without a wait. *)
Lemma poll_succeeded_step (k : nat) (predictionUrl : jsval)
  (token : option jsstring) (result v : jsval) (w : World)
  (rp : Response + exn) (rest : list (Response + exn)) :
  net w = rp :: rest -> reply_json rp = Some v ->
  is_str (opt_get v "status") "succeeded" = true ->
  poll (S k) predictionUrl token result w
  = (Ok v, with_net rest (poll_request predictionUrl token) w).
Proof.
  intros Hnet Hv Hs. unfold reply_json in Hv.
  destruct rp as [r|e]; [|discriminate].
  destruct (r_json r) as [v0|e] eqn:Hj; [|discriminate].
  inversion Hv; subst v0.
  destruct (is_str_object v "status" "succeeded" Hs) as [fields ->].
  cbn [poll]. unfold bind at 1.
  change {| url := ToString predictionUrl; method := lit "GET";
            headers := [authorization "Token" token]; body := None |}
    with (poll_request predictionUrl token).
  rewrite (fetch_reply _ _ Hnet).
  unfold bind at 1. rewrite Hj. cbn [settle ret].
  unfold bind at 1. cbn [get must ret].
  change (lookup (lit "status") fields) with (opt_get (JObj fields) "status").
  rewrite Hs. reflexivity.
Qed.

(** One poll answered [failed]: the loop throws the provider's report,
    without a wait. *)
Lemma poll_failed_step (k : nat) (predictionUrl : jsval)
  (token : option jsstring) (result : jsval) (w : World)
  (rp : Response + exn) (rest : list (Response + exn)) :
  net w = rp :: rest -> is_failed rp = true ->
  exists report,
    poll (S k) predictionUrl token result w
    = (Thrown (JsError (lit "Replicate generation failed: " ++ report)),
       with_net rest (poll_request predictionUrl token) w).
Proof.
  intros Hnet Hp. unfold is_failed, reply_status, reply_json in Hp.
  destruct rp as [r|e]; [|discriminate].
  destruct (r_json r) as [v|e] eqn:Hj; [|discriminate].
  destruct (is_str_object v "status" "failed" Hp) as [fields ->].
  assert (Hs : is_str (opt_get (JObj fields) "status") "succeeded" = false).
  { destruct (opt_get (JObj fields) "status") as [| | | |s| |];
      try discriminate Hp.
    simpl in Hp. apply jseqb_eq in Hp. subst s. reflexivity. }
  eexists.
  cbn [poll]. unfold bind at 1.
  change {| url := ToString predictionUrl; method := lit "GET";
            headers := [authorization "Token" token]; body := None |}
    with (poll_request predictionUrl token).
  rewrite (fetch_reply _ _ Hnet).
  unfold bind at 1. rewrite Hj. cbn [settle ret].
  unfold bind at 1. cbn [get must ret].
  change (lookup (lit "status") fields) with (opt_get (JObj fields) "status").
  rewrite Hs, Hp. reflexivity.
Qed.

End Polling.


(* ================================================================== *)
(** ** Best-effort custom adapter *)
(* ================================================================== *)

Ltac run :=
  cbv beta iota zeta delta
    [bind ret throw throw_Error try_catch must settle fetch invoke Date_now
     sleep uuidv4 random1000 with_net with_bridge with_now with_uuid_next
     with_random_next with_baseImageDir with_sessions net bridge baseImageDir
     now uuids uuid_next randoms random_next sent invoked sessions ok
     statusText r_json r_blob negb andb orb as_failure store_remote
     store_inline saveImageFromUrl saveImageFromDataUrl getSessionDirectory
     initImageStorage fresh_filename truthy_opt truthy_str or_str].

Lemma strip_png_header (base64 : jsstring) :
  strip_data_url_header (lit "data:image/png;base64," ++ base64) = base64.
Proof.
  unfold strip_data_url_header.
  change (lit "data:image/png;base64," ++ base64)
    with (lit "data:image/" ++ lit "png" ++ lit ";base64," ++ base64).
  rewrite startsWith_app.
  change (skipn (List.length (lit "data:image/"))
            (lit "data:image/" ++ lit "png" ++ lit ";base64," ++ base64))
    with (lit "png" ++ lit ";base64," ++ base64).
  change (drop_word (lit "png" ++ lit ";base64," ++ base64))
    with (lit ";base64," ++ base64).
  rewrite startsWith_app.
  assert (Hlt : (List.length (lit ";base64," ++ base64)
                 <? List.length (lit "png" ++ lit ";base64," ++ base64))%nat
                = true).
  { apply Nat.ltb_lt. rewrite !length_app. simpl. lia. }
  rewrite Hlt. reflexivity.
Qed.


(* ================================================================== *)
(** ** What is sent over the network *)
(* ================================================================== *)

Lemma silent_ret {A} (a : A) : silent (ret a).
Proof. intros w o w' H. now inversion H. Qed.

Lemma silent_throw {A} (e : exn) : silent (@throw A e).
Proof. intros w o w' H. now inversion H. Qed.

Lemma silent_bind {A B} (c : M A) (k : A -> M B) :
  silent c -> (forall a, silent (k a)) -> silent (bind c k).
Proof.
  intros Hc Hk w o w' H. unfold bind in H.
  destruct (c w) as [[a|e] w1] eqn:Hcw.
  - rewrite (Hk a _ _ _ H). exact (Hc _ _ _ Hcw).
  - inversion H; subst. exact (Hc _ _ _ Hcw).
Qed.

Lemma silent_try_catch {A} (c : M A) (h : exn -> M A) :
  silent c -> (forall e, silent (h e)) -> silent (try_catch c h).
Proof.
  intros Hc Hh w o w' H. unfold try_catch in H.
  destruct (c w) as [[a|e] w1] eqn:Hcw.
  - inversion H; subst. exact (Hc _ _ _ Hcw).
  - rewrite (Hh e _ _ _ H). exact (Hc _ _ _ Hcw).
Qed.

Lemma silent_invoke (c : IpcCall) : silent (invoke c).
Proof.
  intros w o w' H. unfold invoke in H.
  destruct (bridge w) as [|[v|e] rest]; inversion H; reflexivity.
Qed.

Lemma silent_Date_now : silent Date_now.
Proof. intros w o w' H. now inversion H. Qed.

Lemma silent_uuidv4 : silent uuidv4.
Proof. intros w o w' H. now inversion H. Qed.

Lemma silent_random1000 : silent random1000.
Proof. intros w o w' H. now inversion H. Qed.

Lemma silent_must {A} (o : option A) : silent (must o).
Proof. destruct o; [apply silent_ret | apply silent_throw]. Qed.

Lemma silent_settle {A} (p : A + exn) : silent (settle p).
Proof. destruct p; [apply silent_ret | apply silent_throw]. Qed.

Ltac silent_step :=
  first
    [ progress cbv zeta
    | apply silent_ret
    | apply silent_throw
    | apply silent_invoke
    | apply silent_Date_now
    | apply silent_uuidv4
    | apply silent_random1000
    | apply silent_must
    | apply silent_settle
    | apply silent_bind; [|intros ?]
    | apply silent_try_catch; [|intros ?]
    | match goal with
      | |- silent (if ?b then _ else _) => destruct b
      | |- silent (match ?x with _ => _ end) => destruct x
      end ].

Lemma silent_initImageStorage (customPath : option jsstring) :
  silent (initImageStorage customPath).
Proof.
  intros w o w' H. unfold initImageStorage in H.
  destruct (truthy_opt (baseImageDir w)); [now inversion H|].
  match type of H with
  | ?c w = _ => assert (Hs : silent c)
  end.
  { repeat silent_step. intros w2 o2 w2' H2. now inversion H2. }
  exact (Hs _ _ _ H).
Qed.

Lemma silent_getSessionDirectory (sessionId : jsstring) :
  silent (getSessionDirectory sessionId).
Proof.
  unfold getSessionDirectory. apply silent_bind.
  - apply silent_initImageStorage.
  - intros _ w o w' H.
    destruct (negb (truthy_opt (baseImageDir w))).
    + now inversion H.
    + cbv zeta in H.
      match type of H with
      | ?c w = _ => assert (Hs : silent c)
      end.
      { repeat silent_step. }
      exact (Hs _ _ _ H).
Qed.

Lemma silent_saveImageFromUrl (remote : jsval) (sessionId : jsstring) :
  silent (saveImageFromUrl remote sessionId).
Proof.
  unfold saveImageFromUrl, fresh_filename.
  apply silent_try_catch.
  - apply silent_bind; [apply silent_getSessionDirectory|intros ?].
    repeat silent_step.
  - intros e. repeat silent_step.
Qed.

Lemma fetch_logs (rq : Request) (w w' : World) (o : outcome Response) :
  fetch rq w = (o, w') -> sent w' = sent w ++ [rq].
Proof.
  unfold fetch. destruct (net w) as [|[r|e] rest]; intros H; now inversion H.
Qed.

(** One request, then nothing more on the network. *)
Lemma fetch_then_silent {A} (rq : Request) (k : Response -> M A)
  (h : exn -> M A) (w w' : World) (o : outcome A) :
  (forall r, silent (k r)) -> (forall e, silent (h e)) ->
  try_catch (bind (fetch rq) k) h w = (o, w') ->
  sent w' = sent w ++ [rq].
Proof.
  intros Hk Hh H. unfold try_catch, bind in H.
  destruct (fetch rq w) as [[r|e] w1] eqn:Hf; apply fetch_logs in Hf.
  - destruct (k r w1) as [[a|e] w2] eqn:Hkr.
    + inversion H; subst. now rewrite (Hk _ _ _ _ Hkr).
    + now rewrite (Hh _ _ _ _ H), (Hk _ _ _ _ Hkr).
  - now rewrite (Hh _ _ _ _ H).
Qed.

(* ================================================================== *)
(** ** Chat-model-mediated adapter *)
(* ================================================================== *)

Section Enrichment.
Context {E : JsEngine}.

Lemma silent_store_remote (remote : jsval) (o : Options.t) :
  silent (store_remote remote o).
Proof.
  unfold store_remote. apply silent_bind.
  - apply silent_saveImageFromUrl.
  - intros u. apply silent_ret.
Qed.

Lemma silent_as_failure (e : exn) : silent (as_failure e).
Proof. apply silent_ret. Qed.

(** [generateWithGPT4o] once [enhancedPrompt] is settled. *)
Lemma generateWithGPT4o_after_enhance (options : Options.t)
  (w w1 : World) (enhancedPrompt : jsval) :
  truthy_opt (Options.apiKey options) = true ->
  enhance_or_keep options w = (Ok enhancedPrompt, w1) ->
  generateWithGPT4o options w
  = try_catch (gpt4o_generate options enhancedPrompt) as_failure w1.
Proof.
  intros Hkey Hen.
  unfold generateWithGPT4o. rewrite Hkey. cbn [negb].
  unfold try_catch, bind. now rewrite Hen.
Qed.

Lemma gpt4o_generate_sends_once (options : Options.t) (enhancedPrompt : jsval)
  (w : World) :
  sent (snd (try_catch (gpt4o_generate options enhancedPrompt) as_failure w))
  = sent w ++ [gpt4o_image_request options enhancedPrompt].
Proof.
  destruct (try_catch (gpt4o_generate options enhancedPrompt) as_failure w)
    as [o w'] eqn:Hrun. cbn [snd].
  unfold gpt4o_generate in Hrun.
  apply fetch_then_silent in Hrun; [exact Hrun| |apply silent_as_failure].
  intros r. repeat first [apply silent_store_remote | silent_step].
Qed.

End Enrichment.

(* ================================================================== *)
(** ** The composing stage of [refineImage] *)
(* ================================================================== *)

Section Composer.
Context {E : JsEngine}.


End Composer.




(* ================================================================== *)
(** ** Persisting a fetched image *)
(* ================================================================== *)

(** The DALL-E path of [generateImage] when the bridge resolves the two
    calls of the store: one request, the two calls, and a success naming
    the file the download was to write. *)
Lemma generateImage_dalle_run {E : JsEngine}
  (options : Options.t) (w : World) (r : Response)
  (rest : list (Response + exn)) (u dir a1 a2 : jsstring)
  (answers : list (jsstring + exn)) :
  model_is options DALLE3 || model_is options DALLE2 = true ->
  truthy_opt (Options.apiKey options) = true ->
  net w = inl r :: rest -> ok r = true ->
  r_json r = inl (images_reply u) -> truthy_str u = true ->
  baseImageDir w = Some dir -> truthy_str dir = true ->
  bridge w = inl a1 :: inl a2 :: answers ->
  let sessionDir := dir ++ [slash] ++ Options.sessionId options in
  let filePath := stored_path dir (Options.sessionId options) w in
  exists w' rq,
    generateImage options w
    = (Ok (Result.set_fullPrompt (Result.succeeded (getFileUrl filePath))
             (Options.prompt options)), w')
    /\ invoked w'
       = invoked w ++ [EnsureDirectory sessionDir;
                       DownloadImage (JStr u) filePath]
    /\ sent w' = sent w ++ [rq]
    /\ net w' = rest /\ bridge w' = answers.
Proof.
  intros Hmodel Hkey Hnet Hok Hjson Hu Hdir Htruthy Hbridge. cbv zeta.
  unfold generateImage. rewrite Hmodel.
  unfold bind at 1. unfold initImageStorage. rewrite Hdir.
  cbn [truthy_opt or_str]. rewrite Htruthy.
  unfold bind at 1. unfold generateWithDalle. rewrite Hkey. cbn [negb].
  cbv zeta.
  unfold try_catch at 1. unfold bind at 1.
  rewrite (fetch_reply _ _ Hnet). rewrite Hok. cbn [negb].
  unfold bind at 1. rewrite Hjson. cbn [settle ret].
  unfold bind at 1.
  assert (Hget : get (images_reply u) "data"
                 = Some (JArr [JObj [(lit "url", JStr u)]])) by reflexivity.
  rewrite Hget. cbn [must ret].
  assert (Hurl : opt_get (opt_index0 (JArr [JObj [(lit "url", JStr u)]])) "url"
                 = JStr u) by reflexivity.
  rewrite Hurl. cbn [truthy]. rewrite Hu. cbn [negb].
  destruct w as [bd nt br nw uu un rr rn st iv ss].
  cbn [baseImageDir bridge net] in Hdir, Hbridge, Hnet. subst bd br nt.
  destruct dir as [|c dir]; [discriminate Htruthy|].
  unfold stored_path. run.
  cbn [Result.success Result.succeeded].
  eexists _, _. split; [reflexivity|].
  cbn [invoked sent net bridge]. split; [now rewrite <- app_assoc|].
  split; [reflexivity|]. now split.
Qed.

Section TwoProcesses.
Context {E : JsEngine} {N : NodeRuntime}.

(** A download that cannot succeed is answered [false] and leaves the
    disk as it was. *)
Lemma downloadImage_fails (u filePath : jsstring) (m : Main) :
  download_fails u m ->
  fst (downloadImage (JStr u) filePath m) = false
  /\ disk (snd (downloadImage (JStr u) filePath m)) = disk m.
Proof.
  unfold download_fails, downloadImage, attempt. cbn [ToString is_string].
  destruct (URL_hostname u) as [hostname|]; [|intros _; now split].
  destruct (isAllowed hostname); cbn [negb]; [|intros _; now split].
  intros [Hno|Hweb]; [discriminate Hno|].
  unfold bindP, http_get. cbn beta iota.
  destruct (web m) as [|[[statusCode data]|e] rest]; [now split| |now split].
  destruct (Z.eqb_spec statusCode 200) as [->|Hne]; [contradiction|].
  now split.
Qed.

End TwoProcesses.

(** C2.  The provider answers with an image URL, the store is set up,
    and the bridge is answered by the handlers of main.ts; the download
    cannot succeed (the address is no URL, or on none of the allowed
    domains, or the web does not answer 200).  The handler then resolves
    [false] with nothing written, the renderer does not look at that
    value, and [generateImage] returns [success: true] with the file URL
    of the file that was to be written, where a storage failure was to be
    reported. *)
Theorem generateImage_success_without_stored_file
  {E : JsEngine} {N : NodeRuntime}
  (options : Options.t) (w : World) (m : Main) (r : Response)
  (rest : list (Response + exn)) (u dir : jsstring) :
  model_is options DALLE3 || model_is options DALLE2 = true ->
  truthy_opt (Options.apiKey options) = true ->
  net w = inl r :: rest -> ok r = true ->
  r_json r = inl (images_reply u) -> truthy_str u = true ->
  baseImageDir w = Some dir -> truthy_str dir = true ->
  let sessionDir := dir ++ [slash] ++ Options.sessionId options in
  let filePath := stored_path dir (Options.sessionId options) w in
  let calls := [EnsureDirectory sessionDir; DownloadImage (JStr u) filePath] in
  let m1 := snd (ensureDirectory sessionDir m) in
  served_by calls m w ->
  download_fails u m1 ->
  exists w',
    generateImage options w
    = (Ok (Result.set_fullPrompt (Result.succeeded (getFileUrl filePath))
             (Options.prompt options)), w')
    /\ invoked w' = invoked w ++ calls
    /\ fst (downloadImage (JStr u) filePath m1) = false
    /\ disk (snd (downloadImage (JStr u) filePath m1)) = disk m1.
Proof.
  intros Hmodel Hkey Hnet Hok Hjson Hu Hdir Htruthy sessionDir filePath calls
    m1 [more Hbridge] Hfails.
  assert (Hserved : exists a1 a2, bridge w = inl a1 :: inl a2 :: more).
  { subst calls. cbn [serve] in Hbridge. unfold ipcMain_handle in Hbridge.
    destruct (ensureDirectory sessionDir m) as [b1 m1'].
    destruct (downloadImage (JStr u) filePath m1') as [b2 m2].
    cbn [fst map app] in Hbridge. eauto. }
  destruct Hserved as [a1 [a2 Hb]].
  destruct (@generateImage_dalle_run _ options w r rest u dir a1 a2 more
              Hmodel Hkey Hnet Hok Hjson Hu Hdir
              Htruthy Hb) as [w' [rq [Hrun [Hinv _]]]].
  exists w'. split; [exact Hrun|]. split; [exact Hinv|].
  destruct (@downloadImage_fails _ _ u filePath m1 Hfails) as [Hfalse Hdisk].
  split; [exact Hfalse|exact Hdisk].
Qed.

Lemma generateImage_success_without_stored_file_witness :
  let options := sample_options DALLE3 in
  let u := lit "https://oaidalleapiprodscus.blob.core.windows.net/private/i.png" in
  let r := {| ok := true; statusText := lit "OK";
              r_json := inl (images_reply u);
              r_blob := inr (JsError (lit "not an image")) |} in
  let w := with_replies [inl r] [inl (lit "true"); inl (lit "false")]
             (Some (lit "/data/images")) in
  let m := {| disk := ([] : @Disk sample_node);
              web := [inl (403%Z, lit "AuthenticationFailed")] |} in
  let filePath := lit "/data/images/session-1/1700000000000-0c9e1f7a.png" in
  @served_by sample_engine sample_node
    [EnsureDirectory (lit "/data/images/session-1");
     DownloadImage (JStr u) filePath] m w
  /\ (exists w',
        generateImage (E := sample_engine) options w
        = (Ok (Result.set_fullPrompt
                 (Result.succeeded
                    (lit "file:///data/images/session-1/1700000000000-0c9e1f7a.png"))
                 (lit "a lighthouse at dusk")), w'))
  /\ disk (snd (@downloadImage sample_engine sample_node (JStr u) filePath m))
     = [].
Proof.
  cbv zeta.
  match goal with
  | |- ?served /\ _ =>
      assert (Hserved : served) by (exists []; reflexivity)
  end.
  assert (Hfails :
            @download_fails sample_node
              (lit "https://oaidalleapiprodscus.blob.core.windows.net/private/i.png")
              {| disk := ([] : @Disk sample_node);
                 web := [inl (403%Z, lit "AuthenticationFailed")] |})
    by (right; discriminate).
  destruct
    (@generateImage_success_without_stored_file sample_engine sample_node
       (sample_options DALLE3)
       (with_replies
          [inl {| ok := true; statusText := lit "OK";
                  r_json :=
                    inl (images_reply
                           (lit "https://oaidalleapiprodscus.blob.core.windows.net/private/i.png"));
                  r_blob := inr (JsError (lit "not an image")) |}]
          [inl (lit "true"); inl (lit "false")] (Some (lit "/data/images")))
       {| disk := ([] : @Disk sample_node);
          web := [inl (403%Z, lit "AuthenticationFailed")] |}
       _ []
       (lit "https://oaidalleapiprodscus.blob.core.windows.net/private/i.png")
       (lit "/data/images")
       eq_refl eq_refl eq_refl eq_refl eq_refl eq_refl eq_refl eq_refl
       Hserved Hfails) as [w' [Hrun [_ [_ Hdisk]]]].
  split; [exact Hserved|].
  split; [exists w'; exact Hrun|exact Hdisk].
Defined.

(* ================================================================== *)
(** ** What generation leaves of the session store *)
(* ================================================================== *)

Lemma preserves_ret {X A} (f : World -> X) (a : A) : preserves f (ret a).
Proof. intros w o w' H. now inversion H. Qed.

Lemma preserves_throw {X A} (f : World -> X) (e : exn) : preserves f (@throw A e).
Proof. intros w o w' H. now inversion H. Qed.

Lemma preserves_bind {X A B} (f : World -> X) (c : M A) (k : A -> M B) :
  preserves f c -> (forall a, preserves f (k a)) -> preserves f (bind c k).
Proof.
  intros Hc Hk w o w' H. unfold bind in H.
  destruct (c w) as [[a|e] w1] eqn:Hcw.
  - rewrite (Hk a _ _ _ H). exact (Hc _ _ _ Hcw).
  - inversion H; subst. exact (Hc _ _ _ Hcw).
Qed.

Lemma preserves_try_catch {X A} (f : World -> X) (c : M A) (h : exn -> M A) :
  preserves f c -> (forall e, preserves f (h e)) -> preserves f (try_catch c h).
Proof.
  intros Hc Hh w o w' H. unfold try_catch in H.
  destruct (c w) as [[a|e] w1] eqn:Hcw.
  - inversion H; subst. exact (Hc _ _ _ Hcw).
  - rewrite (Hh e _ _ _ H). exact (Hc _ _ _ Hcw).
Qed.

Lemma preserves_must {X A} (f : World -> X) (o : option A) : preserves f (must o).
Proof. destruct o; [apply preserves_ret | apply preserves_throw]. Qed.

Lemma preserves_settle {X A} (f : World -> X) (p : A + exn) :
  preserves f (settle p).
Proof. destruct p; [apply preserves_ret | apply preserves_throw]. Qed.

Lemma store_fetch (rq : Request) : preserves sessions (fetch rq).
Proof.
  intros w o w' H. unfold fetch in H.
  destruct (net w) as [|[r|e] rest]; inversion H; reflexivity.
Qed.

Lemma store_invoke (c : IpcCall) : preserves sessions (invoke c).
Proof.
  intros w o w' H. unfold invoke in H.
  destruct (bridge w) as [|[v|e] rest]; inversion H; reflexivity.
Qed.

Lemma store_Date_now : preserves sessions Date_now.
Proof. intros w o w' H. now inversion H. Qed.

Lemma store_sleep (ms : N) : preserves sessions (sleep ms).
Proof. intros w o w' H. now inversion H. Qed.

Lemma store_uuidv4 : preserves sessions uuidv4.
Proof. intros w o w' H. now inversion H. Qed.

Lemma store_random1000 : preserves sessions random1000.
Proof. intros w o w' H. now inversion H. Qed.

Ltac store_step :=
  first
    [ progress cbv zeta
    | apply preserves_ret
    | apply preserves_throw
    | apply store_fetch
    | apply store_invoke
    | apply store_Date_now
    | apply store_sleep
    | apply store_uuidv4
    | apply store_random1000
    | apply preserves_must
    | apply preserves_settle
    | apply preserves_bind; [|intros ?]
    | apply preserves_try_catch; [|intros ?]
    | match goal with
      | |- preserves _ (if ?b then _ else _) => destruct b
      | |- preserves _ (match ?x with _ => _ end) => destruct x
      end ].

Lemma store_initImageStorage (customPath : option jsstring) :
  preserves sessions (initImageStorage customPath).
Proof.
  intros w o w' H. unfold initImageStorage in H.
  destruct (truthy_opt (baseImageDir w)); [now inversion H|].
  match type of H with
  | ?c w = _ => assert (Hs : preserves sessions c)
  end.
  { repeat store_step. intros w2 o2 w2' H2. now inversion H2. }
  exact (Hs _ _ _ H).
Qed.

Lemma store_getSessionDirectory (sessionId : jsstring) :
  preserves sessions (getSessionDirectory sessionId).
Proof.
  unfold getSessionDirectory. apply preserves_bind.
  - apply store_initImageStorage.
  - intros _ w o w' H.
    destruct (negb (truthy_opt (baseImageDir w))).
    + now inversion H.
    + cbv zeta in H.
      match type of H with
      | ?c w = _ => assert (Hs : preserves sessions c)
      end.
      { repeat store_step. }
      exact (Hs _ _ _ H).
Qed.

Lemma store_saveImageFromUrl (remote : jsval) (sessionId : jsstring) :
  preserves sessions (saveImageFromUrl remote sessionId).
Proof.
  unfold saveImageFromUrl, fresh_filename.
  apply preserves_try_catch.
  - apply preserves_bind; [apply store_getSessionDirectory|intros ?].
    repeat store_step.
  - intros e. repeat store_step.
Qed.

Lemma store_saveImageFromDataUrl (dataUrl sessionId : jsstring) :
  preserves sessions (saveImageFromDataUrl dataUrl sessionId).
Proof.
  unfold saveImageFromDataUrl, fresh_filename.
  apply preserves_try_catch.
  - apply preserves_bind; [apply store_getSessionDirectory|intros ?].
    repeat store_step.
  - intros e. repeat store_step.
Qed.

Section GenerationKeepsStore.
Context {E : JsEngine}.

Lemma store_store_remote (remote : jsval) (o : Options.t) :
  preserves sessions (store_remote remote o).
Proof.
  unfold store_remote. apply preserves_bind.
  - apply store_saveImageFromUrl.
  - intros u. apply preserves_ret.
Qed.

Lemma store_store_inline (dataUrl : jsstring) (o : Options.t) :
  preserves sessions (store_inline dataUrl o).
Proof.
  unfold store_inline. apply preserves_bind.
  - apply store_saveImageFromDataUrl.
  - intros u. apply preserves_ret.
Qed.

Lemma store_poll (attempts : nat) :
  forall predictionUrl token result,
    preserves sessions (poll attempts predictionUrl token result).
Proof.
  induction attempts as [|k IH]; intros predictionUrl token result.
  - apply preserves_ret.
  - cbn [poll]. repeat first [apply IH | store_step].
Qed.

Ltac store_known_step :=
  first
    [ apply store_store_remote
    | apply store_store_inline
    | apply store_poll
    | apply store_initImageStorage
    | store_step ].

Ltac store_known := repeat store_known_step.

Lemma store_generateWithDalle (o : Options.t) :
  preserves sessions (generateWithDalle o).
Proof. unfold generateWithDalle, as_failure. store_known. Qed.

Lemma store_load_previous_image (u : jsstring) :
  preserves sessions (load_previous_image u).
Proof. unfold load_previous_image. store_known. Qed.

Lemma store_enhancePromptWithGPT4o (o : Options.t) :
  preserves sessions (enhancePromptWithGPT4o o).
Proof.
  unfold enhancePromptWithGPT4o.
  apply preserves_bind.
  - destruct (truthy_opt (Options.imageUrl o)); [|apply preserves_ret].
    apply preserves_try_catch; [|intros ?; apply preserves_ret].
    apply preserves_bind; [apply store_load_previous_image|intros ?].
    apply preserves_ret.
  - intros image. store_known.
Qed.

Lemma store_generateWithGPT4o (o : Options.t) :
  preserves sessions (generateWithGPT4o o).
Proof.
  unfold generateWithGPT4o, as_failure, gpt4o_generate, enhance_or_keep.
  repeat first [apply store_enhancePromptWithGPT4o | store_known_step].
Qed.

Lemma store_generateWithLocalStableDiffusion (o : Options.t) :
  preserves sessions (generateWithLocalStableDiffusion o).
Proof.
  unfold generateWithLocalStableDiffusion, as_failure.
  destruct (size_numbers o). store_known.
Qed.

Lemma store_generateWithStableDiffusionAPI (o : Options.t) :
  preserves sessions (generateWithStableDiffusionAPI o).
Proof.
  unfold generateWithStableDiffusionAPI, as_failure.
  destruct (size_numbers o). store_known.
Qed.

Lemma store_generateWithReplicate (o : Options.t) :
  preserves sessions (generateWithReplicate o).
Proof.
  unfold generateWithReplicate, as_failure, after_polling.
  destruct (size_numbers o). store_known.
Qed.

Lemma store_generateWithCustomStableDiffusion (o : Options.t) :
  preserves sessions (generateWithCustomStableDiffusion o).
Proof.
  unfold generateWithCustomStableDiffusion, as_failure.
  destruct (size_numbers o). store_known.
Qed.

Lemma store_generateWithStableDiffusion (o : Options.t) :
  preserves sessions (generateWithStableDiffusion o).
Proof.
  unfold generateWithStableDiffusion. cbv zeta.
  repeat match goal with
         | |- preserves _ (if ?b then _ else _) => destruct b
         end;
    first [ apply store_generateWithLocalStableDiffusion
          | apply store_generateWithStableDiffusionAPI
          | apply store_generateWithReplicate
          | apply store_generateWithCustomStableDiffusion ].
Qed.

Lemma store_generateImage (o : Options.t) :
  preserves sessions (generateImage o).
Proof.
  unfold generateImage.
  apply preserves_bind; [apply store_initImageStorage|intros _].
  cbv zeta. apply preserves_bind.
  - repeat match goal with
           | |- preserves _ (if ?b then _ else _) => destruct b
           end;
      first [ apply store_generateWithDalle
            | apply store_generateWithGPT4o
            | apply store_generateWithStableDiffusion
            | apply preserves_ret ].
  - intros r. destruct (Result.success r); apply preserves_ret.
Qed.

Lemma store_load_for_analysis (u : jsstring) :
  preserves sessions (load_for_analysis u).
Proof. unfold load_for_analysis. store_known. Qed.

Lemma store_generateImageDescription (prompt : jsstring)
  (imageUrl apiKey apiEndpoint : option jsstring) :
  preserves sessions (generateImageDescription prompt imageUrl apiKey apiEndpoint).
Proof.
  unfold generateImageDescription.
  repeat first [apply store_load_for_analysis | store_known_step].
Qed.

Lemma store_refineImage_prompt (o rp : jsstring) (options : Options.t)
  (anns : option (list Annotation)) :
  preserves sessions (refineImage_prompt o rp options anns).
Proof.
  unfold refineImage_prompt.
  destruct (estimateImageDimensions (Options.size options)).
  apply preserves_bind.
  - repeat first [apply store_generateImageDescription | store_known_step].
  - intros options1.
    repeat match goal with
           | |- preserves _ (let '(_, _) := ?x in _) => destruct x
           end.
    apply preserves_ret.
Qed.

Lemma store_refineImage (o rp : jsstring) (options : Options.t)
  (anns : option (list Annotation)) :
  preserves sessions (refineImage o rp options anns).
Proof.
  unfold refineImage.
  apply preserves_bind; [apply store_refineImage_prompt|].
  intros [[p options1] anns1].
  apply preserves_bind; [apply store_generateImage|].
  intros r. destruct (Result.success r); apply preserves_ret.
Qed.

End GenerationKeepsStore.

(* ================================================================== *)
(** ** The session store *)
(* ================================================================== *)

Section Store.
Context {D : Defaults}.

Lemma has_session_nonempty (sessionId : jsstring) (l : list Session.t) :
  has_session sessionId l = true -> l <> [].
Proof. destruct l; [discriminate | discriminate]. Qed.

Lemma get_sessions_stored (sessionId : jsstring) (w : World) :
  has_session sessionId (sessions w) = true -> get_sessions w = sessions w.
Proof.
  unfold get_sessions. destruct (sessions w); [discriminate | reflexivity].
Qed.

Lemma find_append_in (sessionId : jsstring) (msg : Message.t)
  (l : list Session.t) :
  has_session sessionId l = true ->
  match find (fun s => jseqb (Session.id s) sessionId) (append_in sessionId msg l) with
  | Some s => Session.messages s
  | None => []
  end
  = match find (fun s => jseqb (Session.id s) sessionId) l with
    | Some s => Session.messages s
    | None => []
    end ++ [msg].
Proof.
  induction l as [|s l IH]; [discriminate|].
  simpl. destruct (jseqb (Session.id s) sessionId) eqn:Hs.
  - intros _. simpl. now rewrite Hs.
  - simpl. rewrite Hs. exact IH.
Qed.

Lemma has_session_append_in (sessionId : jsstring) (msg : Message.t)
  (l : list Session.t) :
  has_session sessionId (append_in sessionId msg l) = has_session sessionId l.
Proof.
  induction l as [|s l IH]; [reflexivity|].
  simpl. destruct (jseqb (Session.id s) sessionId) eqn:Hs; simpl;
    rewrite Hs; [reflexivity | exact IH].
Qed.

(** [insertMessage] into a stored session appends the message and touches
    nothing else. *)
Lemma insertMessage_stored (settings : Settings.t) (sessionId : jsstring)
  (msg : Message.t) (w : World) :
  has_session sessionId (sessions w) = true ->
  insertMessage settings sessionId msg w
  = (Ok tt, with_sessions (append_in sessionId msg (sessions w)) w).
Proof.
  intros Hs. unfold insertMessage, bind, ensureSessionExists.
  rewrite (get_sessions_stored _ _ Hs), Hs. cbv beta iota.
  rewrite Hs. cbn [negb].
  unfold put_sessions. fold (append_in sessionId msg (sessions w)).
  destruct (append_in sessionId msg (sessions w)) eqn:Ha; [|reflexivity].
  exfalso. apply (f_equal (has_session sessionId)) in Ha.
  rewrite has_session_append_in, Hs in Ha. discriminate Ha.
Qed.

Lemma handle_replaces_last (updated : Message.t) (before : list Message.t)
  (old : Message.t) :
  fresh_id (Message.id updated) before = true ->
  jseqb (Message.id old) (Message.id updated) = true ->
  handle updated false (before ++ [old]) = (before ++ [updated], true).
Proof.
  intros Hfresh Hold. unfold handle.
  assert (Hmap : map (fun m => if jseqb (Message.id m) (Message.id updated)
                               then updated else m) (before ++ [old])
                 = before ++ [updated]).
  { rewrite map_app. simpl. rewrite Hold. f_equal.
    induction before as [|m before IH]; [reflexivity|].
    simpl in Hfresh. apply andb_true_iff in Hfresh. destruct Hfresh as [Hm Hb].
    apply negb_true_iff in Hm. simpl. rewrite Hm. f_equal. now apply IH. }
  rewrite Hmap.
  rewrite existsb_app. simpl. rewrite Hold, orb_true_r. reflexivity.
Qed.

Lemma find_modify_in (sessionId : jsstring) (updated : Message.t)
  (l : list Session.t) (before : list Message.t) (old : Message.t) :
  match find (fun s => jseqb (Session.id s) sessionId) l with
  | Some s => Session.messages s
  | None => []
  end = before ++ [old] ->
  fresh_id (Message.id updated) before = true ->
  jseqb (Message.id old) (Message.id updated) = true ->
  match find (fun s => jseqb (Session.id s) sessionId)
          (modify_in sessionId updated false l) with
  | Some s => Session.messages s
  | None => []
  end = before ++ [updated].
Proof.
  intros Hfind Hfresh Hold.
  induction l as [|s l IH].
  - simpl in Hfind. destruct before; discriminate Hfind.
  - simpl in Hfind. simpl modify_in.
    destruct (jseqb (Session.id s) sessionId) eqn:Hs; cbn [negb].
    + rewrite Hfind, (handle_replaces_last updated before old Hfresh Hold).
      simpl. now rewrite Hs.
    + simpl. rewrite Hs. now apply IH.
Qed.

Lemma has_session_modify_in (sessionId : jsstring) (updated : Message.t)
  (l : list Session.t) :
  forall hasHandled,
    has_session sessionId (modify_in sessionId updated hasHandled l)
    = has_session sessionId l.
Proof.
  induction l as [|s l IH]; intros hasHandled; [reflexivity|].
  simpl. destruct (jseqb (Session.id s) sessionId) eqn:Hs; cbn [negb].
  - destruct (handle updated hasHandled (Session.messages s)) as [msgs h].
    simpl. now rewrite Hs.
  - simpl. rewrite Hs. apply IH.
Qed.

(** [modifyMessage] on the last message of a stored session replaces it
    by the update, stamped with the time of the call. *)
Lemma modifyMessage_stored (settings : Settings.t) (sessionId : jsstring)
  (updated : Message.t) (w : World) (before : list Message.t)
  (old : Message.t) :
  has_session sessionId (sessions w) = true ->
  session_messages sessionId w = before ++ [old] ->
  fresh_id (Message.id updated) before = true ->
  jseqb (Message.id old) (Message.id updated) = true ->
  exists w',
    modifyMessage settings sessionId updated w
    = (Ok (set_timestamp updated (now w)), w')
    /\ session_messages sessionId w'
       = before ++ [set_timestamp updated (now w)].
Proof.
  intros Hs Hmsgs Hfresh Hold.
  unfold modifyMessage, bind, Date_now, ensureSessionExists.
  rewrite (get_sessions_stored _ _ Hs), Hs. cbv beta iota.
  rewrite Hs. cbn [negb].
  unfold put_sessions, ret.
  set (l' := modify_in sessionId (set_timestamp updated (now w)) false (sessions w)).
  assert (Hl' : has_session sessionId l' = true)
    by (unfold l'; now rewrite has_session_modify_in).
  eexists. split; [reflexivity|].
  unfold session_messages. cbn [sessions with_sessions].
  destruct l' as [|s l''] eqn:El'; [discriminate Hl'|].
  rewrite <- El'. unfold l'.
  apply find_modify_in with (old := old); assumption.
Qed.

End Store.

(* ================================================================== *)
(** ** Reroll *)
(* ================================================================== *)

Lemma jseqb_refl (a : jsstring) : jseqb a a = true.
Proof. induction a as [|x a IH]; simpl; [reflexivity|]. now rewrite N.eqb_refl. Qed.

Lemma fresh_id_app (i : jsstring) (a b : list Message.t) :
  fresh_id i (a ++ b) = fresh_id i a && fresh_id i b.
Proof. unfold fresh_id. apply forallb_app. Qed.

Section Reroll.
Context {E : JsEngine} {D : Defaults}.




End Reroll.




(* ================================================================== *)
(** ** The boundary of the dispatcher *)
(* ================================================================== *)










Section Boundary.
Context {E : JsEngine}.













End Boundary.

Section BoundaryOfTwoProcesses.
Context {E : JsEngine} {N : NodeRuntime}.


End BoundaryOfTwoProcesses.



(* ================================================================== *)
(** ** The polled provider *)
(* ================================================================== *)

Lemma now_invoke (c : IpcCall) : preserves now (invoke c).
Proof.
  intros w o w' H. unfold invoke in H.
  destruct (bridge w) as [|[v|e] rest]; inversion H; reflexivity.
Qed.

Lemma now_Date_now : preserves now Date_now.
Proof. intros w o w' H. now inversion H. Qed.

Lemma now_uuidv4 : preserves now uuidv4.
Proof. intros w o w' H. now inversion H. Qed.

Lemma now_random1000 : preserves now random1000.
Proof. intros w o w' H. now inversion H. Qed.

Ltac now_step :=
  first
    [ progress cbv zeta
    | apply preserves_ret
    | apply preserves_throw
    | apply now_invoke
    | apply now_Date_now
    | apply now_uuidv4
    | apply now_random1000
    | apply preserves_must
    | apply preserves_settle
    | apply preserves_bind; [|intros ?]
    | apply preserves_try_catch; [|intros ?]
    | match goal with
      | |- preserves _ (if ?b then _ else _) => destruct b
      | |- preserves _ (match ?x with _ => _ end) => destruct x
      end ].

Lemma now_initImageStorage (customPath : option jsstring) :
  preserves now (initImageStorage customPath).
Proof.
  intros w o w' H. unfold initImageStorage in H.
  destruct (truthy_opt (baseImageDir w)); [now inversion H|].
  match type of H with
  | ?c w = _ => assert (Hs : preserves now c)
  end.
  { repeat now_step. intros w2 o2 w2' H2. now inversion H2. }
  exact (Hs _ _ _ H).
Qed.

Lemma now_getSessionDirectory (sessionId : jsstring) :
  preserves now (getSessionDirectory sessionId).
Proof.
  unfold getSessionDirectory. apply preserves_bind.
  - apply now_initImageStorage.
  - intros _ w o w' H.
    destruct (negb (truthy_opt (baseImageDir w))).
    + now inversion H.
    + cbv zeta in H.
      match type of H with
      | ?c w = _ => assert (Hs : preserves now c)
      end.
      { repeat now_step. }
      exact (Hs _ _ _ H).
Qed.

Lemma now_saveImageFromUrl (remote : jsval) (sessionId : jsstring) :
  preserves now (saveImageFromUrl remote sessionId).
Proof.
  unfold saveImageFromUrl, fresh_filename.
  apply preserves_try_catch.
  - apply preserves_bind; [apply now_getSessionDirectory|intros ?].
    repeat now_step.
  - intros e. repeat now_step.
Qed.

Section PolledProvider.
Context {E : JsEngine}.

Lemma now_store_remote (remote : jsval) (o : Options.t) :
  preserves now (store_remote remote o).
Proof.
  unfold store_remote. apply preserves_bind.
  - apply now_saveImageFromUrl.
  - intros u. apply preserves_ret.
Qed.

Lemma now_after_polling (o : Options.t) (result : jsval) :
  preserves now (after_polling o result).
Proof.
  unfold after_polling, throw_Error.
  repeat first [apply now_store_remote | now_step].
Qed.

Lemma silent_after_polling (o : Options.t) (result : jsval) :
  silent (after_polling o result).
Proof.
  unfold after_polling, throw_Error.
  repeat first [apply silent_store_remote | silent_step].
Qed.

(** The adapter from an accepted submission to a last answer of the
    provider, after [pend] answers of [pending]: the requests sent and the
    time waited, and the loop left with that answer. *)
Lemma replicate_run_to_answer (options : Options.t) (predictionUrl : jsval)
  (w : World) (submission last : Response + exn)
  (pend rest : list (Response + exn)) :
  truthy_opt (Options.stableDiffusionAPIKey options) = true ->
  net w = submission :: pend ++ last :: rest ->
  accepted submission predictionUrl ->
  forallb is_pending pend = true ->
  (List.length pend < maxAttempts)%nat ->
  let token := Options.stableDiffusionAPIKey options in
  exists rq result w2 k,
    net w2 = last :: rest
    /\ sent w2
       = sent w ++ rq :: repeat (poll_request predictionUrl token)
                           (List.length pend)
    /\ now w2 = (now w + pollInterval * N.of_nat (List.length pend))%N
    /\ generateWithReplicate options w
       = try_catch
           (result <- poll (S k) predictionUrl token result ;;
            after_polling options result)
           as_failure w2.
Proof.
  intros Hkey Hnet Hacc Hall Hlen token.
  destruct (generateWithReplicate_submitted options w Hkey Hnet Hacc)
    as [rq [w1 [Hnet1 [Hsent1 [Hnow1 Hrun]]]]].
  assert (Hstart : is_str (opt_get JUndefined "status") "succeeded" = false)
    by reflexivity.
  destruct (poll_pending_run pend (S (maxAttempts - 1 - List.length pend))
              predictionUrl token JUndefined w1 _ Hnet1 Hall Hstart)
    as [result' [w2 [Hpoll [Hnet2 [_ [Hsent2 Hnow2]]]]]].
  exists rq, result', w2, (maxAttempts - 1 - List.length pend)%nat.
  split; [exact Hnet2|].
  split; [rewrite Hsent2, Hsent1, <- app_assoc; reflexivity|].
  split; [rewrite Hnow2, Hnow1; reflexivity|].
  rewrite Hrun. fold token.
  replace maxAttempts
    with (List.length pend + S (maxAttempts - 1 - List.length pend))%nat
    at 1 by lia.
  unfold try_catch, bind. now rewrite Hpoll.
Qed.

End PolledProvider.

(** C7, as stated, fails: five polls answered [pending] and then one
    answered [succeeded] without an output give a failure. *)
Lemma replicate_succeeded_without_output :
  let w :=
    with_replies
      (submission_reply "https://api.replicate.com/v1/predictions/p1"
       :: repeat (status_reply "pending") 5
       ++ [status_reply "succeeded"])
      [] None in
  fst (generateWithReplicate (E := sample_engine)
         (sample_options StableDiffusion) w)
  = Ok (Result.failed (lit "No image URL returned from Replicate")).
Proof. vm_compute. reflexivity. Qed.

(** C7, amended.  With an API key configured and the submission accepted,
    [ask] being the poll request.  The loop sends at most 30 polls: it
    waits 2000 ms after each of them when all 30 are used up, and after
    each but the last when it stops at an answer.  After fewer than 30
    polls answered pending (5 among them), exactly one more poll is sent
    and nothing is waited for after it: answered [succeeded] with a first
    output it gives [success: true], answered [succeeded] without one the
    failure "No image URL returned from Replicate", answered [failed] a
    failure carrying the provider's report.  Thirty polls answered pending
    give the failure "Timed out waiting for Replicate to generate image"
    after 30 polls and 60000 ms. *)
Theorem replicate_polling {E : JsEngine}
  (options : Options.t) (predictionUrl : jsval) :
  truthy_opt (Options.stableDiffusionAPIKey options) = true ->
  let token := Options.stableDiffusionAPIKey options in
  let ask := poll_request predictionUrl token in
  (forall result w w' o,
      poll maxAttempts predictionUrl token result w = (o, w') ->
      exists polls,
        sent w' = sent w ++ repeat ask polls
        /\ (polls <= 30)%nat
        /\ ((polls = 30%nat /\ now w' = (now w + 60000)%N)
            \/ ((1 <= polls)%nat
                /\ now w' = (now w + 2000 * N.of_nat (polls - 1))%N)))
  /\ (forall w submission pend last rest v,
        net w = submission :: pend ++ last :: rest ->
        accepted submission predictionUrl ->
        forallb is_pending pend = true ->
        (List.length pend < 30)%nat ->
        reply_json last = Some v ->
        is_str (opt_get v "status") "succeeded" = true ->
        exists r w' rq,
          generateWithReplicate options w = (Ok r, w')
          /\ sent w' = sent w ++ rq :: repeat ask (S (List.length pend))
          /\ now w' = (now w + 2000 * N.of_nat (List.length pend))%N
          /\ (truthy (opt_index0 (opt_get v "output")) = true ->
              exists localImageUrl, r = Result.succeeded localImageUrl)
          /\ (truthy (opt_index0 (opt_get v "output")) = false ->
              r = Result.failed (lit "No image URL returned from Replicate")))
  /\ (forall w submission pend bad rest,
        net w = submission :: pend ++ bad :: rest ->
        accepted submission predictionUrl ->
        forallb is_pending pend = true ->
        (List.length pend < 30)%nat ->
        is_failed bad = true ->
        exists report w' rq,
          generateWithReplicate options w
          = (Ok (Result.failed (lit "Replicate generation failed: " ++ report)),
             w')
          /\ sent w' = sent w ++ rq :: repeat ask (S (List.length pend))
          /\ now w' = (now w + 2000 * N.of_nat (List.length pend))%N)
  /\ (forall w submission pend rest,
        net w = submission :: pend ++ rest ->
        accepted submission predictionUrl ->
        forallb is_pending pend = true ->
        List.length pend = 30%nat ->
        exists w' rq,
          generateWithReplicate options w
          = (Ok (Result.failed
                   (lit "Timed out waiting for Replicate to generate image")),
             w')
          /\ sent w' = sent w ++ rq :: repeat ask 30
          /\ now w' = (now w + 60000)%N).
Proof.
  intros Hkey token ask.
  assert (Hstart : is_str (opt_get JUndefined "status") "succeeded" = false)
    by reflexivity.
  assert (Hrepeat : forall (rq : Request) (l : list Request) n,
            (l ++ rq :: repeat ask n) ++ [ask]
            = l ++ rq :: repeat ask (S n)).
  { intros rq l n. rewrite <- app_assoc. cbn [app]. do 2 f_equal.
    cbn [repeat]. rewrite repeat_cons. reflexivity. }
  split; [|split; [|split]].
  - intros result w w' o Hrun.
    destruct (poll_counted maxAttempts predictionUrl token result w Hrun)
      as [polls [Hsent [Hle Hnow]]].
    exists polls. split; [exact Hsent|]. unfold maxAttempts in *.
    split; [exact Hle|]. unfold pollInterval in Hnow.
    destruct Hnow as [[Hk Hnow]|[Hk Hnow]]; [left|right]; split;
      try assumption; lia.
  - intros w submission pend last rest v Hnet Hacc Hall Hlen Hv Hs.
    destruct (@replicate_run_to_answer _ options predictionUrl w submission
                last pend rest Hkey Hnet Hacc Hall Hlen)
      as [rq [result [w2 [k [Hnet2 [Hsent2 [Hnow2 Hrun]]]]]]].
    fold token in Hsent2, Hrun. fold ask in Hsent2.
    pose proof (@poll_succeeded_step _ k predictionUrl token result v w2 last
                  rest Hnet2 Hv Hs) as Hstep.
    fold ask in Hstep. unfold pollInterval in Hnow2.
    destruct (truthy (opt_index0 (opt_get v "output"))) eqn:Hout.
    + destruct (after_polling_succeeded options v (with_net rest ask w2) Hs Hout)
        as [u [w4 Hafter]].
      exists (Result.succeeded u), w4, rq.
      split.
      { rewrite Hrun. apply try_catch_Ok. unfold bind. rewrite Hstep.
        exact Hafter. }
      rewrite (silent_after_polling options v _ Hafter),
        (now_after_polling options v _ Hafter).
      cbn [sent now with_net]. rewrite Hsent2, Hnow2, Hrepeat.
      split; [reflexivity|]. split; [reflexivity|].
      split; [intros _; now exists u|discriminate].
    + exists (Result.failed (lit "No image URL returned from Replicate")),
        (with_net rest ask w2), rq.
      split.
      { rewrite Hrun. unfold try_catch, bind. rewrite Hstep.
        rewrite (after_polling_no_output options v _ Hs Hout). reflexivity. }
      cbn [sent now with_net]. rewrite Hsent2, Hnow2, Hrepeat.
      split; [reflexivity|]. split; [reflexivity|].
      split; [discriminate|reflexivity].
  - intros w submission pend bad rest Hnet Hacc Hall Hlen Hbad.
    destruct (@replicate_run_to_answer _ options predictionUrl w submission
                bad pend rest Hkey Hnet Hacc Hall Hlen)
      as [rq [result [w2 [k [Hnet2 [Hsent2 [Hnow2 Hrun]]]]]]].
    fold token in Hsent2, Hrun. fold ask in Hsent2.
    destruct (@poll_failed_step _ k predictionUrl token result w2 bad rest
                Hnet2 Hbad) as [report Hstep].
    fold ask in Hstep. unfold pollInterval in Hnow2.
    exists report, (with_net rest ask w2), rq.
    split.
    { rewrite Hrun. unfold try_catch, bind. rewrite Hstep. reflexivity. }
    cbn [sent now with_net]. rewrite Hsent2, Hnow2, Hrepeat.
    split; reflexivity.
  - intros w submission pend rest Hnet Hacc Hall Hlen.
    destruct (generateWithReplicate_submitted options w Hkey Hnet Hacc)
      as [rq [w1 [Hnet1 [Hsent1 [Hnow1 Hrun]]]]].
    destruct (poll_pending_run pend 0 predictionUrl
                token JUndefined w1 _ Hnet1 Hall Hstart)
      as [result' [w2 [Hpoll [Hnet2 [Hres [Hsent2 Hnow2]]]]]].
    exists w2, rq.
    split.
    { rewrite Hrun. fold token.
      replace maxAttempts with (List.length pend + 0)%nat
        by (unfold maxAttempts; lia).
      unfold try_catch, bind. rewrite Hpoll. cbn [poll ret].
      rewrite (after_polling_timed_out options result' w2 Hres). reflexivity. }
    fold ask in Hsent2. rewrite Hsent2, Hnow2, Hsent1, Hnow1, Hlen.
    rewrite <- app_assoc. split; [reflexivity|]. unfold pollInterval. lia.
Qed.

Lemma replicate_polling_witness :
  let options := sample_options StableDiffusion in
  let w :=
    with_replies
      (submission_reply "https://api.replicate.com/v1/predictions/p1"
       :: repeat (status_reply "pending") 5
       ++ [output_reply "succeeded" "https://replicate.delivery/out-0.png"])
      [] None in
  truthy_opt (Options.stableDiffusionAPIKey options) = true
  /\ exists r w',
       generateWithReplicate (E := sample_engine) options w = (Ok r, w')
       /\ Result.success r = true
       /\ List.length (sent w') = 7%nat
       /\ now w' = (now w + 10000)%N.
Proof.
  cbv zeta. split; [reflexivity|].
  destruct (proj1 (proj2
           (@replicate_polling sample_engine
              (sample_options StableDiffusion)
              (JStr (lit "https://api.replicate.com/v1/predictions/p1"))
              eq_refl))
      (with_replies
         (submission_reply "https://api.replicate.com/v1/predictions/p1"
          :: repeat (status_reply "pending") 5
          ++ [output_reply "succeeded" "https://replicate.delivery/out-0.png"])
         [] None)
      (submission_reply "https://api.replicate.com/v1/predictions/p1")
      (repeat (status_reply "pending") 5)
      (output_reply "succeeded" "https://replicate.delivery/out-0.png")
      []
      (JObj [ (lit "status", JStr (lit "succeeded"));
              (lit "output",
               JArr [ JStr (lit "https://replicate.delivery/out-0.png") ]) ]))
    as [r [w' [rq [Hrun [Hsent [Hnow [Hyes _]]]]]]].
  - reflexivity.
  - unfold accepted, submission_reply, json_reply.
    eexists _, _, _. repeat split; reflexivity.
  - reflexivity.
  - apply Nat.ltb_lt. reflexivity.
  - reflexivity.
  - reflexivity.
  - exists r, w'. split; [exact Hrun|].
    destruct (Hyes eq_refl) as [u ->].
    split; [reflexivity|]. rewrite Hsent, Hnow. split; reflexivity.
Defined.

(* ================================================================== *)
(** ** The custom provider *)
(* ================================================================== *)

Section CustomProvider.
Context {E : JsEngine}.







End CustomProvider.



(* ================================================================== *)
(** ** The prompt the chat-model-mediated adapter sends *)
(* ================================================================== *)

Section EnrichedPrompt.
Context {E : JsEngine}.

Lemma gpt4o_image_request_fields (options : Options.t) (p : jsval) :
  images_request_with options p (gpt4o_image_request options p).
Proof.
  unfold images_request_with, gpt4o_image_request, post. cbn [url method headers body].
  split; [reflexivity|]. split; [reflexivity|]. split; [reflexivity|].
  eexists. split; [reflexivity|]. repeat split; reflexivity.
Qed.

(** From the images request on, the adapter sends that one request. *)
Lemma gpt4o_generate_sends_request (options : Options.t) (p : jsval)
  (w : World) :
  exists rq,
    sent (snd (try_catch (gpt4o_generate options p) as_failure w))
    = sent w ++ [rq]
    /\ images_request_with options p rq.
Proof.
  exists (gpt4o_image_request options p).
  split; [apply gpt4o_generate_sends_once|apply gpt4o_image_request_fields].
Qed.

End EnrichedPrompt.

(** C9.  The enrichment step of [generateWithGPT4o], attempted with an
    API key.  When [enhancePromptWithGPT4o] throws, the adapter goes on
    exactly as a request without enrichment would from the world the
    failed attempt left, and the one request it then sends to the images
    endpoint holds [options.prompt] as its prompt.  When it returns a
    value that is no string, the line that logs
    [enhancedPrompt.substring(0, 100)] throws inside the same [try]; the
    [catch] (Continue with original prompt if enhancement fails) leaves
    the assignment in place, and the request sent holds that value in
    place of the prompt. *)
Theorem gpt4o_enrichment_failure_prompt {E : JsEngine}
  (options : Options.t) (w : World) :
  truthy_opt (Options.apiKey options) = true ->
  Options.uploadPreviousImage options = Some true ->
  truthy_opt (Options.imageUrl options) = true ->
  (forall e w1,
      enhancePromptWithGPT4o options w = (Thrown e, w1) ->
      generateWithGPT4o options w
      = generateWithGPT4o (Options.set_uploadPreviousImage options None) w1
      /\ exists rq,
           sent (snd (generateWithGPT4o options w)) = sent w1 ++ [rq]
           /\ images_request_with options (JStr (Options.prompt options)) rq)
  /\ (forall enhanced w1,
        enhancePromptWithGPT4o options w = (Ok enhanced, w1) ->
        is_string enhanced = false ->
        enhanced <> JStr (Options.prompt options)
        /\ exists rq,
             sent (snd (generateWithGPT4o options w)) = sent w1 ++ [rq]
             /\ images_request_with options enhanced rq).
Proof.
  intros Hkey Hup Himg. split.
  - intros e w1 Hthrow.
    assert (Hen : enhance_or_keep options w
                  = (Ok (JStr (Options.prompt options)), w1)).
    { unfold enhance_or_keep. rewrite Hup, Himg. cbn [andb].
      unfold try_catch. rewrite Hthrow. reflexivity. }
    rewrite (generateWithGPT4o_after_enhance options w Hkey Hen).
    split.
    + symmetry.
      apply (generateWithGPT4o_after_enhance
               (Options.set_uploadPreviousImage options None) w1 Hkey).
      reflexivity.
    + apply gpt4o_generate_sends_request.
  - intros enhanced w1 Hrun Hns.
    split; [intros ->; discriminate Hns|].
    assert (Hen : enhance_or_keep options w = (Ok enhanced, w1)).
    { unfold enhance_or_keep. rewrite Hup, Himg. cbn [andb].
      unfold try_catch. now rewrite Hrun. }
    rewrite (generateWithGPT4o_after_enhance options w Hkey Hen).
    apply gpt4o_generate_sends_request.
Qed.

Lemma gpt4o_enrichment_failure_prompt_witness :
  let parts := JArr [ JObj [ (lit "type", JStr (lit "text"));
                             (lit "text", JStr (lit "a lighthouse, vivid")) ] ] in
  let chat :=
    JObj [ (lit "choices",
            JArr [ JObj [ (lit "message",
                           JObj [ (lit "content", parts) ]) ] ]) ] in
  let w :=
    with_replies
      [json_reply chat;
       error_reply "Bad Request" (JObj [])]
      [] None in
  exists rq fields,
    sent (snd (generateWithGPT4o (E := sample_engine) sample_enrich_options w))
    = sent (snd (enhancePromptWithGPT4o (E := sample_engine)
                   sample_enrich_options w)) ++ [rq]
    /\ body rq = Some (JObj fields)
    /\ lookup (lit "prompt") fields = parts
    /\ fst (generateWithGPT4o (E := sample_engine) sample_enrich_options w)
       = Ok (Result.failed (lit "DALL-E API Error: {}")).
Proof.
  cbv zeta.
  match goal with
  | |- context [enhancePromptWithGPT4o ?o ?w0] =>
      assert (Hrun : enhancePromptWithGPT4o (E := sample_engine) o w0
                     = (Ok (JArr [ JObj [ (lit "type", JStr (lit "text"));
                                          (lit "text",
                                           JStr (lit "a lighthouse, vivid")) ] ]),
                        snd (enhancePromptWithGPT4o (E := sample_engine) o w0)))
        by (vm_compute; reflexivity);
      destruct (proj2 (@gpt4o_enrichment_failure_prompt sample_engine o w0
                         eq_refl eq_refl eq_refl) _ _ Hrun eq_refl)
        as [_ [rq [Hsent [_ [_ [_ [fields [Hbody [_ [Hprompt _]]]]]]]]]]
  end.
  exists rq, fields. split; [exact Hsent|]. split; [exact Hbody|].
  split; [exact Hprompt|]. vm_compute. reflexivity.
Defined.

(* ================================================================== *)
(** ** Further properties: coordinate normaliser and region describer *)
(* ================================================================== *)

Lemma pair_induction (A : Type) (P : list A -> Prop) :
  P [] -> (forall a, P [a]) -> (forall a b l, P l -> P (a :: b :: l)) ->
  forall l, P l.
Proof.
  intros H0 H1 H2.
  assert (H : forall l, P l /\ forall a, P (a :: l)).
  { induction l as [|b l [IH1 IH2]]; split; auto. }
  intros l. apply H.
Qed.

(** The loop of [normalizeFreehandCoordinates] keeps every point between
    the running minima and maxima, and only widens the bounds. *)
Lemma freehand_bounds_spec (qs : list Q) :
  Nat.even (List.length qs) = true ->
  forall minX minY maxX maxY,
    is_number minX = true -> is_number minY = true ->
    is_number maxX = true -> is_number maxY = true ->
    exists a b c d,
      freehand_bounds (map Fin qs) (minX, minY, maxX, maxY) = (a, b, c, d)
      /\ (is_number a = true /\ is_number b = true
          /\ is_number c = true /\ is_number d = true)
      /\ (leb a minX = true /\ leb b minY = true
          /\ leb maxX c = true /\ leb maxY d = true)
      /\ forall x y, In (x, y) (points (map Fin qs)) ->
           leb a x = true /\ leb x c = true
           /\ leb b y = true /\ leb y d = true.
Proof.
  induction qs as [|q|qx qy l IH] using pair_induction.
  - intros _ minX minY maxX maxY Ha Hb Hc Hd.
    exists minX, minY, maxX, maxY. simpl.
    split; [reflexivity|]. split; [now repeat split|].
    split; [repeat split; now apply leb_is_number_refl|].
    intros x y [].
  - discriminate.
  - intros Hev minX minY maxX maxY Ha Hb Hc Hd.
    specialize (IH Hev).
    destruct (Math_min_spec minX (Fin qx) Ha eq_refl) as [Na [La1 La2]].
    destruct (Math_min_spec minY (Fin qy) Hb eq_refl) as [Nb [Lb1 Lb2]].
    destruct (Math_max_spec maxX (Fin qx) Hc eq_refl) as [Nc [Lc1 Lc2]].
    destruct (Math_max_spec maxY (Fin qy) Hd eq_refl) as [Nd [Ld1 Ld2]].
    destruct (IH _ _ _ _ Na Nb Nc Nd)
      as [a [b [c [d [Hrun [Hnum [[Ga [Gb [Gc Gd]]] Hpts]]]]]]].
    exists a, b, c, d.
    split; [exact Hrun|]. split; [exact Hnum|]. split.
    + split; [exact (leb_trans _ _ _ Ga La1)|].
      split; [exact (leb_trans _ _ _ Gb Lb1)|].
      split; [exact (leb_trans _ _ _ Lc1 Gc)|].
      exact (leb_trans _ _ _ Ld1 Gd).
    + intros x y [Heq|Hin].
      * inversion Heq; subst x y.
        split; [exact (leb_trans _ _ _ Ga La2)|].
        split; [exact (leb_trans _ _ _ Lc2 Gc)|].
        split; [exact (leb_trans _ _ _ Gb Lb2)|].
        exact (leb_trans _ _ _ Ld2 Gd).
      * now apply Hpts.
Qed.

(** X1.  [normalizeFreehandCoordinates] returns the bounding box of the
    drawing: for a drawing [x1, y1, x2, y2, ...] of finite coordinates on
    an image of positive size, every point divided by the image size lies
    between the bounds returned, on both axes; for a drawing without points
    the bounds are [Infinity] (minima) and [-Infinity] (maxima). *)
Theorem normalizeFreehandCoordinates_bounding_box (qs : list Q) (w h : Q) :
  Nat.even (List.length qs) = true -> 0 < w -> 0 < h ->
  let r := normalizeFreehandCoordinates (map Fin qs) (Fin w) (Fin h) in
  (forall x y, In (x, y) (points (map Fin qs)) ->
     leb (x1 r) (div x (Fin w)) = true /\ leb (div x (Fin w)) (x2 r) = true
     /\ leb (y1 r) (div y (Fin h)) = true /\ leb (div y (Fin h)) (y2 r) = true)
  /\ normalizeFreehandCoordinates [] (Fin w) (Fin h)
     = {| x1 := PInf; y1 := PInf; x2 := NInf; y2 := NInf |}.
Proof.
  intros Hev Hw Hh r. split.
  - intros x y Hin. subst r. unfold normalizeFreehandCoordinates.
    destruct (freehand_bounds_spec qs Hev PInf PInf NInf NInf
                eq_refl eq_refl eq_refl eq_refl)
      as [a [b [c [d [Hrun [[Na [Nb [Nc Nd]]] [_ Hpts]]]]]]].
    rewrite Hrun. cbn [x1 y1 x2 y2].
    destruct (Hpts x y Hin) as [Hax [Hxc [Hby Hyd]]].
    assert (Nx : is_number x = true /\ is_number y = true).
    { clear - Hin. revert Hin.
      induction qs as [|q|qx qy l IH] using pair_induction; simpl.
      - intros [].
      - intros [].
      - intros [Heq|Hin]; [inversion Heq; now split | now apply IH]. }
    destruct Nx as [Nx Ny].
    split; [now apply div_positive_mono|].
    split; [now apply div_positive_mono|].
    split; now apply div_positive_mono.
  - unfold normalizeFreehandCoordinates. cbn [freehand_bounds div].
    assert (Hn : forall v, 0 < v -> sign_neg v = false).
    { intros v Hv. unfold sign_neg, Qltb. apply negb_false_iff, Qle_bool_iff.
      now apply Qlt_le_weak. }
    now rewrite (Hn w Hw), (Hn h Hh).
Qed.

Lemma normalizeFreehandCoordinates_bounding_box_witness :
  let qs := [100; 300; 400; 200; 250; 50] in
  let r := normalizeFreehandCoordinates (map Fin qs) (Fin 1000) (Fin 500) in
  (Nat.even (List.length qs) = true /\ 0 < 1000 /\ 0 < 500)
  /\ (In (Fin 400, Fin 200) (points (map Fin qs)) ->
      leb (x1 r) (div (Fin 400) (Fin 1000)) = true
      /\ leb (div (Fin 400) (Fin 1000)) (x2 r) = true
      /\ leb (y1 r) (div (Fin 200) (Fin 500)) = true
      /\ leb (div (Fin 200) (Fin 500)) (y2 r) = true).
Proof.
  cbv zeta.
  assert (H1 : Nat.even (List.length [100; 300; 400; 200; 250; 50]) = true)
    by reflexivity.
  assert (H2 : 0 < 1000) by reflexivity.
  assert (H3 : 0 < 500) by reflexivity.
  split; [now repeat split|].
  exact (proj1 (normalizeFreehandCoordinates_bounding_box
                  [100; 300; 400; 200; 250; 50] H1 H2 H3)
           (Fin 400) (Fin 200)).
Defined.

(** *** Percentages and grid label of a described region *)

(** X2.  What a description prints.  For a region whose four bounds
    are numbers, whatever its type, the description names the cell of the
    grid whose bands hold the midpoint of the clamped region and prints
    the four clamped bounds as whole percentages from 0 to 100; for a
    rectangle it also prints the differences of the clamped bounds, whole
    percentages from -100 to 100 that are negative only when the bounds
    are reversed. *)
Theorem describeRegion_percentages {E : JsEngine} (ty : AnnotationType)
  (r : Region) :
  numeric r = true ->
  describes ty (clamped_copy r) (describeRegion ty r)
  /\ in_unit_square (clamped_copy r).
Proof.
  intros Hr. split; [now apply describeRegion_describes|].
  unfold numeric in Hr. rewrite !andb_true_iff in Hr.
  destruct Hr as [[[Na Nb] Nc] Nd].
  assert (Hunit : forall v, is_number v = true -> in_unit (unit_clamp v)).
  { intros v Nv. destruct (unit_clamp_number v Nv) as [q [-> Hq]].
    unfold in_unit, of_Z. change (inject_Z 0) with 0. change (inject_Z 1) with 1.
    now rewrite !leb_Fin. }
  unfold in_unit_square, clamped_copy. cbn [x1 y1 x2 y2].
  repeat split; now apply Hunit.
Qed.

Lemma describeRegion_percentages_witness :
  let r := {| x1 := num (8 # 10); y1 := Fin 0; x2 := num (4 # 10); y2 := PInf |} in
  numeric r = true
  /\ describes rectangle (clamped_copy r)
       (describeRegion (E := sample_engine) rectangle r).
Proof.
  cbv zeta. split; [reflexivity|].
  exact (proj1 (@describeRegion_percentages sample_engine rectangle
                  {| x1 := num (8 # 10); y1 := Fin 0;
                     x2 := num (4 # 10); y2 := PInf |} eq_refl)).
Defined.

Lemma find_some_filter (A B : Type) (f : A * B -> bool) (l : list (A * B))
  (e : A * B) :
  find f l = Some e -> In (fst e) (map fst (filter f l)).
Proof.
  intros H. apply find_some in H. apply in_map, filter_In. exact H.
Qed.

(** A point whose coordinates each lie in a band lies in a cell of the
    grid. *)
Lemma grid_covers_bands (centerX centerY : jsnum) :
  band centerY <> None -> band centerX <> None ->
  find (fun entry => in_section centerX centerY (snd entry)) GRID_SECTIONS
  <> None.
Proof.
  cbv beta iota delta
    [find GRID_SECTIONS in_section mkRegion x1 x2 y1 y2 snd fst geb band].
  abstract_comparisons centerX.
  intros a0 a1 a2 a3 a4 a5.
  destruct a0, a1, a2, a3, a4, a5; cbv beta iota delta [andb];
    abstract_comparisons centerY;
    intros [] [] [] [] [] [] Hy Hx; solve [discriminate | now elim Hy | now elim Hx].
Qed.

Lemma centroid_clamped (r : Region) :
  numeric r = true ->
  exists cx cy,
    centroid (clampRegion r) = (Fin cx, Fin cy)
    /\ 0 <= cx <= 1 /\ 0 <= cy <= 1.
Proof.
  unfold numeric. rewrite !andb_true_iff. intros [[[Ha Hb] Hc] Hd].
  destruct (clamp01_number _ Ha) as [a [Ea Ba]].
  destruct (clamp01_number _ Hb) as [b [Eb Bb]].
  destruct (clamp01_number _ Hc) as [c [Ec Bc]].
  destruct (clamp01_number _ Hd) as [d [Ed Bd]].
  unfold centroid, clampRegion. cbn [x1 y1 x2 y2].
  rewrite Ea, Eb, Ec, Ed.
  fold (midpoint (Fin a) (Fin c)). fold (midpoint (Fin b) (Fin d)).
  destruct (midpoint_unit Ba Bc) as [mx [-> Bmx]].
  destruct (midpoint_unit Bb Bd) as [my [-> Bmy]].
  now exists mx, my.
Qed.

(** X3.  After clamping, the grid label is never the fallback: for a
    region whose four bounds are numbers, the label used in the
    description names a cell whose closed rectangle holds the centroid of
    the clamped region. *)
Theorem getGridSection_clamped_names_containing_cell (r : Region) :
  numeric r = true ->
  In (getGridSection (clampRegion r)) (cells_containing (clampRegion r)).
Proof.
  intros Hr.
  destruct (centroid_clamped r Hr) as [cx [cy [Hc [Hx Hy]]]].
  unfold getGridSection, cells_containing. rewrite Hc.
  destruct (band_of_unit Hx) as [col Hcol].
  destruct (band_of_unit Hy) as [row Hrow].
  destruct (find (fun entry => in_section (Fin cx) (Fin cy) (snd entry))
              GRID_SECTIONS) as [[name region]|] eqn:Hf.
  - exact (find_some_filter _ _ Hf).
  - exfalso. apply (@grid_covers_bands (Fin cx) (Fin cy)); [| |exact Hf];
      congruence.
Qed.

Lemma getGridSection_clamped_names_containing_cell_witness :
  let r := {| x1 := Fin (-(1 # 4)); y1 := Fin (7 # 10);
              x2 := Fin (1 # 2); y2 := PInf |} in
  numeric r = true
  /\ In (getGridSection (clampRegion r)) (cells_containing (clampRegion r)).
Proof.
  cbv zeta. split; [reflexivity|].
  exact (getGridSection_clamped_names_containing_cell
           {| x1 := Fin (-(1 # 4)); y1 := Fin (7 # 10);
              x2 := Fin (1 # 2); y2 := PInf |} eq_refl).
Defined.

(** *** The cached spatial reference *)

Section SpatialCache.
Context {E : JsEngine}.

Lemma describeRegion_truthy (ty : AnnotationType) (r : Region) :
  truthy_str (describeRegion ty r) = true.
Proof.
  destruct (describeRegion_opening ty r) as [rest ->]. reflexivity.
Qed.

(** Outside the 1x1 case a generated description is not empty. *)
Lemma generateSpatialDescription_truthy (a : Annotation) (W H : jsnum) :
  eqb W (of_Z 1) && eqb H (of_Z 1) = false ->
  truthy_str (fst (generateSpatialDescription a W H)) = true
  /\ feedback (snd (generateSpatialDescription a W H)) = feedback a.
Proof.
  intros Hdim. unfold generateSpatialDescription.
  destruct (normalizedCoordinates a) as [coords|].
  - split; [apply describeRegion_truthy | reflexivity].
  - rewrite Hdim. split; [apply describeRegion_truthy | reflexivity].
Qed.

(** One annotation: once described, it is described the same way
    whatever the image size given later. *)
Lemma describeAnnotation_cached (W H W' H' : jsnum) (index : nat)
  (a : Annotation) :
  eqb W (of_Z 1) && eqb H (of_Z 1) = false ->
  describeAnnotation W' H' index (snd (describeAnnotation W H index a))
  = describeAnnotation W H index a
  /\ truthy_opt (spatialReference (snd (describeAnnotation W H index a))) = true.
Proof.
  intros Hdim. unfold describeAnnotation at 2 3 4.
  destruct (truthy_opt (spatialReference a)) eqn:Hs.
  - cbn [snd]. unfold describeAnnotation.
    destruct (spatialReference a) as [s|] eqn:Ha; [|discriminate Hs].
    cbn [truthy_opt] in Hs. cbn [or_str]. rewrite Hs.
    cbn [spatialReference set_spatialReference truthy_opt or_str feedback].
    rewrite Hs. split; reflexivity.
  - destruct (generateSpatialDescription_truthy a W H Hdim) as [Ht Hf].
    destruct (generateSpatialDescription a W H) as [d a1].
    cbn [fst snd] in *. unfold describeAnnotation.
    cbn [spatialReference set_spatialReference truthy_opt or_str feedback].
    rewrite Ht, Hf. split; reflexivity.
Qed.

Lemma describeAnnotations_cached (W H W' H' : jsnum) (l : list Annotation) :
  eqb W (of_Z 1) && eqb H (of_Z 1) = false ->
  forall index,
    describeAnnotations W' H' index (map snd (describeAnnotations W H index l))
    = describeAnnotations W H index l
    /\ Forall (fun a => truthy_opt (spatialReference a) = true)
         (map snd (describeAnnotations W H index l)).
Proof.
  intros Hdim. induction l as [|a l IH]; intros index.
  - split; [reflexivity | constructor].
  - cbn [describeAnnotations map].
    destruct (describeAnnotation_cached W H W' H' index a Hdim) as [H1 H2].
    destruct (IH (S index)) as [H3 H4].
    rewrite H1, H3. split; [reflexivity | now constructor].
Qed.

End SpatialCache.

(** X4.  The spatial reference is cached on the annotation: after
    [generateAnnotationsDescription] has run on an image that is not
    1x1, every annotation carries a non-empty spatial reference, and a
    second run on the annotations it left gives the same text and leaves
    them unchanged, whatever image size the second run is given. *)
Theorem generateAnnotationsDescription_cached {E : JsEngine}
  (l : list Annotation) (W H W' H' : jsnum) :
  eqb W (of_Z 1) && eqb H (of_Z 1) = false ->
  exists text l1,
    generateAnnotationsDescription (Some l) W H = (text, Some l1)
    /\ generateAnnotationsDescription (Some l1) W' H' = (text, Some l1)
    /\ List.length l1 = List.length l
    /\ Forall (fun a => truthy_opt (spatialReference a) = true) l1.
Proof.
  intros Hdim.
  destruct l as [|a l].
  - exists [], []. repeat split. constructor.
  - destruct (describeAnnotations_cached W H W' H' (a :: l) Hdim 0)
      as [H1 H2].
    exists (join (nl ++ nl) (map fst (describeAnnotations W H 0 (a :: l)))),
      (map snd (describeAnnotations W H 0 (a :: l))).
    split; [reflexivity|]. split.
    + unfold generateAnnotationsDescription.
      cbn [describeAnnotations map] in *.
      injection H1 as Hhead Htail. now rewrite Hhead, Htail.
    + split; [|exact H2].
      rewrite length_map.
      generalize 0%nat. generalize (a :: l). clear.
      induction l as [|b l IH]; intros n; [reflexivity|].
      cbn [describeAnnotations List.length]. now rewrite IH.
Qed.

Lemma generateAnnotationsDescription_cached_witness :
  let l := [rectangle_annotation 100 200 300 400;
            rectangle_annotation 600 50 200 100] in
  eqb (Fin 1024) (of_Z 1) && eqb (Fin 1024) (of_Z 1) = false
  /\ exists text l1,
       generateAnnotationsDescription (E := sample_engine) (Some l)
         (Fin 1024) (Fin 1024) = (text, Some l1)
       /\ generateAnnotationsDescription (E := sample_engine) (Some l1)
            (Fin 1) (Fin 1) = (text, Some l1)
       /\ List.length l1 = List.length l
       /\ Forall (fun a => truthy_opt (spatialReference a) = true) l1.
Proof.
  cbv zeta. split; [reflexivity|].
  exact (generateAnnotationsDescription_cached (E := sample_engine)
           [rectangle_annotation 100 200 300 400;
            rectangle_annotation 600 50 200 100]
           (Fin 1024) (Fin 1024) (Fin 1) (Fin 1) eq_refl).
Defined.

(** *** The refinement prompt *)

Ltac len_literals :=
  repeat match goal with
    | |- context [len (lit ?s)] =>
        let n := eval vm_compute in (len (lit s)) in
        change (len (lit s)) with n
    end.

Lemma includes_skip (a s p : jsstring) :
  includes s p = true -> includes (a ++ s) p = true.
Proof.
  intros H. induction a as [|c a IH]; [exact H|].
  cbn [app]. rewrite includes_unfold, IH. apply orb_true_r.
Qed.

Lemma includes_prefix (p after : jsstring) : includes (p ++ after) p = true.
Proof. exact (includes_intro [] p after). Qed.

(** X26.  [generateRefinementPrompt] keeps the prompt bounded: the
    original prompt is always quoted in it in full, and whatever the
    length of the image description (of which at most the first 800
    characters and an ellipsis are used), the prompt is at most 1029
    characters longer than the original prompt, the global feedback and
    the description of the annotated regions together. *)
Theorem generateRefinementPrompt_length {E : JsEngine}
  (originalImage : OriginalImage) (annotations : option (list Annotation))
  (globalFeedback : option jsstring) :
  let prompt :=
    fst (generateRefinementPrompt originalImage annotations globalFeedback) in
  (len prompt
   <= 1029 + len (oi_prompt originalImage) + len (or_str globalFeedback [])
      + len (fst (generateAnnotationsDescription annotations
                    (oi_width originalImage) (oi_height originalImage))))%Z
  /\ includes prompt (oi_prompt originalImage) = true.
Proof.
  cbv zeta. unfold generateRefinementPrompt.
  set (described :=
         match oi_description originalImage with
         | Some ((_ :: _) as description) =>
             lit "## REFERENCE IMAGE ANALYSIS" ++ nl
             ++ (if (Z.of_nat (List.length description) >? maxDescLength)%Z
                 then substring0 description maxDescLength ++ lit "..."
                 else description) ++ nl ++ nl
         | _ => []
         end).
  assert (Hdescribed : (len described <= 833)%Z).
  { unfold described.
    destruct (oi_description originalImage) as [[|c d]|];
      [change (len []) with 0%Z; lia | | change (len []) with 0%Z; lia].
    rewrite !len_app.
    destruct (Z.of_nat (List.length (c :: d)) >? maxDescLength)%Z eqn:Hlong.
    - rewrite len_app, len_substring0. len_literals.
      change (len nl) with 1%Z. unfold maxDescLength. lia.
    - rewrite Z.gtb_ltb in Hlong. apply Z.ltb_ge in Hlong.
      fold (len (c :: d)) in Hlong. unfold maxDescLength in Hlong.
      len_literals. change (len nl) with 1%Z. lia. }
  set (head := (lit "# IMAGE REFINEMENT" ++ nl ++ nl)
               ++ lit "## ORIGINAL: " ++ dq ++ oi_prompt originalImage
               ++ dq ++ nl ++ nl).
  assert (Hhead : len head = (37 + len (oi_prompt originalImage))%Z).
  { unfold head. rewrite !len_app. len_literals.
    change (len nl) with 1%Z. change (len dq) with 1%Z. lia. }
  assert (Hinc : forall rest, includes (head ++ rest) (oi_prompt originalImage)
                              = true).
  { intros rest. unfold head. rewrite <- !app_assoc.
    repeat (apply includes_prefix || apply includes_skip). }
  assert (Hstep1 :
    match oi_description originalImage with
    | Some ((_ :: _) as description) =>
        head ++ lit "## REFERENCE IMAGE ANALYSIS" ++ nl
        ++ (if (Z.of_nat (List.length description) >? maxDescLength)%Z
            then substring0 description maxDescLength ++ lit "..."
            else description) ++ nl ++ nl
    | _ => head
    end = head ++ described).
  { unfold described.
    destruct (oi_description originalImage) as [[|c d]|];
      now rewrite ?app_nil_r. }
  fold head. rewrite Hstep1.
  set (withGlobal :=
         match globalFeedback with
         | Some g =>
             if truthy_str g && truthy_str (trim g)
             then (head ++ described) ++ lit "## GLOBAL CHANGES" ++ nl
                  ++ g ++ nl ++ nl
             else head ++ described
         | None => head ++ described
         end).
  assert (Hglobal : exists extra,
             withGlobal = head ++ extra
             /\ (len extra <= 853 + len (or_str globalFeedback []))%Z).
  { unfold withGlobal. destruct globalFeedback as [g|].
    - destruct (truthy_str g && truthy_str (trim g)) eqn:Hg.
      + eexists. rewrite <- app_assoc. split; [reflexivity|].
        apply andb_true_iff in Hg. destruct Hg as [Hg _].
        cbn [or_str]. rewrite Hg. rewrite !len_app. len_literals.
        change (len nl) with 1%Z. lia.
      + exists described. split; [reflexivity|].
        pose proof (len_nonneg (or_str (Some g) [])). lia.
    - exists described. split; [reflexivity|].
      change (len (or_str None [])) with 0%Z. lia. }
  destruct Hglobal as [extra [Hextra Hlen]]. rewrite Hextra.
  destruct annotations as [[|a l]|].
  - cbn [fst generateAnnotationsDescription]. rewrite <- app_assoc.
    split; [|apply Hinc].
    rewrite !len_app, Hhead. len_literals.
    change (len nl) with 1%Z. change (len []) with 0%Z. lia.
  - destruct (generateAnnotationsDescription (Some (a :: l))
                (oi_width originalImage) (oi_height originalImage))
      as [d l'].
    cbn [fst]. rewrite <- !app_assoc. split; [|apply Hinc].
    rewrite !len_app, Hhead. len_literals.
    change (len nl) with 1%Z. lia.
  - cbn [fst generateAnnotationsDescription]. rewrite <- app_assoc.
    split; [|apply Hinc].
    rewrite !len_app, Hhead. len_literals.
    change (len nl) with 1%Z. change (len []) with 0%Z. lia.
Qed.

(* ================================================================== *)
(** ** Further properties: artifact store *)
(* ================================================================== *)

Lemma startsWith_split (s p : jsstring) :
  startsWith s p = true -> exists rest, s = p ++ rest.
Proof.
  revert s. induction p as [|c p IH]; intros s H.
  - now exists s.
  - destruct s as [|d s]; [discriminate H|].
    simpl in H. apply andb_true_iff in H. destruct H as [Hc Hs].
    apply N.eqb_eq in Hc. subst d.
    destruct (IH s Hs) as [rest ->]. now exists rest.
Qed.

Lemma backslashes_to_slashes_idempotent (p : jsstring) :
  backslashes_to_slashes (backslashes_to_slashes p) = backslashes_to_slashes p.
Proof.
  unfold backslashes_to_slashes. rewrite map_map. apply map_ext.
  intros c. destruct (N.eqb c backslash) eqn:Hc; [reflexivity|].
  now rewrite Hc.
Qed.

Lemma backslashes_to_slashes_app (a b : jsstring) :
  backslashes_to_slashes (a ++ b)
  = backslashes_to_slashes a ++ backslashes_to_slashes b.
Proof. apply map_app. Qed.

(** A path that opens like a URL still does once its backslashes are
    turned. *)
Lemma is_url_backslashes (p : jsstring) :
  is_url p = true -> is_url (backslashes_to_slashes p) = true.
Proof.
  unfold is_url. rewrite !orb_true_iff.
  intros [[H|H]|H]; apply startsWith_split in H; destruct H as [rest ->];
    rewrite backslashes_to_slashes_app.
  - left; left. apply startsWith_app.
  - left; right. apply startsWith_app.
  - right. apply startsWith_app.
Qed.

(** X5.  [getFileUrl] does not tell backslashes from slashes: a path
    that is not a URL once its backslashes are turned into slashes gets
    the same file URL in both spellings. *)
Theorem getFileUrl_backslashes (p : jsstring) :
  is_url (backslashes_to_slashes p) = false ->
  getFileUrl (backslashes_to_slashes p) = getFileUrl p.
Proof.
  intros Hn.
  assert (Hp : is_url p = false).
  { destruct (is_url p) eqn:Hp; [|reflexivity].
    apply is_url_backslashes in Hp. congruence. }
  unfold is_url in Hn, Hp. unfold getFileUrl.
  rewrite Hn, Hp. cbv zeta.
  now rewrite backslashes_to_slashes_idempotent.
Qed.

Lemma getFileUrl_backslashes_witness :
  let p := lit "C:\Users\ann\images\s 1\a.png" in
  is_url (backslashes_to_slashes p) = false
  /\ getFileUrl (backslashes_to_slashes p) = getFileUrl p.
Proof.
  cbv zeta. split; [reflexivity|].
  exact (getFileUrl_backslashes (lit "C:\Users\ann\images\s 1\a.png") eq_refl).
Defined.

(** *** Paths that need no encoding *)

Lemma encodeURIComponent_unreserved (s : jsstring) :
  forallb uri_unreserved s = true -> encodeURIComponent s = Some s.
Proof.
  induction s as [|c s IH]; [reflexivity|].
  cbn [forallb]. intros H. apply andb_true_iff in H. destruct H as [Hc Hs].
  cbn [encodeURIComponent]. rewrite Hc, (IH Hs). reflexivity.
Qed.

Lemma forallb_rev (A : Type) (f : A -> bool) (l : list A) :
  forallb f (rev l) = forallb f l.
Proof.
  induction l as [|a l IH]; [reflexivity|].
  cbn [rev forallb]. rewrite forallb_app, IH. cbn [forallb].
  rewrite andb_true_r. apply andb_comm.
Qed.

Lemma split_aux_slash_nonempty (s cur : jsstring) :
  (1 <= List.length (split_aux [slash] s 0 cur))%nat.
Proof.
  revert cur. induction s as [|c s IH]; intros cur; cbn [split_aux].
  - simpl. lia.
  - destruct (startsWith (c :: s) [slash]); [simpl; lia | apply IH].
Qed.

Lemma encode_segment_plain (count index : nat) (segment : jsstring) :
  forallb uri_unreserved segment = true -> (2 <= count)%nat ->
  encode_segment count index segment
  = Some (segment ++ (if (index <? count - 1)%nat then [slash] else [])).
Proof.
  intros Hs Hc. unfold encode_segment.
  destruct ((index =? 0)%nat && negb (truthy_str segment)) eqn:Hz.
  - apply andb_true_iff in Hz. destruct Hz as [Hi Hseg].
    apply Nat.eqb_eq in Hi. subst index.
    destruct segment; [|discriminate Hseg].
    assert (Hlt : (0 <? count - 1)%nat = true) by (apply Nat.ltb_lt; lia).
    now rewrite Hlt.
  - now rewrite (encodeURIComponent_unreserved _ Hs).
Qed.

(** Splitting at the slashes and encoding segment by segment gives the
    path back when no segment needs encoding. *)
Lemma encode_segments_plain (count : nat) (s : jsstring) :
  (2 <= count)%nat ->
  forallb (fun c => uri_unreserved c || N.eqb c slash) s = true ->
  forall cur index acc,
    forallb uri_unreserved cur = true ->
    (index + List.length (split_aux [slash] s 0 cur))%nat = count ->
    encode_segments count index (split_aux [slash] s 0 cur) acc
    = Some (acc ++ rev cur ++ s).
Proof.
  intros Hc. induction s as [|c s IH]; intros Hs cur index acc Hcur Hlen.
  - cbn [split_aux] in *. cbn [encode_segments].
    rewrite encode_segment_plain; [|now rewrite forallb_rev|exact Hc].
    assert (Hlt : (index <? count - 1)%nat = false)
      by (apply Nat.ltb_ge; simpl in Hlen; lia).
    rewrite Hlt. now rewrite !app_nil_r.
  - cbn [forallb] in Hs. apply andb_true_iff in Hs. destruct Hs as [Hch Hs].
    cbn [split_aux] in *.
    assert (Hst : startsWith (c :: s) [slash] = N.eqb slash c).
    { cbn [startsWith]. destruct s; now rewrite andb_true_r. }
    rewrite Hst in *.
    destruct (N.eqb slash c) eqn:Hsl.
    + apply N.eqb_eq in Hsl. subst c.
      cbn [List.length pred] in *. cbn [encode_segments].
      rewrite encode_segment_plain; [|now rewrite forallb_rev|exact Hc].
      pose proof (split_aux_slash_nonempty s []) as Hne.
      assert (Hlt : (index <? count - 1)%nat = true)
        by (apply Nat.ltb_lt; lia).
      rewrite Hlt.
      rewrite (IH Hs [] (S index)); [|reflexivity|lia].
      cbn [rev app]. now rewrite <- !app_assoc.
    + assert (Hun : uri_unreserved c = true).
      { apply orb_true_iff in Hch. destruct Hch as [Hu|Hu]; [exact Hu|].
        apply N.eqb_eq in Hu. subst c. now rewrite N.eqb_refl in Hsl. }
      rewrite (IH Hs (c :: cur) index acc); [|cbn [forallb]; now rewrite Hun|exact Hlen].
      cbn [rev]. now rewrite <- !app_assoc.
Qed.

Lemma plain_path_not_url (p : jsstring) :
  plain_path p = true -> is_url p = false.
Proof.
  intros Hp. destruct (is_url p) eqn:Hu; [|reflexivity].
  exfalso. unfold is_url in Hu. rewrite !orb_true_iff in Hu.
  unfold plain_path in Hp.
  destruct Hu as [[H|H]|H]; apply startsWith_split in H;
    destruct H as [rest ->]; rewrite forallb_app in Hp;
    apply andb_true_iff in Hp; destruct Hp as [Hp _]; discriminate Hp.
Qed.

(** X6.  A path made only of letters, digits, [- _ . ! ~ * ' ( )] and
    separators is not encoded: its file URL is [file://] followed by the
    path, with backslashes turned into slashes and a leading slash added
    when there is none. *)
Theorem getFileUrl_plain_path (p : jsstring) :
  plain_path p = true ->
  getFileUrl p
  = lit "file://" ++ with_leading_slash (backslashes_to_slashes p).
Proof.
  intros Hp. pose proof (plain_path_not_url p Hp) as Hu.
  unfold is_url in Hu. unfold getFileUrl. rewrite Hu. cbv zeta.
  fold (with_leading_slash (backslashes_to_slashes p)).
  set (s := with_leading_slash (backslashes_to_slashes p)).
  assert (Hchars : forallb (fun c => uri_unreserved c || N.eqb c slash)
                     (backslashes_to_slashes p) = true).
  { unfold backslashes_to_slashes. rewrite forallb_forall. intros c Hin.
    apply in_map_iff in Hin. destruct Hin as [d [Hd Hin]].
    unfold plain_path in Hp. rewrite forallb_forall in Hp.
    specialize (Hp d Hin).
    destruct (N.eqb d backslash) eqn:Hb; subst c.
    - now rewrite N.eqb_refl, orb_true_r.
    - now rewrite orb_false_r in Hp. }
  assert (Hs : exists t, s = slash :: t
                         /\ forallb (fun c => uri_unreserved c || N.eqb c slash) t
                            = true).
  { unfold s, with_leading_slash.
    destruct (startsWith (backslashes_to_slashes p) [slash]) eqn:Hst.
    - apply startsWith_split in Hst. destruct Hst as [t Ht].
      exists t. split; [exact Ht|].
      rewrite Ht in Hchars. cbn [app forallb] in Hchars.
      apply andb_true_iff in Hchars. apply Hchars.
    - now exists (backslashes_to_slashes p). }
  destruct Hs as [t [Est Ht]]. rewrite Est.
  unfold split. cbn [split_aux startsWith]. rewrite N.eqb_refl.
  assert (Hsw : startsWith t [] = true) by now destruct t.
  rewrite Hsw. cbn [andb List.length pred rev encode_segments].
  pose proof (split_aux_slash_nonempty t []) as Hne.
  rewrite encode_segment_plain; [|reflexivity|lia].
  assert (Hlt : (0 <? S (List.length (split_aux [slash] t 0 [])) - 1)%nat = true)
    by (apply Nat.ltb_lt; lia).
  rewrite Hlt.
  rewrite (@encode_segments_plain
             (S (List.length (split_aux [slash] t 0 []))) t);
    [reflexivity | lia | exact Ht | reflexivity | reflexivity].
Qed.

Lemma getFileUrl_plain_path_witness :
  let p := lit "data\images\session-1\1700000000000-0c9e1f7a.png" in
  plain_path p = true
  /\ getFileUrl p
     = lit "file:///data/images/session-1/1700000000000-0c9e1f7a.png".
Proof.
  cbv zeta. split; [reflexivity|].
  exact (getFileUrl_plain_path
           (lit "data\images\session-1\1700000000000-0c9e1f7a.png") eq_refl).
Defined.

(** *** Initialisation of the store *)

(** X7.  [initImageStorage] remembers the directory from the moment it
    is chosen, before the directory is made: called with a custom path
    on a store not yet initialised, it asks the bridge once to make the
    directory, and whatever the outcome of that call (a rejection is
    rethrown), every later call returns the path at once without asking
    the bridge again. *)
Theorem initImageStorage_remembers_directory (p : jsstring) (w w1 : World)
  (o : outcome jsstring) :
  truthy_str p = true ->
  truthy_opt (baseImageDir w) = false ->
  initImageStorage (Some p) w = (o, w1) ->
  invoked w1 = invoked w ++ [EnsureDirectory p]
  /\ match bridge w with
     | inr e :: _ => o = Thrown e
     | inl _ :: _ => o = Ok p
     | [] => exists e, o = Thrown e
     end
  /\ forall customPath, initImageStorage customPath w1 = (Ok p, w1).
Proof.
  intros Hp Hw Hrun. unfold initImageStorage in Hrun. rewrite Hw in Hrun.
  cbn [truthy_opt or_str] in Hrun. rewrite Hp in Hrun.
  unfold try_catch, bind, ret, invoke, throw in Hrun. cbn in Hrun.
  assert (Hlater : forall b c customPath,
             initImageStorage customPath
               (with_bridge b c (with_baseImageDir (Some p) w))
             = (Ok p, with_bridge b c (with_baseImageDir (Some p) w))).
  { intros b c customPath. unfold initImageStorage.
    cbn [baseImageDir with_bridge with_baseImageDir truthy_opt or_str].
    now rewrite Hp. }
  destruct (bridge w) as [|[v|e] rest]; inversion Hrun; subst o w1;
    (split; [reflexivity|]); (split; [|apply Hlater]);
    [now eexists | reflexivity | reflexivity].
Qed.

Lemma initImageStorage_remembers_directory_witness :
  let w := with_replies [] [inr (JsError (lit "EACCES: permission denied"))] None in
  let p := lit "/data/images" in
  let w1 := snd (initImageStorage (Some p) w) in
  (truthy_str p = true /\ truthy_opt (baseImageDir w) = false)
  /\ initImageStorage (Some p) w
     = (Thrown (JsError (lit "EACCES: permission denied")), w1)
  /\ initImageStorage None w1 = (Ok p, w1).
Proof.
  cbv zeta.
  set (w := with_replies [] [inr (JsError (lit "EACCES: permission denied"))] None).
  set (p := lit "/data/images").
  assert (H1 : truthy_str p = true) by reflexivity.
  assert (H2 : truthy_opt (baseImageDir w) = false) by reflexivity.
  assert (H3 : initImageStorage (Some p) w
               = (fst (initImageStorage (Some p) w),
                  snd (initImageStorage (Some p) w)))
    by apply surjective_pairing.
  destruct (initImageStorage_remembers_directory p w H1 H2 H3)
    as [_ [Ho Hlater]].
  split; [now split|]. split.
  - rewrite H3 at 1. now rewrite Ho.
  - apply Hlater.
Defined.

(** *** Saving *)

Lemma is_url_getFileUrl (p : jsstring) : is_url (getFileUrl p) = true.
Proof.
  destruct (is_url p) eqn:Hp.
  - now rewrite (getFileUrl_fixed p Hp).
  - destruct (getFileUrl_file p Hp) as [s ->]. apply is_url_file.
Qed.

Lemma is_url_placeholder (n : N) : is_url (placeholder_url n) = true.
Proof.
  unfold placeholder_url, is_url.
  change (lit "https://picsum.photos/1024/1024?random=")
    with (lit "https://" ++ lit "picsum.photos/1024/1024?random=").
  rewrite <- app_assoc, (startsWith_app (lit "https://")).
  now rewrite orb_true_r.
Qed.

Lemma saveImageFromUrl_yields_url (remote : jsval) (sessionId : jsstring) :
  yields (fun u => is_url u = true) (saveImageFromUrl remote sessionId).
Proof.
  unfold saveImageFromUrl, fresh_filename.
  repeat yields_step; [apply is_url_getFileUrl | apply is_url_placeholder].
Qed.

(** X8.  [saveImageFromUrl] never rejects and sends nothing itself: in
    every state of the bridge it returns a string that opens with
    [http://], [https://] or [file://]. *)
Theorem saveImageFromUrl_never_rejects (remote : jsval) (sessionId : jsstring)
  (w : World) :
  exists u w',
    saveImageFromUrl remote sessionId w = (Ok u, w')
    /\ is_url u = true
    /\ sent w' = sent w.
Proof.
  destruct (saveImageFromUrl_returns remote sessionId w) as [u [w' Hrun]].
  exists u, w'. split; [exact Hrun|]. split.
  - exact (saveImageFromUrl_yields_url _ _ _ Hrun).
  - exact (silent_saveImageFromUrl remote sessionId _ Hrun).
Qed.

Lemma drop_word_subtype (subtype rest : jsstring) :
  forallb is_word subtype = true ->
  drop_word (subtype ++ lit ";base64," ++ rest) = lit ";base64," ++ rest.
Proof.
  induction subtype as [|c s IH]; [reflexivity|].
  cbn [forallb]. intros H. apply andb_true_iff in H. destruct H as [Hc Hs].
  cbn [app drop_word]. rewrite Hc. now apply IH.
Qed.

Lemma skipn_prefix (A : Type) (p r : list A) : skipn (List.length p) (p ++ r) = r.
Proof. induction p as [|a p IH]; [reflexivity | exact IH]. Qed.

(** The header [data:image/<subtype>;base64,] is removed, whatever the
    subtype. *)
Lemma strip_data_url_header_subtype (subtype payload : jsstring) :
  subtype <> [] -> forallb is_word subtype = true ->
  strip_data_url_header
    (lit "data:image/" ++ subtype ++ lit ";base64," ++ payload)
  = payload.
Proof.
  intros Hne Hw. unfold strip_data_url_header.
  rewrite startsWith_app, skipn_prefix, (drop_word_subtype _ _ Hw).
  rewrite startsWith_app, skipn_prefix.
  assert (Hlt : (List.length (lit ";base64," ++ payload)
                 <? List.length (subtype ++ lit ";base64," ++ payload))%nat
                = true).
  { apply Nat.ltb_lt. rewrite (length_app subtype).
    destruct subtype; [contradiction | simpl; lia]. }
  now rewrite Hlt.
Qed.

(** X9.  [saveImageFromDataUrl] stores the payload without its header:
    with the store initialised and the bridge accepting the two calls,
    a data URL [data:image/<subtype>;base64,<payload>] of any subtype
    makes the bridge write exactly [<payload>] to a fresh file of the
    session directory, and the call returns the file URL of that file. *)
Theorem saveImageFromDataUrl_stores_payload
  (subtype payload dir sessionId : jsstring) (w : World)
  (a b : jsstring) (rest : list (jsstring + exn)) :
  subtype <> [] -> forallb is_word subtype = true ->
  baseImageDir w = Some dir -> truthy_str dir = true ->
  bridge w = inl a :: inl b :: rest ->
  exists w',
    saveImageFromDataUrl
      (lit "data:image/" ++ subtype ++ lit ";base64," ++ payload) sessionId w
    = (Ok (getFileUrl (stored_path dir sessionId w)), w')
    /\ invoked w'
       = invoked w ++ [EnsureDirectory (dir ++ [slash] ++ sessionId);
                       SaveBase64Image (stored_path dir sessionId w) payload].
Proof.
  intros Hne Hword Hdir Htruthy Hbridge.
  remember (lit "data:image/") as header eqn:Hh.
  remember (lit ";base64,") as marker eqn:Hm.
  destruct w as [bd nt br nw uu un rr rn st iv ss].
  cbn [baseImageDir bridge] in Hdir, Hbridge. subst bd br.
  destruct dir as [|d0 dir]; [discriminate Htruthy|].
  eexists. run.
  subst header marker.
  rewrite (strip_data_url_header_subtype _ Hne Hword).
  split; [reflexivity|].
  cbn [invoked]. now rewrite <- app_assoc.
Qed.

Lemma saveImageFromDataUrl_stores_payload_witness :
  let w := with_replies [] [inl []; inl []] (Some (lit "/data/images")) in
  (lit "jpeg" <> [] /\ forallb is_word (lit "jpeg") = true)
  /\ exists w',
       saveImageFromDataUrl (lit "data:image/jpeg;base64,/9j/4AAQSkZJRg==")
         (lit "session-1") w
       = (Ok (getFileUrl (stored_path (lit "/data/images") (lit "session-1") w)),
          w')
       /\ invoked w'
          = invoked w
            ++ [EnsureDirectory (lit "/data/images" ++ [slash] ++ lit "session-1");
                SaveBase64Image
                  (stored_path (lit "/data/images") (lit "session-1") w)
                  (lit "/9j/4AAQSkZJRg==")].
Proof.
  cbv zeta.
  assert (H1 : lit "jpeg" <> []) by discriminate.
  assert (H2 : forallb is_word (lit "jpeg") = true) by reflexivity.
  split; [now split|].
  exact (@saveImageFromDataUrl_stores_payload (lit "jpeg")
           (lit "/9j/4AAQSkZJRg==") (lit "/data/images") (lit "session-1")
           (with_replies [] [inl []; inl []] (Some (lit "/data/images")))
           [] [] [] H1 H2 eq_refl eq_refl eq_refl).
Defined.

(** X10.  [saveImageFromDataUrl] rethrows: with the store initialised,
    a rejection of the bridge, be it when the session directory is made
    or when the file is written, is the rejection of the call, and in
    the first case nothing is written. *)
Theorem saveImageFromDataUrl_rethrows
  (dataUrl dir sessionId : jsstring) (w : World) (e : exn)
  (a : jsstring) (rest : list (jsstring + exn)) :
  baseImageDir w = Some dir -> truthy_str dir = true ->
  (bridge w = inr e :: rest ->
   exists w',
     saveImageFromDataUrl dataUrl sessionId w = (Thrown e, w')
     /\ invoked w' = invoked w ++ [EnsureDirectory (dir ++ [slash] ++ sessionId)])
  /\ (bridge w = inl a :: inr e :: rest ->
      exists w', saveImageFromDataUrl dataUrl sessionId w = (Thrown e, w')).
Proof.
  intros Hdir Htruthy.
  destruct w as [bd nt br nw uu un rr rn st iv ss].
  cbn [baseImageDir bridge] in *. subst bd.
  destruct dir as [|d0 dir]; [discriminate Htruthy|].
  split; intros Hbridge; subst br; eexists; run.
  - split; reflexivity.
  - reflexivity.
Qed.

Lemma saveImageFromDataUrl_rethrows_witness :
  let e := JsError (lit "ENOSPC: no space left on device") in
  let w := with_replies [] [inl []; inr e] (Some (lit "/data/images")) in
  (baseImageDir w = Some (lit "/data/images")
   /\ truthy_str (lit "/data/images") = true
   /\ bridge w = inl [] :: inr e :: [])
  /\ exists w',
       saveImageFromDataUrl (lit "data:image/png;base64,iVBORw0KGgo=")
         (lit "session-1") w = (Thrown e, w').
Proof.
  cbv zeta. split; [now repeat split|].
  exact (proj2 (@saveImageFromDataUrl_rethrows
                  (lit "data:image/png;base64,iVBORw0KGgo=")
                  (lit "/data/images") (lit "session-1")
                  (with_replies []
                     [inl []; inr (JsError (lit "ENOSPC: no space left on device"))]
                     (Some (lit "/data/images")))
                  (JsError (lit "ENOSPC: no space left on device")) [] []
                  eq_refl eq_refl) eq_refl).
Defined.

(* ================================================================== *)
(** ** Further properties: generation *)
(* ================================================================== *)

(** *** Counting requests *)

Lemma sends_at_most_silent {A} (c : M A) : silent c -> sends_at_most 0 c.
Proof.
  intros Hc w o w' H. exists []. rewrite app_nil_r.
  split; [exact (Hc _ _ _ H) | reflexivity].
Qed.

Lemma sends_at_most_weaken {A} (n m : nat) (c : M A) :
  (n <= m)%nat -> sends_at_most n c -> sends_at_most m c.
Proof.
  intros Hnm Hc w o w' H. destruct (Hc _ _ _ H) as [l [Hl Hn]].
  exists l. split; [exact Hl | lia].
Qed.

Lemma sends_at_most_fetch (rq : Request) : sends_at_most 1 (fetch rq).
Proof.
  intros w o w' H. exists [rq]. split; [exact (fetch_logs _ _ H) | reflexivity].
Qed.

Lemma sends_at_most_bind {A B} (n m : nat) (c : M A) (k : A -> M B) :
  sends_at_most n c -> (forall a, sends_at_most m (k a)) ->
  sends_at_most (n + m) (bind c k).
Proof.
  intros Hc Hk w o w' H. unfold bind in H.
  destruct (c w) as [[a|e] w1] eqn:Hcw; destruct (Hc _ _ _ Hcw) as [l1 [Hl1 Hn1]].
  - destruct (Hk a _ _ _ H) as [l2 [Hl2 Hn2]].
    exists (l1 ++ l2). rewrite Hl2, Hl1, <- app_assoc, length_app.
    split; [reflexivity | lia].
  - inversion H; subst. exists l1. split; [exact Hl1 | lia].
Qed.

Lemma sends_at_most_try_catch {A} (n m : nat) (c : M A) (h : exn -> M A) :
  sends_at_most n c -> (forall e, sends_at_most m (h e)) ->
  sends_at_most (n + m) (try_catch c h).
Proof.
  intros Hc Hh w o w' H. unfold try_catch in H.
  destruct (c w) as [[a|e] w1] eqn:Hcw; destruct (Hc _ _ _ Hcw) as [l1 [Hl1 Hn1]].
  - inversion H; subst. exists l1. split; [exact Hl1 | lia].
  - destruct (Hh e _ _ _ H) as [l2 [Hl2 Hn2]].
    exists (l1 ++ l2). rewrite Hl2, Hl1, <- app_assoc, length_app.
    split; [reflexivity | lia].
Qed.

(** One request, then none. *)
Lemma sends_at_most_fetch_then {A} (rq : Request) (k : Response -> M A) :
  (forall r, silent (k r)) -> sends_at_most 1 (bind (fetch rq) k).
Proof.
  intros Hk. change 1%nat with (1 + 0)%nat.
  apply sends_at_most_bind; [apply sends_at_most_fetch|].
  intros r. apply sends_at_most_silent, Hk.
Qed.

Section Description.
Context {E : JsEngine}.

Lemma sends_at_most_load_for_analysis (imageUrl : jsstring) :
  sends_at_most 1 (load_for_analysis imageUrl).
Proof.
  unfold load_for_analysis.
  destruct (startsWith imageUrl (lit "file://")).
  - change 1%nat with (1 + 0)%nat. apply sends_at_most_try_catch.
    + apply sends_at_most_fetch_then. intros r. repeat silent_step.
    + intros e. apply sends_at_most_silent. repeat silent_step.
  - destruct (startsWith imageUrl (lit "data:image")).
    + apply sends_at_most_weaken with 0%nat; [lia|].
      apply sends_at_most_silent. repeat silent_step.
    + change 1%nat with (1 + 0)%nat. apply sends_at_most_try_catch.
      * apply sends_at_most_fetch_then. intros r. repeat silent_step.
      * intros e. apply sends_at_most_silent. repeat silent_step.
Qed.

Lemma sends_at_most_generateImageDescription
  (prompt : jsstring) (imageUrl apiKey apiEndpoint : option jsstring) :
  sends_at_most 2 (generateImageDescription prompt imageUrl apiKey apiEndpoint).
Proof.
  unfold generateImageDescription.
  destruct (negb (truthy_opt imageUrl)).
  { apply sends_at_most_weaken with 0%nat; [lia|].
    apply sends_at_most_silent, silent_ret. }
  destruct (negb (truthy_opt apiKey)).
  { apply sends_at_most_weaken with 0%nat; [lia|].
    apply sends_at_most_silent, silent_ret. }
  change 2%nat with ((1 + 1) + 0)%nat. apply sends_at_most_try_catch.
  - cbv zeta. apply sends_at_most_bind.
    + apply sends_at_most_load_for_analysis.
    + intros [base64Image|early].
      * apply sends_at_most_fetch_then. intros r. repeat silent_step.
      * apply sends_at_most_weaken with 0%nat; [lia|].
        apply sends_at_most_silent, silent_ret.
  - intros e. apply sends_at_most_silent, silent_ret.
Qed.

Lemma generateImageDescription_returns
  (prompt : jsstring) (imageUrl apiKey apiEndpoint : option jsstring)
  (w : World) :
  returns (generateImageDescription prompt imageUrl apiKey apiEndpoint) w.
Proof.
  unfold generateImageDescription.
  destruct (negb (truthy_opt imageUrl)); [apply ret_returns|].
  destruct (negb (truthy_opt apiKey)); [apply ret_returns|].
  apply try_catch_returns. intros e w1. apply ret_returns.
Qed.

(** What a computation that only talks to the network leaves alone. *)
Lemma fetch_keeps (X : Type) (f : World -> X) (rq : Request) :
  (forall n r w, f (with_net n r w) = f w) -> preserves f (fetch rq).
Proof.
  intros Hf w o w' H. unfold fetch in H.
  destruct (net w) as [|[r|e] rest]; inversion H; apply Hf.
Qed.

Lemma generateImageDescription_keeps (X : Type) (f : World -> X)
  (prompt : jsstring) (imageUrl apiKey apiEndpoint : option jsstring) :
  (forall n r w, f (with_net n r w) = f w) ->
  preserves f (generateImageDescription prompt imageUrl apiKey apiEndpoint).
Proof.
  intros Hf. unfold generateImageDescription, load_for_analysis.
  repeat first
    [ progress cbv zeta
    | apply preserves_ret
    | apply preserves_throw
    | apply (fetch_keeps _ _ Hf)
    | apply preserves_must
    | apply preserves_settle
    | apply preserves_bind; [|intros ?]
    | apply preserves_try_catch; [|intros ?]
    | match goal with
      | |- preserves _ (if ?b then _ else _) => destruct b
      | |- preserves _ (match ?x with _ => _ end) => destruct x
      end ].
Qed.

End Description.


(** X12.  The composing stage of [refineImage] asks for a description
    of the image only when it has none: it sends at most two requests
    (those of [generateImageDescription]), and none at all when the
    options carry a description, or carry no image reference or no API
    key, or when the refinement text already contains the analysis
    heading. *)
Theorem refineImage_prompt_requests {E : JsEngine}
  (o rp : jsstring) (options : Options.t)
  (annotations : option (list Annotation)) (w : World) :
  exists l,
    sent (snd (refineImage_prompt o rp options annotations w)) = sent w ++ l
    /\ (List.length l <= 2)%nat
    /\ (if negb (truthy_opt (Options.imageDescription options))
           && truthy_opt (Options.imageUrl options)
           && truthy_opt (Options.apiKey options)
           && negb (includes rp analysis_heading)
        then True else l = []).
Proof.
  destruct (refineImage_prompt o rp options annotations w) as [out w'] eqn:Hrun.
  cbn [snd]. unfold refineImage_prompt in Hrun.
  destruct (estimateImageDimensions (Options.size options)) as [width height].
  match type of Hrun with
  | bind ?c ?k w = _ =>
      assert (Hk : forall a, silent (k a)) by (intros a; repeat silent_step)
  end.
  destruct (negb (truthy_opt (Options.imageDescription options))
            && truthy_opt (Options.imageUrl options)
            && truthy_opt (Options.apiKey options)
            && negb (includes rp analysis_heading)).
  - match type of Hrun with
    | bind ?c ?k w = _ => assert (Hc : sends_at_most 2 c)
    end.
    { change 2%nat with ((2 + 0) + 0)%nat. apply sends_at_most_try_catch.
      - apply sends_at_most_bind.
        + apply sends_at_most_generateImageDescription.
        + intros d. apply sends_at_most_silent, silent_ret.
      - intros e. apply sends_at_most_silent, silent_ret. }
    unfold bind in Hrun.
    match type of Hrun with
    | match ?c w with _ => _ end = _ =>
        destruct (c w) as [[a|e] w1] eqn:Hcw;
        destruct (Hc _ _ _ Hcw) as [l [Hl Hn]]
    end.
    + exists l. rewrite (Hk a _ _ _ Hrun). now split.
    + inversion Hrun; subst. exists l. now split.
  - exists []. rewrite app_nil_r. split; [|split; [simpl; lia | reflexivity]].
    pose proof (@silent_bind _ _ _ _ (@silent_ret _ options) Hk) as Hs.
    exact (Hs _ _ _ Hrun).
Qed.

(** *** The adapters *)

(** X13.  The adapters that need a credential check it before anything
    else: without an API key the DALL-E and GPT-4o adapters, without a
    provider key the StableDiffusionAPI.com and Replicate adapters, and
    without a host the custom adapter return a failure naming what is
    missing, and leave the network, the bridge and the store untouched. *)
Theorem adapters_check_credentials_first {E : JsEngine}
  (o : Options.t) (w : World) :
  (if truthy_opt (Options.apiKey o) then True
   else
     generateWithDalle o w
     = (Ok (Result.failed
              (lit "API key is required for DALL-E image generation")), w)
     /\ generateWithGPT4o o w
        = (Ok (Result.failed
                 (lit "API key is required for GPT-4o image generation")), w))
  /\ (if truthy_opt (Options.stableDiffusionAPIKey o) then True
      else
        generateWithStableDiffusionAPI o w
        = (Ok (Result.failed
                 (lit "API key is required for StableDiffusionAPI.com")), w)
        /\ generateWithReplicate o w
           = (Ok (Result.failed (lit "API key is required for Replicate")), w))
  /\ (if truthy_opt (Options.stableDiffusionHost o) then True
      else
        generateWithCustomStableDiffusion o w
        = (Ok (Result.failed
                 (lit "Host URL is required for custom Stable Diffusion API")),
           w)).
Proof.
  split; [|split].
  - destruct (truthy_opt (Options.apiKey o)) eqn:Hk; [exact I|].
    unfold generateWithDalle, generateWithGPT4o. rewrite Hk. now split.
  - destruct (truthy_opt (Options.stableDiffusionAPIKey o)) eqn:Hk; [exact I|].
    unfold generateWithStableDiffusionAPI, generateWithReplicate.
    rewrite Hk. now split.
  - destruct (truthy_opt (Options.stableDiffusionHost o)) eqn:Hk; [exact I|].
    unfold generateWithCustomStableDiffusion. now rewrite Hk.
Qed.

(** X27.  The request of the DALL-E adapter.  With an API key the
    adapter sends exactly one request, to the configured endpoint or to
    the default one, bearing the key; its body names [dall-e-3] when that
    is the model asked for and [dall-e-2] otherwise, carries the prompt as
    given, and for [dall-e-2] holds neither [style] nor [quality],
    whatever the options say. *)
Theorem generateWithDalle_request {E : JsEngine} (options : Options.t)
  (w : World) :
  truthy_opt (Options.apiKey options) = true ->
  exists rq fields,
    sent (snd (generateWithDalle options w)) = sent w ++ [rq]
    /\ url rq = or_str (Options.apiEndpoint options) DEFAULT_OPENAI_API_ENDPOINT
    /\ headers rq = [content_type_json;
                     authorization "Bearer" (Options.apiKey options)]
    /\ body rq = Some (JObj fields)
    /\ lookup (lit "model") fields
       = JStr (if model_is options DALLE3 then lit "dall-e-3" else lit "dall-e-2")
    /\ lookup (lit "prompt") fields = JStr (Options.prompt options)
    /\ (if model_is options DALLE3 then True
        else lookup (lit "style") fields = JUndefined
             /\ lookup (lit "quality") fields = JUndefined).
Proof.
  intros Hkey.
  destruct (generateWithDalle options w) as [o w'] eqn:Hrun. cbn [snd].
  unfold generateWithDalle in Hrun. rewrite Hkey in Hrun. cbn [negb] in Hrun.
  cbv zeta in Hrun.
  apply fetch_then_silent in Hrun.
  - eexists _, _. split; [exact Hrun|].
    split; [reflexivity|]. split; [reflexivity|]. split; [reflexivity|].
    split; [reflexivity|]. split; [reflexivity|].
    destruct (model_is options DALLE3); [exact I | now split].
  - intros r. repeat first [apply silent_store_remote | silent_step].
  - apply silent_as_failure.
Qed.

Lemma generateWithDalle_request_witness :
  let options := sample_options DALLE2 in
  let w := with_replies
             [json_reply (dalle_payload "https://images.example/tmp/img-1.png")]
             [] None in
  truthy_opt (Options.apiKey options) = true
  /\ exists rq,
       sent (snd (generateWithDalle (E := sample_engine) options w))
       = sent w ++ [rq]
       /\ url rq = DEFAULT_OPENAI_API_ENDPOINT.
Proof.
  cbv zeta. split; [reflexivity|].
  destruct (@generateWithDalle_request sample_engine (sample_options DALLE2)
              (with_replies
                 [json_reply
                    (dalle_payload "https://images.example/tmp/img-1.png")]
                 [] None) eq_refl)
    as [rq [fields [Hsent [Hurl _]]]].
  exists rq. split; [exact Hsent | exact Hurl].
Defined.

(** X14.  The local adapter needs no credential and stores what it is
    given: it sends one request, to [/sdapi/v1/txt2img] of the configured
    host or of [http://localhost:7860], with no [Authorization] header;
    when the reply is [{ images: [payload] }] and the store accepts the
    file, exactly [payload] is written to a fresh file of the session
    directory and the result is a success carrying that file's URL. *)
Theorem local_adapter_stores_inline_image {E : JsEngine}
  (options : Options.t) (w : World) (r : Response)
  (rest : list (Response + exn)) (payload dir a1 a2 : jsstring)
  (answers : list (jsstring + exn)) :
  net w = inl r :: rest -> ok r = true ->
  r_json r = inl (images_payload payload) -> truthy_str payload = true ->
  baseImageDir w = Some dir -> truthy_str dir = true ->
  bridge w = inl a1 :: inl a2 :: answers ->
  let sessionDir := dir ++ [slash] ++ Options.sessionId options in
  let filePath := stored_path dir (Options.sessionId options) w in
  exists w' rq,
    generateWithLocalStableDiffusion options w
    = (Ok (Result.succeeded (getFileUrl filePath)), w')
    /\ invoked w'
       = invoked w ++ [EnsureDirectory sessionDir;
                       SaveBase64Image filePath payload]
    /\ sent w' = sent w ++ [rq]
    /\ url rq = or_str (Options.stableDiffusionHost options)
                  (lit "http://localhost:7860") ++ lit "/sdapi/v1/txt2img"
    /\ headers rq = [content_type_json].
Proof.
  intros Hnet Hok Hjson Hpayload Hdir Htruthy Hbridge. cbv zeta.
  unfold generateWithLocalStableDiffusion.
  destruct (size_numbers options) as [width height].
  unfold try_catch at 1. unfold bind at 1.
  rewrite (fetch_reply _ _ Hnet). rewrite Hok. cbn [negb].
  unfold bind at 1. rewrite Hjson. cbn [settle ret].
  unfold bind at 1.
  assert (Hget : get (images_payload payload) "images" = Some (JArr [JStr payload]))
    by reflexivity.
  rewrite Hget. cbn [must ret opt_index0 index0 hd truthy].
  rewrite Hpayload. cbn [negb].
  unfold png_data_url. cbn [ToString].
  destruct w as [bd nt br nw uu un rr rn st iv ss].
  cbn [baseImageDir bridge net] in Hdir, Hbridge, Hnet. subst bd br nt.
  destruct dir as [|c dir]; [discriminate Htruthy|].
  unfold stored_path. run. rewrite strip_png_header.
  eexists _, _. split; [reflexivity|].
  cbn [invoked sent]. split; [now rewrite <- app_assoc|].
  split; [reflexivity|]. split; reflexivity.
Qed.

Lemma local_adapter_stores_inline_image_witness :
  let options := sample_options StableDiffusion in
  let r := {| ok := true; statusText := lit "OK";
              r_json := inl (images_payload (lit "iVBORw0KGgoAAAANSUhEUg=="));
              r_blob := inr (JsError (lit "not an image")) |} in
  let w := with_replies [inl r] [inl []; inl []] (Some (lit "/data/images")) in
  (net w = [inl r] /\ ok r = true
   /\ truthy_str (lit "iVBORw0KGgoAAAANSUhEUg==") = true
   /\ bridge w = [inl []; inl []])
  /\ exists w',
       generateWithLocalStableDiffusion (E := sample_engine) options w
       = (Ok (Result.succeeded
                (lit "file:///data/images/session-1/1700000000000-0c9e1f7a.png")),
          w').
Proof.
  cbv zeta. split; [now repeat split|].
  destruct (@local_adapter_stores_inline_image sample_engine
              (sample_options StableDiffusion)
              (with_replies
                 [inl {| ok := true; statusText := lit "OK";
                         r_json := inl (images_payload
                                          (lit "iVBORw0KGgoAAAANSUhEUg=="));
                         r_blob := inr (JsError (lit "not an image")) |}]
                 [inl []; inl []] (Some (lit "/data/images")))
              _ [] (lit "iVBORw0KGgoAAAANSUhEUg==") (lit "/data/images") [] [] []
              eq_refl eq_refl eq_refl eq_refl eq_refl eq_refl eq_refl)
    as [w' [rq [Hrun _]]].
  exists w'. exact Hrun.
Defined.

(** X15.  What the GPT-4o adapter sends as the prompt.  With an API
    key: unless the upload of the previous image is asked for and an
    image reference is given, the adapter sends exactly one request, a
    POST to [/v1/images/generations] under the base address, bearing the
    key, whose body names [dall-e-3] and holds [options.prompt] as
    [prompt], with [n] 1, the size asked for, and [quality] and [style]
    defaulting to [standard] and [vivid]; when the upload is asked for
    and the enhancement returns a value, the request that follows the
    enhancement is the same but for [prompt], which holds that value. *)
Theorem gpt4o_prompt_sent {E : JsEngine} (options : Options.t) (w : World) :
  truthy_opt (Options.apiKey options) = true ->
  (match Options.uploadPreviousImage options with
   | Some true => truthy_opt (Options.imageUrl options)
   | _ => false
   end = false ->
   exists rq,
     sent (snd (generateWithGPT4o options w)) = sent w ++ [rq]
     /\ images_request_with options (JStr (Options.prompt options)) rq)
  /\ (forall enhanced w1,
        Options.uploadPreviousImage options = Some true ->
        truthy_opt (Options.imageUrl options) = true ->
        enhancePromptWithGPT4o options w = (Ok enhanced, w1) ->
        exists rq,
          sent (snd (generateWithGPT4o options w)) = sent w1 ++ [rq]
          /\ images_request_with options enhanced rq).
Proof.
  intros Hkey. split.
  - intros Hoff.
    assert (Hen : enhance_or_keep options w
                  = (Ok (JStr (Options.prompt options)), w)).
    { unfold enhance_or_keep.
      destruct (Options.uploadPreviousImage options) as [[|]|];
        cbn [andb] in *; [now rewrite Hoff | reflexivity | reflexivity]. }
    rewrite (generateWithGPT4o_after_enhance options w Hkey Hen).
    apply gpt4o_generate_sends_request.
  - intros enhanced w1 Hup Himg Hrun.
    assert (Hen : enhance_or_keep options w = (Ok enhanced, w1)).
    { unfold enhance_or_keep. rewrite Hup, Himg. cbn [andb].
      unfold try_catch. now rewrite Hrun. }
    rewrite (generateWithGPT4o_after_enhance options w Hkey Hen).
    apply gpt4o_generate_sends_request.
Qed.

Lemma gpt4o_prompt_sent_witness :
  let options := sample_options GPT4o in
  let w := with_replies
             [json_reply (dalle_payload "https://images.example/tmp/img-1.png")]
             [] None in
  truthy_opt (Options.apiKey options) = true
  /\ exists rq fields,
       sent (snd (generateWithGPT4o (E := sample_engine) options w))
       = sent w ++ [rq]
       /\ url rq = lit "https://api.openai.com/v1/images/generations"
       /\ body rq = Some (JObj fields)
       /\ lookup (lit "prompt") fields = JStr (lit "a lighthouse at dusk").
Proof.
  cbv zeta. split; [reflexivity|].
  destruct (proj1 (@gpt4o_prompt_sent sample_engine (sample_options GPT4o)
                     (with_replies
                        [json_reply
                           (dalle_payload "https://images.example/tmp/img-1.png")]
                        [] None) eq_refl) eq_refl)
    as [rq [Hsent [Hurl [_ [_ [fields [Hbody [_ [Hprompt _]]]]]]]]].
  exists rq, fields. split; [exact Hsent|]. split; [exact Hurl|].
  split; [exact Hbody|exact Hprompt].
Defined.

(** *** The placeholder generator *)

(** X16.  [generatePlaceholderImage] never rejects and sends nothing
    itself.  It fails only when the first 20 code units of the prompt
    cannot be encoded (they hold a lone surrogate, as when the cut falls
    inside a pair), and then with the engine's message and nothing done;
    otherwise it reports a success, even when the bridge could not store
    the image, with a reference that opens like a URL. *)
Theorem generatePlaceholderImage_outcomes {E : JsEngine} {U : JsUriError}
  (options : Options.t) (w : World) :
  exists r w',
    generatePlaceholderImage options w = (Ok r, w')
    /\ sent w' = sent w
    /\ match encodeURIComponent (substring0 (Options.prompt options) 20) with
       | Some _ =>
           Result.success r = true /\ is_url (Result.imageUrl r) = true
       | None => r = Result.failed uri_malformed /\ w' = w
       end.
Proof.
  unfold generatePlaceholderImage, encode_or_throw.
  destruct (size_numbers options) as [width height].
  destruct (encodeURIComponent (substring0 (Options.prompt options) 20))
    as [encoded|].
  - cbv beta iota delta [try_catch bind ret store_remote].
    match goal with
    | |- context [saveImageFromUrl ?remote ?sid w] =>
        destruct (saveImageFromUrl_returns remote sid w) as [u [w' Hrun]];
        pose proof (saveImageFromUrl_yields_url _ _ _ Hrun) as Hu;
        pose proof (silent_saveImageFromUrl _ _ _ Hrun) as Hs;
        rewrite Hrun
    end.
    exists (Result.succeeded u), w'. now repeat split.
  - exists (Result.failed uri_malformed), w. now repeat split.
Qed.

(* ================================================================== *)
(** ** Further properties: the annotation canvas *)
(* ================================================================== *)

Lemma clamp01_number_in_unit (v : jsnum) :
  is_number v = true -> in_unit (clamp01 v).
Proof.
  intros Hv. destruct (clamp01_number v Hv) as [c [-> [H0 H1]]].
  unfold in_unit, of_Z. change (inject_Z 0) with 0. change (inject_Z 1) with 1.
  now rewrite !leb_Fin.
Qed.

Lemma sub_finite_number (a : jsnum) (off : Q) :
  is_number a = true -> is_number (sub a (Fin off)) = true.
Proof.
  destruct a; try discriminate; try reflexivity.
  intros _. unfold sub. cbn [neg]. apply add_number.
Qed.

Lemma fold_Math_min_number (l : list jsnum) (acc : jsnum) :
  forallb is_finite l = true -> is_number acc = true ->
  is_number (fold_left Math_min l acc) = true.
Proof.
  revert acc. induction l as [|v l IH]; intros acc Hl Hacc; [exact Hacc|].
  cbn [forallb] in Hl. apply andb_true_iff in Hl. destruct Hl as [Hv Hl].
  cbn [fold_left]. apply IH; [exact Hl|].
  destruct v; try discriminate. now apply Math_min_spec.
Qed.

Lemma fold_Math_max_number (l : list jsnum) (acc : jsnum) :
  forallb is_finite l = true -> is_number acc = true ->
  is_number (fold_left Math_max l acc) = true.
Proof.
  revert acc. induction l as [|v l IH]; intros acc Hl Hacc; [exact Hacc|].
  cbn [forallb] in Hl. apply andb_true_iff in Hl. destruct Hl as [Hv Hl].
  cbn [fold_left]. apply IH; [exact Hl|].
  destruct v; try discriminate. now apply Math_max_spec.
Qed.

Lemma even_indexed_finite (l : list jsnum) :
  forallb is_finite l = true ->
  forallb is_finite (even_indexed l) = true
  /\ forallb is_finite (odd_indexed l) = true.
Proof.
  induction l as [|a|a b l IH] using pair_induction.
  - now split.
  - intros H. now split.
  - cbn [forallb]. intros H.
    apply andb_true_iff in H. destruct H as [Ha H].
    apply andb_true_iff in H. destruct H as [Hb H].
    destruct (IH H) as [He Ho]. split.
    + cbn [even_indexed forallb]. now rewrite Ha, He.
    + unfold odd_indexed. destruct l as [|c l]; cbn [even_indexed forallb].
      * now rewrite Hb.
      * rewrite Hb. exact Ho.
Qed.

Lemma nth_finite (l : list jsnum) (i : nat) :
  forallb is_finite l = true -> (i < List.length l)%nat ->
  is_number (nth i l NaN) = true.
Proof.
  intros Hl Hi. rewrite forallb_forall in Hl.
  specialize (Hl (nth i l NaN) (nth_In l NaN Hi)).
  now destruct (nth i l NaN).
Qed.

(** X17.  [processAnnotation] stores clamped coordinates: once the
    image has loaded, for a rectangle (four finite stage coordinates) or
    a freehand drawing (any number of finite stage coordinates) on an
    image displayed with positive width and height at a finite offset, the
    region stored on the annotation has its four bounds between 0 and 1,
    and the spatial reference stored is the description of that region;
    an annotation of another type, or one processed before the image has
    loaded, is returned as it is. *)
Theorem processAnnotation_stores_clamped_region {E : JsEngine}
  (imageSize : ImageSizeState) (annotation : Annotation) (w h ox oy : Q) :
  display_width imageSize = Fin w -> display_height imageSize = Fin h ->
  offsetX imageSize = Fin ox -> offsetY imageSize = Fin oy ->
  0 < w -> 0 < h ->
  forallb is_finite (coordinates annotation) = true ->
  (a_type annotation = rectangle -> (4 <= List.length (coordinates annotation))%nat) ->
  match a_type annotation with
  | shape => processAnnotation true imageSize annotation = annotation
  | ty =>
      exists r,
        normalizedCoordinates (processAnnotation true imageSize annotation)
        = Some r
        /\ in_unit_square r
        /\ spatialReference (processAnnotation true imageSize annotation)
           = Some (describeRegion ty r)
  end
  /\ processAnnotation false imageSize annotation = annotation.
Proof.
  intros Hw Hh Hox Hoy Pw Ph Hfin Hrect.
  split; [|reflexivity].
  unfold processAnnotation. cbn [negb]. rewrite Hw, Hh, Hox, Hoy.
  unfold generateSpatialDescription.
  assert (Hclamp : forall v q d, is_number v = true -> 0 < d ->
             in_unit (clamp01 (div (sub v (Fin q)) (Fin d)))).
  { intros v q d Hv Hd. apply clamp01_number_in_unit.
    apply div_positive_number; [exact Hd|]. now apply sub_finite_number. }
  destruct (a_type annotation) eqn:Hty.
  - cbn [normalizedCoordinates set_normalizedCoordinates a_type
         set_spatialReference spatialReference].
    rewrite Hty. specialize (Hrect eq_refl).
    eexists. split; [reflexivity|]. split; [|reflexivity].
    repeat split; apply Hclamp; try assumption;
      apply nth_finite; try assumption; lia.
  - cbn [normalizedCoordinates set_normalizedCoordinates a_type
         set_spatialReference spatialReference].
    rewrite Hty.
    destruct (even_indexed_finite _ Hfin) as [He Ho].
    eexists. split; [reflexivity|]. split; [|reflexivity].
    unfold Math_min_of, Math_max_of.
    repeat split; apply Hclamp; try assumption;
      first [ now apply fold_Math_min_number
            | now apply fold_Math_max_number ].
  - reflexivity.
Qed.

Lemma processAnnotation_stores_clamped_region_witness :
  let imageSize := {| display_width := Fin 600; display_height := Fin 400;
                      offsetX := Fin 100; offsetY := Fin 0 |} in
  let annotation := rectangle_annotation 50 (-20) 900 200 in
  (0 < 600 /\ 0 < 400
   /\ forallb is_finite (coordinates annotation) = true)
  /\ exists r,
       normalizedCoordinates
         (processAnnotation (E := sample_engine) true imageSize annotation)
       = Some r
       /\ in_unit_square r.
Proof.
  cbv zeta.
  assert (H1 : 0 < 600) by reflexivity.
  assert (H2 : 0 < 400) by reflexivity.
  split; [now repeat split|].
  destruct (proj1 (@processAnnotation_stores_clamped_region sample_engine
              {| display_width := Fin 600; display_height := Fin 400;
                 offsetX := Fin 100; offsetY := Fin 0 |}
              (rectangle_annotation 50 (-20) 900 200)
              600 400 100 0 eq_refl eq_refl eq_refl eq_refl H1 H2 eq_refl
              (fun _ => le_n 4)))
    as [r [Hr [Hu _]]].
  exists r. now split.
Defined.

(** One axis: the far edge is the rounded sum of offset and extent. *)
Lemma clamp_to_image_bounds (s o e : Q) :
  0 <= e -> double o ->
  exists v,
    clamp_to_image (Fin s) (Fin o) (Fin e) = Fin v
    /\ o <= v /\ leb (Fin v) (add (Fin o) (Fin e)) = true
    /\ (o <= s -> leb (Fin s) (add (Fin o) (Fin e)) = true ->
        clamp_to_image (Fin s) (Fin o) (Fin e) = Fin s).
Proof.
  intros He Ho.
  assert (Hfar : leb (Fin o) (add (Fin o) (Fin e)) = true).
  { cbn [add]. apply double_le_round64; [exact Ho | lra]. }
  unfold clamp_to_image, gt_num, lt_num.
  destruct (add (Fin o) (Fin e)) as [| | |f] eqn:Ef; try discriminate Hfar.
  - (* the sum overflows: nothing is beyond the far edge *)
    cbn [leb negb orb Math_max Math_min].
    destruct (Qle_bool o s) eqn:H1; cbn [negb].
    + apply Qle_bool_iff in H1. exists s. repeat split; trivial.
    + apply Qle_bool_false in H1.
      assert (H3 : Qle_bool o s = false).
      { apply not_true_iff_false. rewrite Qle_bool_iff. lra. }
      rewrite ?H3. exists o. split; [reflexivity|]. split; [lra|].
      split; [reflexivity|]. intros C. lra.
  - apply leb_Fin in Hfar.
    cbn [leb negb orb Math_max Math_min].
    destruct (Qle_bool o s) eqn:H1; cbn [negb orb].
    + apply Qle_bool_iff in H1.
      destruct (Qle_bool s f) eqn:H2; cbn [negb].
      * apply Qle_bool_iff in H2. exists s.
        split; [reflexivity|]. split; [exact H1|].
        split; [now apply Qle_bool_iff | reflexivity].
      * apply Qle_bool_false in H2.
        assert (H3 : Qle_bool o f = true) by now apply Qle_bool_iff.
        rewrite H3. exists f. split; [reflexivity|]. split; [exact Hfar|].
        split; [apply Qle_bool_iff; lra|].
        intros _ C. discriminate C.
    + apply Qle_bool_false in H1.
      assert (H2 : Qle_bool s f = true) by (apply Qle_bool_iff; lra).
      rewrite H2.
      assert (H3 : Qle_bool o s = false).
      { apply not_true_iff_false. rewrite Qle_bool_iff. lra. }
      rewrite ?H3. exists o. split; [reflexivity|]. split; [lra|].
      split; [now apply Qle_bool_iff|]. intros C. lra.
Qed.

(** When the sum of offset and extent is a binary64 number, the far
    edge is that sum. *)
Lemma exact_far_edge (a o e : Q) :
  double (o + e) ->
  leb (Fin a) (add (Fin o) (Fin e)) = true <-> a <= o + e.
Proof.
  intros D. cbn [add]. rewrite D. rewrite leb_Fin. now rewrite Qred_correct.
Qed.

(** The far edge can lie beyond the exact sum: the binary64 numbers
    nearest 0.1 and 0.2 add up to more than their sum. *)
Lemma far_edge_rounded :
  exists o e f,
    round64 (1 # 10) = Fin o /\ round64 (2 # 10) = Fin e
    /\ add (Fin o) (Fin e) = Fin f /\ o + e < f.
Proof.
  destruct (round64 (1 # 10)) as [| | |o] eqn:Ho; try (vm_compute in Ho; discriminate Ho).
  destruct (round64 (2 # 10)) as [| | |e] eqn:He; try (vm_compute in He; discriminate He).
  vm_compute in Ho. vm_compute in He.
  injection Ho as <-. injection He as <-.
  eexists _, _, _. split; [reflexivity|]. split; [reflexivity|].
  split; [vm_compute; reflexivity|]. vm_compute. reflexivity.
Qed.

(** X18.  [stageToImageCoords] keeps a pointer position inside the
    displayed image: for finite stage coordinates, an offset that is a
    binary64 number and a displayed size that is not negative, each
    coordinate returned lies between the offset and the far edge (the
    offset plus the size, as the arithmetic of the language adds them),
    and a position already inside is returned unchanged.  When the sums
    of offset and size are binary64 numbers themselves, as for whole
    numbers of pixels, the far edges are those sums. *)
Theorem stageToImageCoords_inside_image
  (imageSize : ImageSizeState) (w h ox oy sx sy : Q) :
  display_width imageSize = Fin w -> display_height imageSize = Fin h ->
  offsetX imageSize = Fin ox -> offsetY imageSize = Fin oy ->
  0 <= w -> 0 <= h -> double ox -> double oy ->
  let right := add (Fin ox) (Fin w) in
  let bottom := add (Fin oy) (Fin h) in
  exists x y,
    stageToImageCoords imageSize (Fin sx) (Fin sy) = (Fin x, Fin y)
    /\ (ox <= x /\ leb (Fin x) right = true)
    /\ (oy <= y /\ leb (Fin y) bottom = true)
    /\ (ox <= sx -> leb (Fin sx) right = true ->
        oy <= sy -> leb (Fin sy) bottom = true ->
        stageToImageCoords imageSize (Fin sx) (Fin sy) = (Fin sx, Fin sy))
    /\ (double (ox + w) -> double (oy + h) ->
        ox <= x <= ox + w /\ oy <= y <= oy + h
        /\ (ox <= sx <= ox + w -> oy <= sy <= oy + h ->
            stageToImageCoords imageSize (Fin sx) (Fin sy)
            = (Fin sx, Fin sy))).
Proof.
  intros Hw Hh Hox Hoy Pw Ph Dx Dy right bottom. unfold stageToImageCoords.
  rewrite Hw, Hh, Hox, Hoy.
  destruct (clamp_to_image_bounds sx Pw Dx) as [x [Hx [Bx [Fx Ix]]]].
  destruct (clamp_to_image_bounds sy Ph Dy) as [y [Hy [By [Fy Iy]]]].
  exists x, y. split; [now rewrite Hx, Hy|].
  split; [now split|]. split; [now split|].
  split.
  - intros A1 A2 A3 A4. now rewrite (Ix A1 A2), (Iy A3 A4).
  - intros Sx Sy.
    split; [split; [exact Bx|now apply (exact_far_edge x Sx)]|].
    split; [split; [exact By|now apply (exact_far_edge y Sy)]|].
    intros [A1 A2] [A3 A4].
    apply (exact_far_edge sx Sx) in A2. apply (exact_far_edge sy Sy) in A4.
    now rewrite (Ix A1 A2), (Iy A3 A4).
Qed.

Lemma stageToImageCoords_inside_image_witness :
  let imageSize := {| display_width := Fin 600; display_height := Fin 400;
                      offsetX := Fin 100; offsetY := Fin 0 |} in
  (0 <= 600 /\ 0 <= 400 /\ double 100 /\ double 0)
  /\ exists x y,
       stageToImageCoords imageSize (Fin 750) (Fin (-5)) = (Fin x, Fin y)
       /\ 100 <= x <= 100 + 600 /\ 0 <= y <= 0 + 400.
Proof.
  cbv zeta.
  assert (H1 : 0 <= 600) by discriminate.
  assert (H2 : 0 <= 400) by discriminate.
  assert (D1 : double 100) by reflexivity.
  assert (D2 : double 0) by reflexivity.
  split; [now repeat split|].
  destruct (@stageToImageCoords_inside_image
              {| display_width := Fin 600; display_height := Fin 400;
                 offsetX := Fin 100; offsetY := Fin 0 |}
              600 400 100 0 750 (-5) eq_refl eq_refl eq_refl eq_refl H1 H2
              D1 D2)
    as [x [y [Hrun [_ [_ [_ Hexact]]]]]].
  destruct (Hexact eq_refl eq_refl) as [Bx [By _]].
  exists x, y. split; [exact Hrun|]. split; [exact Bx|exact By].
Defined.

(* ================================================================== *)
(** ** Further properties: the toolbar *)
(* ================================================================== *)

(** *** [trim] *)

Lemma trimStart_suffix (s : jsstring) :
  exists pre, s = pre ++ trimStart s /\ forallb is_space pre = true.
Proof.
  induction s as [|c s [pre [Hs Hpre]]].
  - now exists [].
  - cbn [trimStart]. destruct (is_space c) eqn:Hc.
    + exists (c :: pre). cbn [app forallb]. rewrite Hc, Hpre. now rewrite <- Hs.
    + now exists [].
Qed.

Lemma trimStart_head (s r : jsstring) (c : jschar) :
  trimStart s = c :: r -> is_space c = false.
Proof.
  induction s as [|d s IH]; [discriminate|].
  cbn [trimStart]. destruct (is_space d) eqn:Hd; [exact IH|].
  intros H. now inversion H; subst.
Qed.

Lemma trimStart_clean (s r : jsstring) (c : jschar) :
  is_space c = false -> trimStart (c :: r) = c :: r.
Proof. intros Hc. cbn [trimStart]. now rewrite Hc. Qed.

Lemma trimStart_idempotent (s : jsstring) : trimStart (trimStart s) = trimStart s.
Proof.
  destruct (trimStart s) as [|c r] eqn:Hs; [reflexivity|].
  apply (trimStart_clean (c :: r)). exact (trimStart_head _ Hs).
Qed.

(** A string with nothing to trim at either end is left as it is. *)
Lemma trim_clean (s : jsstring) :
  trimStart s = s -> trimStart (rev s) = rev s -> trim s = s.
Proof.
  intros H1 H2. unfold trim. rewrite H1, H2. apply rev_involutive.
Qed.

Lemma trim_ends_clean (s : jsstring) :
  trimStart (trim s) = trim s /\ trimStart (rev (trim s)) = rev (trim s).
Proof.
  unfold trim. rewrite rev_involutive. split; [|apply trimStart_idempotent].
  destruct (trimStart_suffix (rev (trimStart s))) as [pre [Hs Hpre]].
  destruct (trimStart (rev (trimStart s))) as [|c u] eqn:Hu; [reflexivity|].
  (* the trimmed string is a prefix of [trimStart s] *)
  apply (f_equal (@rev jschar)) in Hs.
  rewrite rev_involutive, rev_app_distr in Hs.
  destruct (rev (c :: u)) as [|d t] eqn:Hrev.
  { apply (f_equal (@List.length jschar)) in Hrev.
    rewrite length_rev in Hrev. discriminate Hrev. }
  apply (trimStart_clean (d :: t)).
  cbn [app] in Hs. exact (trimStart_head _ Hs).
Qed.

Lemma trim_idempotent (s : jsstring) : trim (trim s) = trim s.
Proof. destruct (trim_ends_clean s). now apply trim_clean. Qed.

(** A prefix that opens with a visible character, before a trimmed
    string that is not empty. *)
Lemma trim_prefixed (p t : jsstring) (c : jschar) (p' : jsstring) :
  p = c :: p' -> is_space c = false ->
  t <> [] -> trimStart (rev t) = rev t ->
  trim (p ++ t) = p ++ t.
Proof.
  intros Hp Hc Ht Hclean. apply trim_clean.
  - subst p. apply (trimStart_clean (c :: p' ++ t)), Hc.
  - rewrite rev_app_distr.
    destruct (rev t) as [|d r] eqn:Hrev.
    { apply (f_equal (@List.length jschar)) in Hrev.
      rewrite length_rev in Hrev. destruct t; [contradiction | discriminate]. }
    cbn [app]. apply (trimStart_clean ((d :: r) ++ rev p)).
    exact (trimStart_head _ Hclean).
Qed.

(** X19.  [handleSDHostChange] normalises the host it stores: the
    value set is the input trimmed, with [http://] put in front unless it
    is empty or already opens with [http]; so the stored host is empty or
    opens with [http], and entering the stored value again stores the
    same value. *)
Theorem handleSDHostChange_normal_form (settings settings' : Settings.t)
  (input : jsstring) :
  exists value,
    Settings.stableDiffusionHost (handleSDHostChange settings input) = Some value
    /\ (value = [] \/ startsWith value (lit "http") = true)
    /\ Settings.stableDiffusionHost (handleSDHostChange settings' value)
       = Some value.
Proof.
  unfold handleSDHostChange. cbn [Settings.stableDiffusionHost set_stableDiffusionHost].
  destruct (trim_ends_clean input) as [Hstart Hend].
  remember (lit "http") as http eqn:Hhttp.
  destruct (trim input) as [|c t] eqn:Ht.
  - exists []. cbn [truthy_str andb]. split; [reflexivity|].
    split; [now left|]. reflexivity.
  - cbn [truthy_str List.length Nat.ltb Nat.leb andb].
    destruct (startsWith (c :: t) http) eqn:Hs; cbn [negb].
    + exists (c :: t). split; [reflexivity|]. split; [now right|].
      rewrite <- Ht, trim_idempotent, Ht.
      cbn [truthy_str List.length Nat.ltb Nat.leb andb]. now rewrite Hs.
    + exists (lit "http://" ++ c :: t). split; [reflexivity|].
      assert (Hopen : startsWith (lit "http://" ++ c :: t) http = true).
      { subst http.
        change (lit "http://") with (lit "http" ++ lit "://").
        rewrite <- app_assoc. apply startsWith_app. }
      split; [now right|].
      assert (Htrim : trim (lit "http://" ++ c :: t) = lit "http://" ++ c :: t).
      { apply (@trim_prefixed (lit "http://") (c :: t) 104%N (lit "ttp://"));
          [reflexivity | reflexivity | discriminate | exact Hend]. }
      rewrite Htrim, Hopen. reflexivity.
Qed.

(* ================================================================== *)
(** ** Further properties: the session store *)
(* ================================================================== *)

(** *** The context sent to a chat model *)

(** Adding one to a small whole number is exact. *)
Lemma add_one_small (n : Z) :
  (0 <= n <= 20)%Z -> add (of_Z n) (of_Z 1) = of_Z (n + 1).
Proof.
  intros Hn.
  assert (Hk : exists k : nat, n = Z.of_nat k /\ (k <= 20)%nat).
  { exists (Z.to_nat n). lia. }
  destruct Hk as [k [-> Hk]].
  do 21 (destruct k as [|k]; [vm_compute; reflexivity|]). lia.
Qed.

(** The test that ends the loop, for a whole limit between 0 and 20. *)
Lemma context_limit_reached (n : Z) (m : nat) :
  (0 <= n <= 20)%Z ->
  leb (of_Z n) (of_Z 20)
  && geb (of_Z (Z.of_nat m)) (add (of_Z n) (of_Z 1))
  = (Z.to_nat n + 1 <=? m)%nat.
Proof.
  intros Hn. rewrite (add_one_small Hn). unfold geb, of_Z. cbn [leb].
  assert (H1 : Qle_bool (inject_Z n) (inject_Z 20) = true).
  { apply Qle_bool_iff. rewrite <- Zle_Qle. lia. }
  rewrite H1. cbn [andb].
  destruct (Z.to_nat n + 1 <=? m)%nat eqn:Hm.
  - apply Nat.leb_le in Hm. apply Qle_bool_iff.
    rewrite <- Zle_Qle. lia.
  - apply Nat.leb_gt in Hm. apply not_true_iff_false.
    rewrite Qle_bool_iff, <- Zle_Qle. lia.
Qed.

Lemma context_loop_window (n : Z) (remaining : list Message.t) :
  (0 <= n <= 20)%Z ->
  forall prompts,
    (List.length prompts <= Z.to_nat n + 1)%nat ->
    SessionStore.context_loop (of_Z n) remaining prompts
    = rev (firstn (Z.to_nat n + 1 - List.length prompts)
             (without_errors remaining))
      ++ prompts.
Proof.
  intros Hn. induction remaining as [|msg earlier IH]; intros prompts Hlen.
  - cbn [SessionStore.context_loop without_errors filter].
    now rewrite firstn_nil.
  - cbn [SessionStore.context_loop without_errors filter].
    destruct (SessionStore.has_error msg); cbn [negb].
    + now apply IH.
    + rewrite (context_limit_reached (List.length prompts) Hn).
      destruct (Z.to_nat n + 1 <=? List.length prompts)%nat eqn:Hfull.
      * apply Nat.leb_le in Hfull.
        replace (Z.to_nat n + 1 - List.length prompts)%nat with 0%nat by lia.
        reflexivity.
      * apply Nat.leb_gt in Hfull.
        rewrite IH by (cbn [List.length]; lia).
        fold (without_errors earlier).
        replace (Z.to_nat n + 1 - List.length prompts)%nat
          with (S (Z.to_nat n + 1 - List.length (msg :: prompts)))%nat
          by (cbn [List.length]; lia).
        cbn [firstn rev]. now rewrite <- app_assoc.
Qed.

Lemma context_loop_unbounded (n : Z) (remaining : list Message.t) :
  (20 < n)%Z ->
  forall prompts,
    SessionStore.context_loop (of_Z n) remaining prompts
    = rev (without_errors remaining) ++ prompts.
Proof.
  intros Hn. induction remaining as [|msg earlier IH]; intros prompts.
  - reflexivity.
  - cbn [SessionStore.context_loop without_errors filter].
    destruct (SessionStore.has_error msg); cbn [negb].
    + now apply IH.
    + assert (H1 : leb (of_Z n) (of_Z 20) = false).
      { unfold of_Z. cbn [leb]. apply not_true_iff_false.
        rewrite Qle_bool_iff, <- Zle_Qle. lia. }
      rewrite H1. cbn [andb]. rewrite IH.
      fold (without_errors earlier). cbn [rev]. now rewrite <- app_assoc.
Qed.

Lemma lastn_rev (A : Type) (k : nat) (l : list A) :
  rev (firstn k (rev l)) = lastn k l.
Proof. unfold lastn. now rewrite firstn_rev, rev_involutive. Qed.

(** X20.  [genMessageContext] keeps the opening system message, drops
    every later message that carries an error, and of the others keeps
    the most recent ones in their order: the last [n + 1] of them when the
    limit [n] is a whole number from 0 to 20, all of them when the limit
    is above 20.  Called without messages it throws. *)
Theorem genMessageContext_window (n : Z) (msgs : list Message.t) :
  msgs <> [] ->
  ((0 <= n <= 20)%Z ->
   SessionStore.genMessageContext (of_Z n) msgs
   = inl (fst (context_head msgs)
          ++ lastn (Z.to_nat n + 1) (without_errors (snd (context_head msgs)))))
  /\ ((20 < n)%Z ->
      SessionStore.genMessageContext (of_Z n) msgs
      = inl (fst (context_head msgs)
             ++ without_errors (snd (context_head msgs))))
  /\ SessionStore.genMessageContext (of_Z n) []
     = inr (JsError (lit "No messages to replay")).
Proof.
  intros Hne. destruct msgs as [|first others]; [contradiction|].
  split; [|split; [|reflexivity]].
  - intros Hn. unfold SessionStore.genMessageContext, context_head.
    destruct (SessionStore.is_system first); cbv zeta; cbn [fst snd];
      rewrite context_loop_window by (simpl; lia || exact Hn);
      rewrite app_nil_r, Nat.sub_0_r;
      unfold without_errors; rewrite filter_rev, lastn_rev; reflexivity.
  - intros Hn. unfold SessionStore.genMessageContext, context_head.
    destruct (SessionStore.is_system first); cbv zeta; cbn [fst snd];
      rewrite context_loop_unbounded by exact Hn;
      rewrite app_nil_r;
      unfold without_errors; rewrite filter_rev, rev_involutive; reflexivity.
Qed.

Lemma genMessageContext_window_witness :
  let s := Message.text (lit "s") Message.system (lit "Be brief.") 1 in
  let m1 := Message.text (lit "m1") Message.user (lit "one") 2 in
  let e := errorMessage (lit "e") 3 (lit "boom") in
  let m2 := Message.text (lit "m2") Message.assistant (lit "two") 4 in
  let m3 := Message.text (lit "m3") Message.user (lit "three") 5 in
  ([s; m1; e; m2; m3] <> [] /\ (0 <= 1 <= 20)%Z)
  /\ SessionStore.genMessageContext (of_Z 1) [s; m1; e; m2; m3]
     = inl [s; m2; m3].
Proof.
  cbv zeta.
  assert (H1 : [Message.text (lit "s") Message.system (lit "Be brief.") 1;
                Message.text (lit "m1") Message.user (lit "one") 2;
                errorMessage (lit "e") 3 (lit "boom");
                Message.text (lit "m2") Message.assistant (lit "two") 4;
                Message.text (lit "m3") Message.user (lit "three") 5] <> [])
    by discriminate.
  assert (H2 : (0 <= 1 <= 20)%Z) by lia.
  split; [now split|].
  exact (proj1 (genMessageContext_window 1 H1) H2).
Defined.

(** *** Sessions *)

Section SessionProperties.
Context {D : Defaults}.

Lemma jseqb_sym (a b : jsstring) : jseqb a b = jseqb b a.
Proof.
  revert b. induction a as [|x a IH]; destruct b as [|y b]; try reflexivity.
  cbn [jseqb]. now rewrite IH, N.eqb_sym.
Qed.

Lemma jseqb_neq (a b c : jsstring) :
  jseqb a b = true -> jseqb c b = false -> jseqb a c = false.
Proof.
  intros Hab Hcb. apply jseqb_eq in Hab. subst b.
  now rewrite jseqb_sym.
Qed.

(** The messages of the first session named [sessionId]. *)
Lemma session_messages_cons (sessionId : jsstring) (s : Session.t)
  (l : list Session.t) (w : World) :
  sessions w = s :: l ->
  session_messages sessionId w
  = if jseqb (Session.id s) sessionId then Session.messages s
    else match find (fun t => jseqb (Session.id t) sessionId) l with
         | Some t => Session.messages t
         | None => []
         end.
Proof.
  intros Hw. unfold session_messages. rewrite Hw. cbn [find].
  now destruct (jseqb (Session.id s) sessionId).
Qed.

Lemma put_sessions_nonempty (l : list Session.t) (w : World) :
  l <> [] -> put_sessions l w = (Ok tt, with_sessions l w).
Proof. intros Hl. unfold put_sessions. destruct l; [contradiction | reflexivity]. Qed.

Lemma map_nonempty (A B : Type) (f : A -> B) (l : list A) :
  l <> [] -> map f l <> [].
Proof. destruct l; [contradiction | discriminate]. Qed.

Lemma find_append_in_other (sessionId other : jsstring) (msg : Message.t)
  (l : list Session.t) :
  jseqb other sessionId = false ->
  match find (fun s => jseqb (Session.id s) other) (append_in sessionId msg l) with
  | Some s => Session.messages s
  | None => []
  end
  = match find (fun s => jseqb (Session.id s) other) l with
    | Some s => Session.messages s
    | None => []
    end.
Proof.
  intros Hother. induction l as [|s l IH]; [reflexivity|].
  cbn [append_in map find].
  destruct (jseqb (Session.id s) sessionId) eqn:Hs.
  - cbn [Session.id with_messages].
    rewrite (@jseqb_neq _ _ _ Hs Hother). exact IH.
  - destruct (jseqb (Session.id s) other); [reflexivity | exact IH].
Qed.

Lemma map_id_append_in (sessionId : jsstring) (msg : Message.t)
  (l : list Session.t) :
  map Session.id (append_in sessionId msg l) = map Session.id l.
Proof.
  induction l as [|s l IH]; [reflexivity|].
  cbn [append_in map]. fold (append_in sessionId msg l). rewrite IH.
  now destruct (jseqb (Session.id s) sessionId).
Qed.

End SessionProperties.

(** X21.  [insertMessage] into a stored session appends: the message
    becomes the last one of that session, the messages of every other
    session and the order of the sessions are left as they were, and
    nothing is sent or asked of the bridge. *)
Theorem insertMessage_appends {D : Defaults} (settings : Settings.t)
  (sessionId : jsstring) (msg : Message.t) (w : World) :
  has_session sessionId (sessions w) = true ->
  exists w',
    insertMessage settings sessionId msg w = (Ok tt, w')
    /\ session_messages sessionId w' = session_messages sessionId w ++ [msg]
    /\ (forall other, jseqb other sessionId = false ->
          session_messages other w' = session_messages other w)
    /\ map Session.id (sessions w') = map Session.id (sessions w)
    /\ sent w' = sent w /\ invoked w' = invoked w.
Proof.
  intros Hs. rewrite (insertMessage_stored settings sessionId msg w Hs).
  eexists. split; [reflexivity|].
  unfold session_messages. cbn [sessions with_sessions sent invoked].
  split; [now apply find_append_in|].
  split; [intros other Hother; now apply find_append_in_other|].
  split; [apply map_id_append_in | now split].
Qed.

Lemma insertMessage_appends_witness :
  let w := reroll_world [refined_entry [] "file:///data/images/session-1/b.png"]
             [] [] in
  let msg := Message.text (lit "m9") Message.user (lit "hello") 7 in
  has_session (lit "session-1") (sessions w) = true
  /\ exists w',
       insertMessage (D := sample_defaults) sample_settings (lit "session-1") msg w
       = (Ok tt, w')
       /\ session_messages (lit "session-1") w'
          = session_messages (lit "session-1") w ++ [msg].
Proof.
  cbv zeta. split; [reflexivity|].
  destruct (@insertMessage_appends sample_defaults sample_settings
              (lit "session-1")
              (Message.text (lit "m9") Message.user (lit "hello") 7)
              (reroll_world
                 [refined_entry [] "file:///data/images/session-1/b.png"] [] [])
              eq_refl) as [w' [Hrun [Hmsgs _]]].
  exists w'. now split.
Defined.

(** X22.  [insertMessage] on an empty store: whatever the default
    sessions shown until then, the store afterwards holds exactly one
    session, named [Untitled], with the identifier given, whose messages
    are a fresh system message carrying the default prompt and then the
    inserted message. *)
Theorem insertMessage_into_empty_store {D : Defaults} (settings : Settings.t)
  (sessionId : jsstring) (msg : Message.t) (w : World) :
  sessions w = [] ->
  exists w' systemMessage,
    insertMessage settings sessionId msg w = (Ok tt, w')
    /\ sessions w'
       = [ {| Session.id := sessionId; Session.name := lit "Untitled";
              Session.messages := [systemMessage; msg] |} ]
    /\ Message.role systemMessage = Message.system
    /\ Message.content systemMessage
       = or_str (Settings.defaultPrompt settings) getDefaultPrompt.
Proof.
  intros Hw. destruct w as [bd nt br nw uu un rr rn st iv ss].
  cbn [sessions] in Hw. subst ss.
  unfold insertMessage, bind, ensureSessionExists, get_sessions.
  cbn [sessions].
  destruct (has_session sessionId defaults_sessions).
  - cbv beta iota zeta delta
      [bind ret uuidv4 newSessionFor put_sessions with_sessions
       with_uuid_next sessions has_session existsb negb app uuids uuid_next
       baseImageDir net bridge now randoms random_next sent invoked].
    eexists _, _. split; [reflexivity|]. split; [reflexivity|]. now split.
  - cbv beta iota zeta delta
      [bind ret uuidv4 newSessionFor put_sessions with_sessions
       with_uuid_next sessions has_session existsb negb app uuids uuid_next
       baseImageDir net bridge now randoms random_next sent invoked
       Session.id Session.messages Session.name with_messages map orb].
    rewrite jseqb_refl.
    eexists _, _. split; [reflexivity|]. split; [reflexivity|]. now split.
Qed.

Lemma insertMessage_into_empty_store_witness :
  let msg := Message.text (lit "m1") Message.user (lit "hello") 7 in
  sessions sample_world = []
  /\ exists w' systemMessage,
       insertMessage (D := sample_defaults) sample_settings (lit "session-1")
         msg sample_world = (Ok tt, w')
       /\ sessions w'
          = [ {| Session.id := lit "session-1"; Session.name := lit "Untitled";
                 Session.messages := [systemMessage; msg] |} ].
Proof.
  cbv zeta. split; [reflexivity|].
  destruct (@insertMessage_into_empty_store sample_defaults sample_settings
              (lit "session-1")
              (Message.text (lit "m1") Message.user (lit "hello") 7)
              sample_world eq_refl) as [w' [sys [Hrun [Hs _]]]].
  exists w', sys. now split.
Defined.

Section ModifyProperties.
Context {D : Defaults}.

Lemma find_modify_in_first (sessionId : jsstring) (updated : Message.t)
  (l : list Session.t) :
  has_session sessionId l = true ->
  match find (fun s => jseqb (Session.id s) sessionId)
          (modify_in sessionId updated false l) with
  | Some s => Session.messages s
  | None => []
  end
  = fst (handle updated false
           match find (fun s => jseqb (Session.id s) sessionId) l with
           | Some s => Session.messages s
           | None => []
           end).
Proof.
  induction l as [|s l IH]; [discriminate|].
  cbn [has_session existsb modify_in find].
  destruct (jseqb (Session.id s) sessionId) eqn:Hs; cbn [negb orb].
  - intros _.
    destruct (handle updated false (Session.messages s)) as [msgs h].
    cbn [find Session.id with_messages]. rewrite Hs. reflexivity.
  - intros Hl. cbn [find]. rewrite Hs. now apply IH.
Qed.

End ModifyProperties.

Section ModifyRun.
Context {D : Defaults}.

(** [modifyMessage] on a stored session, run: the first session of that
    name has its messages handled, with the message stamped. *)
Lemma modifyMessage_handled (settings : Settings.t) (sessionId : jsstring)
  (updated : Message.t) (w : World) :
  has_session sessionId (sessions w) = true ->
  let stamped := set_timestamp updated (now w) in
  let w' := with_sessions (modify_in sessionId stamped false (sessions w)) w in
  modifyMessage settings sessionId updated w = (Ok stamped, w')
  /\ has_session sessionId (sessions w') = true
  /\ session_messages sessionId w'
     = fst (handle stamped false (session_messages sessionId w)).
Proof.
  intros Hs. cbv zeta.
  unfold modifyMessage, bind, Date_now, ensureSessionExists.
  rewrite (get_sessions_stored _ _ Hs), Hs. cbv beta iota.
  rewrite Hs. cbn [negb].
  set (stamped := set_timestamp updated (now w)).
  set (l' := modify_in sessionId stamped false (sessions w)).
  assert (Hl' : has_session sessionId l' = true)
    by (unfold l'; now rewrite has_session_modify_in).
  rewrite put_sessions_nonempty
    by (intros C; rewrite C in Hl'; discriminate Hl').
  unfold ret. split; [reflexivity|]. split; [exact Hl'|].
  unfold session_messages. cbn [sessions with_sessions].
  unfold l'. now apply find_modify_in_first.
Qed.

Lemma handle_appends (updated : Message.t) (msgs : list Message.t) :
  fresh_id (Message.id updated) msgs = true ->
  fst (handle updated false msgs) = msgs ++ [updated].
Proof.
  intros Hfresh. unfold handle. cbn [orb].
  assert (Hex : existsb (fun m => jseqb (Message.id m) (Message.id updated)) msgs
                = false).
  { induction msgs as [|m l IH]; [reflexivity|].
    cbn [fresh_id forallb] in Hfresh. apply andb_true_iff in Hfresh.
    destruct Hfresh as [Hm Hl]. apply negb_true_iff in Hm.
    cbn [existsb]. rewrite Hm. now apply IH. }
  rewrite Hex. cbn [negb fst]. f_equal.
  induction msgs as [|m l IH]; [reflexivity|].
  cbn [existsb] in Hex. apply orb_false_iff in Hex. destruct Hex as [Hm Hl].
  cbn [fresh_id forallb] in Hfresh. apply andb_true_iff in Hfresh.
  cbn [map]. rewrite Hm. f_equal. apply IH; tauto.
Qed.

End ModifyRun.

(** X23.  [modifyMessage] on a stored session replaces or appends: the
    message is stamped with the time of the call; when the session holds
    messages with its identifier each of them is replaced in place by the
    stamped message and nothing is added, otherwise the stamped message
    is appended; either way the session then holds it. *)
Theorem modifyMessage_replaces_or_appends {D : Defaults}
  (settings : Settings.t) (sessionId : jsstring) (updated : Message.t)
  (w : World) :
  has_session sessionId (sessions w) = true ->
  let stamped := set_timestamp updated (now w) in
  let old := session_messages sessionId w in
  let same_id := fun m => jseqb (Message.id m) (Message.id updated) in
  exists w',
    modifyMessage settings sessionId updated w = (Ok stamped, w')
    /\ session_messages sessionId w'
       = (if existsb same_id old
          then map (fun m => if same_id m then stamped else m) old
          else old ++ [stamped])
    /\ In stamped (session_messages sessionId w').
Proof.
  intros Hs. cbv zeta.
  destruct (modifyMessage_handled settings sessionId updated w Hs)
    as [Hrun [_ Hnew]].
  eexists. split; [exact Hrun|].
  rewrite Hnew. unfold handle. cbn [orb Message.id].
  set (stamped := set_timestamp updated (now w)).
  change (Message.id stamped) with (Message.id updated).
  destruct (existsb (fun m => jseqb (Message.id m) (Message.id updated))
              (session_messages sessionId w)) eqn:Hex; cbn [negb fst].
  - split; [reflexivity|].
    apply existsb_exists in Hex. destruct Hex as [m [Hin Hm]].
    apply in_map_iff. exists m. now rewrite Hm.
  - assert (Hmap : map (fun m => if jseqb (Message.id m) (Message.id updated)
                                 then stamped else m)
                     (session_messages sessionId w)
                   = session_messages sessionId w).
    { clear - Hex. induction (session_messages sessionId w) as [|m l IH];
        [reflexivity|].
      cbn [existsb] in Hex. apply orb_false_iff in Hex. destruct Hex as [Hm Hl].
      cbn [map]. now rewrite Hm, (IH Hl). }
    rewrite Hmap. split; [reflexivity|]. apply in_or_app. right. now left.
Qed.

Lemma modifyMessage_replaces_or_appends_witness :
  let b := refined_entry [] "file:///data/images/session-1/b.png" in
  let w := reroll_world [Message.text (lit "m1") Message.user (lit "hi") 7; b]
             [] [] in
  let updated := refined_entry [lit "file:///data/images/session-1/a.png"]
                   "file:///data/images/session-1/c.png" in
  has_session (lit "session-1") (sessions w) = true
  /\ exists w',
       modifyMessage (D := sample_defaults) sample_settings (lit "session-1")
         updated w = (Ok (set_timestamp updated (now w)), w')
       /\ session_messages (lit "session-1") w'
          = [Message.text (lit "m1") Message.user (lit "hi") 7;
             set_timestamp updated (now w)].
Proof.
  cbv zeta. split; [reflexivity|].
  destruct (@modifyMessage_replaces_or_appends sample_defaults sample_settings
              (lit "session-1")
              (refined_entry [lit "file:///data/images/session-1/a.png"]
                 "file:///data/images/session-1/c.png")
              (reroll_world
                 [Message.text (lit "m1") Message.user (lit "hi") 7;
                  refined_entry [] "file:///data/images/session-1/b.png"]
                 [] [])
              eq_refl) as [w' [Hrun [Hmsgs _]]].
  exists w'. split; [exact Hrun | exact Hmsgs].
Defined.

Section ClearRemove.
Context {D : Defaults}.

Lemma find_present (sessionId : jsstring) (l : list Session.t) :
  has_session sessionId l = true ->
  exists s, find (fun t => jseqb (Session.id t) sessionId) l = Some s
            /\ Session.id s = sessionId.
Proof.
  induction l as [|t l IH]; [discriminate|].
  cbn [has_session existsb find].
  destruct (jseqb (Session.id t) sessionId) eqn:Ht.
  - intros _. exists t. split; [reflexivity | now apply jseqb_eq].
  - exact IH.
Qed.

(** Replacing the sessions named like [update] by [update]. *)
Lemma find_replace_same (update : Session.t) (l : list Session.t) :
  has_session (Session.id update) l = true ->
  find (fun t => jseqb (Session.id t) (Session.id update))
    (map (fun s => if jseqb (Session.id s) (Session.id update)
                   then update else s) l)
  = Some update.
Proof.
  induction l as [|t l IH]; [discriminate|].
  cbn [has_session existsb map find].
  destruct (jseqb (Session.id t) (Session.id update)) eqn:Ht.
  - intros _. now rewrite jseqb_refl.
  - cbn [orb]. rewrite Ht. exact IH.
Qed.

Lemma find_replace_other (update : Session.t) (other : jsstring)
  (l : list Session.t) :
  jseqb other (Session.id update) = false ->
  find (fun t => jseqb (Session.id t) other)
    (map (fun s => if jseqb (Session.id s) (Session.id update)
                   then update else s) l)
  = find (fun t => jseqb (Session.id t) other) l.
Proof.
  intros Hother. induction l as [|t l IH]; [reflexivity|].
  cbn [map find].
  destruct (jseqb (Session.id t) (Session.id update)) eqn:Ht.
  - rewrite (jseqb_sym (Session.id update) other), Hother.
    rewrite (@jseqb_neq _ _ _ Ht Hother). exact IH.
  - destruct (jseqb (Session.id t) other); [reflexivity | exact IH].
Qed.

Lemma has_session_removed (sessionId : jsstring) (l : list Session.t) :
  has_session sessionId
    (filter (fun s => negb (jseqb (Session.id s) sessionId)) l) = false.
Proof.
  induction l as [|t l IH]; [reflexivity|].
  cbn [filter]. destruct (jseqb (Session.id t) sessionId) eqn:Ht; cbn [negb].
  - exact IH.
  - cbn [has_session existsb]. rewrite Ht. exact IH.
Qed.

End ClearRemove.

(** X24.  [clear] on a stored session keeps its system messages only,
    in their order, and leaves the messages of the other sessions as they
    were. *)
Theorem clear_keeps_system_messages {D : Defaults}
  (sessionId : jsstring) (w : World) :
  has_session sessionId (sessions w) = true ->
  exists w',
    SessionStore.clear sessionId w = (Ok tt, w')
    /\ session_messages sessionId w'
       = filter SessionStore.is_system (session_messages sessionId w)
    /\ (forall other, jseqb other sessionId = false ->
          session_messages other w' = session_messages other w)
    /\ List.length (sessions w') = List.length (sessions w).
Proof.
  intros Hs.
  destruct (find_present _ _ Hs) as [session [Hfind Hid]]. subst sessionId.
  unfold SessionStore.clear, SessionStore.getSession.
  rewrite (get_sessions_stored _ _ Hs), Hfind.
  unfold SessionStore.modify.
  rewrite put_sessions_nonempty.
  2:{ apply map_nonempty. intros C. rewrite C in Hs. discriminate Hs. }
  eexists. split; [reflexivity|].
  unfold session_messages. cbn [sessions with_sessions].
  pose proof (find_replace_same
                (with_messages session
                   (filter SessionStore.is_system (Session.messages session)))
                (sessions w) Hs) as Hsame.
  cbn [Session.id with_messages] in *.
  split; [|split].
  - now rewrite Hsame, Hfind.
  - intros other Hother.
    pose proof (find_replace_other
                  (with_messages session
                     (filter SessionStore.is_system (Session.messages session)))
                  other (sessions w) Hother) as Hoth.
    cbn [Session.id with_messages] in Hoth. now rewrite Hoth.
  - apply length_map.
Qed.

Lemma clear_keeps_system_messages_witness :
  let s := Message.text (lit "s") Message.system (lit "Be brief.") 1 in
  let b := refined_entry [] "file:///data/images/session-1/b.png" in
  let w := reroll_world [s; b] [] [] in
  has_session (lit "session-1") (sessions w) = true
  /\ exists w',
       SessionStore.clear (D := sample_defaults) (lit "session-1") w = (Ok tt, w')
       /\ session_messages (lit "session-1") w' = [s].
Proof.
  cbv zeta. split; [reflexivity|].
  destruct (@clear_keeps_system_messages sample_defaults (lit "session-1")
              (reroll_world
                 [Message.text (lit "s") Message.system (lit "Be brief.") 1;
                  refined_entry [] "file:///data/images/session-1/b.png"]
                 [] [])
              eq_refl) as [w' [Hrun [Hmsgs _]]].
  exists w'. split; [exact Hrun | exact Hmsgs].
Defined.

(** X25.  [remove] never leaves the store empty-handed: every stored
    session with another identifier is kept, in order; afterwards the
    store holds no session with the identifier removed, unless nothing
    was left and the default sessions were put in its place. *)
Theorem remove_falls_back_to_defaults {D : Defaults}
  (session : Session.t) (w : World) :
  exists w',
    SessionStore.remove session w = (Ok tt, w')
    /\ (let kept := filter (fun s => negb (jseqb (Session.id s)
                                             (Session.id session)))
                      (sessions w) in
        match kept with
        | [] => sessions w' = defaults_sessions
        | _ => sessions w' = kept
               /\ has_session (Session.id session) (sessions w') = false
        end)
    /\ sent w' = sent w /\ invoked w' = invoked w.
Proof.
  unfold SessionStore.remove, put_sessions.
  eexists. split; [reflexivity|].
  cbn [sessions with_sessions sent invoked]. split; [|now split].
  cbv zeta.
  pose proof (has_session_removed (Session.id session) (sessions w)) as Hgone.
  destruct (filter (fun s => negb (jseqb (Session.id s) (Session.id session)))
              (sessions w)) as [|k kept]; [reflexivity|].
  split; [reflexivity | exact Hgone].
Qed.

(* ================================================================== *)
(** ** Further properties: the refine handler *)
(* ================================================================== *)

Section Refine.
Context {E : JsEngine} {D : Defaults}.

Lemma describe_for_refinement_run (settings : Settings.t) (message : Message.t)
  (w : World) :
  exists d w',
    describe_for_refinement settings message w = (Ok d, w')
    /\ sessions w' = sessions w
    /\ uuids w' = uuids w /\ uuid_next w' = uuid_next w.
Proof.
  unfold describe_for_refinement.
  destruct (truthy_opt (Message.imageUrl message)).
  - match goal with
    | |- context [generateImageDescription ?p ?u ?k ?e w] =>
        destruct (generateImageDescription_returns p u k e w) as [d [w' Hrun]];
        pose proof (@generateImageDescription_keeps E _ sessions p u k e
                      (fun _ _ _ => eq_refl) _ _ _ Hrun) as Hs;
        pose proof (@generateImageDescription_keeps E _ uuids p u k e
                      (fun _ _ _ => eq_refl) _ _ _ Hrun) as Hu;
        pose proof (@generateImageDescription_keeps E _ uuid_next p u k e
                      (fun _ _ _ => eq_refl) _ _ _ Hrun) as Hn
    end.
    exists d, w'. now repeat split.
  - eexists _, w. now repeat split.
Qed.

End Refine.

(** X28.  What [handleRefineImage] leaves in a stored session, given
    fresh identifiers.  Four messages are added after those already
    there: the line announcing the analysis, which stays, since the
    notice meant to replace it carries a new identifier and is appended;
    that notice; the line quoting the refinement text; and the refined
    entry.  The refined entry keeps the original prompt and the
    refinement text as given, starts with no annotations, and its chain
    is the refined message's chain followed by its image reference, blank
    entries left out.  The handler always returns; when the refinement
    itself throws, one system message reporting the error follows and the
    entry is left as generating. *)
Theorem handleRefineImage_entries {E : JsEngine} {D : Defaults}
  (settings : Settings.t) (sessionId : jsstring) (message : Message.t)
  (annotations : list Annotation) (globalFeedback refinementPrompt : jsstring)
  (w : World) :
  has_session sessionId (sessions w) = true ->
  let old := session_messages sessionId w in
  let loadingId := uuids w (uuid_next w) in
  let descriptionId := uuids w (S (uuid_next w)) in
  let refinementTextId := uuids w (S (S (uuid_next w))) in
  let refinedId := uuids w (S (S (S (uuid_next w)))) in
  fresh_id descriptionId old = true ->
  jseqb loadingId descriptionId = false ->
  fresh_id refinedId old = true ->
  jseqb loadingId refinedId = false ->
  jseqb descriptionId refinedId = false ->
  jseqb refinementTextId refinedId = false ->
  exists w' described refining refined tail,
    handleRefineImage settings sessionId message annotations globalFeedback
      refinementPrompt w = (Ok tt, w')
    /\ session_messages sessionId w'
       = old ++ [Message.text loadingId Message.user loadingText (now w);
                 described; refining; refined] ++ tail
    /\ (Message.id described = descriptionId
        /\ Message.content described
           = descriptionText (Message.originalPrompt message))
    /\ (Message.id refining = refinementTextId
        /\ Message.content refining = refinementText refinementPrompt)
    /\ (Message.id refined = refinedId
        /\ Message.originalPrompt refined = Message.originalPrompt message
        /\ Message.refinementPrompt refined = Some refinementPrompt
        /\ Message.annotations refined = Some []
        /\ Message.history refined = Some (refine_history message))
    /\ match tail with
       | [] => Message.generating refined = Some false
       | [err] => Message.role err = Message.system
                  /\ Message.generating refined = Some true
       | _ => False
       end.
Proof.
  intros Hsession old loadingId descriptionId refinementTextId refinedId
    Hfresh1 Hid01 Hfresh3 Hid03 Hid13 Hid23.
  set (loading := Message.text loadingId Message.user loadingText (now w)).
  (* the loading line *)
  set (w1 := with_uuid_next (S (uuid_next w)) w).
  set (w2 := with_sessions (append_in sessionId loading (sessions w1)) w1).
  assert (Hs2 : has_session sessionId (sessions w2) = true).
  { unfold w2. cbn [sessions with_sessions]. now rewrite has_session_append_in. }
  assert (Hm2 : session_messages sessionId w2 = old ++ [loading]).
  { unfold session_messages, w2. cbn [sessions with_sessions].
    now rewrite find_append_in. }
  (* the description *)
  destruct (describe_for_refinement_run settings message w2)
    as [d [w3 [Hdesc [Hst3 [Hu3 Hn3]]]]].
  assert (Hs3 : has_session sessionId (sessions w3) = true) by now rewrite Hst3.
  assert (Hm3 : session_messages sessionId w3 = old ++ [loading]).
  { unfold session_messages. rewrite Hst3. exact Hm2. }
  (* the notice, appended *)
  set (w4 := with_uuid_next (S (uuid_next w3)) w3).
  assert (Hid1 : uuids w3 (uuid_next w3) = descriptionId).
  { rewrite Hu3, Hn3. reflexivity. }
  set (notice := Message.text descriptionId Message.user
                   (descriptionText (Message.originalPrompt message)) (now w)).
  destruct (modifyMessage_handled settings sessionId notice w4 Hs3)
    as [Hmod4 [Hs5 Hm5]].
  set (described := set_timestamp notice (now w4)) in *.
  set (w5 := with_sessions
               (modify_in sessionId described false (sessions w4)) w4) in *.
  assert (Hm5' : session_messages sessionId w5 = (old ++ [loading]) ++ [described]).
  { rewrite Hm5.
    change (session_messages sessionId w4) with (session_messages sessionId w3).
    rewrite Hm3. apply handle_appends.
    change (Message.id described) with descriptionId.
    rewrite fresh_id_app, Hfresh1. cbn [andb fresh_id forallb].
    unfold loading. cbn [Message.id Message.text]. now rewrite Hid01. }
  (* the line quoting the refinement text *)
  set (w6 := with_uuid_next (S (uuid_next w5)) w5).
  assert (Hid2 : uuids w5 (uuid_next w5) = refinementTextId).
  { unfold w5, w4. cbn [uuids uuid_next with_sessions with_uuid_next].
    rewrite Hu3, Hn3. reflexivity. }
  set (refining := Message.text refinementTextId Message.user
                     (refinementText refinementPrompt) (now w6)).
  set (w7 := with_sessions (append_in sessionId refining (sessions w6)) w6).
  assert (Hs7 : has_session sessionId (sessions w7) = true).
  { unfold w7. cbn [sessions with_sessions]. now rewrite has_session_append_in. }
  assert (Hm7 : session_messages sessionId w7
                = ((old ++ [loading]) ++ [described]) ++ [refining]).
  { unfold session_messages at 1. unfold w7. cbn [sessions with_sessions].
    rewrite find_append_in by exact Hs5. f_equal. exact Hm5'. }
  (* the refined entry *)
  set (w8 := with_uuid_next (S (uuid_next w7)) w7).
  assert (Hid3 : uuids w7 (uuid_next w7) = refinedId).
  { unfold w7, w6, w5, w4.
    cbn [uuids uuid_next with_sessions with_uuid_next].
    rewrite Hu3, Hn3. reflexivity. }
  set (refined0 := refinedImageMessage refinedId (now w8) message
                     refinementPrompt d).
  set (w9 := with_sessions (append_in sessionId refined0 (sessions w8)) w8).
  assert (Hs9 : has_session sessionId (sessions w9) = true).
  { unfold w9. cbn [sessions with_sessions]. now rewrite has_session_append_in. }
  assert (Hm9 : session_messages sessionId w9
                = (((old ++ [loading]) ++ [described]) ++ [refining])
                  ++ [refined0]).
  { unfold session_messages at 1. unfold w9. cbn [sessions with_sessions].
    rewrite find_append_in by exact Hs7. f_equal. exact Hm7. }
  assert (Hstart :
    handleRefineImage settings sessionId message annotations globalFeedback
      refinementPrompt w
    = try_catch
        (try_catch
           (refinedResult <-
              refineImage
                (or_str (Message.originalPrompt message) (lit "An image"))
                refinementPrompt
                (refineOptions settings sessionId message d)
                (Some annotations) ;;
            modifyMessage settings sessionId
              (settle_refine refined0 (fst refinedResult)) ;;;
            ret tt)
           (report_refine_error settings sessionId))
        (report_refine_error settings sessionId) w9).
  { unfold handleRefineImage. unfold try_catch at 1.
    unfold bind at 1. unfold uuidv4 at 1. fold w1. fold loadingId.
    unfold bind at 1. unfold Date_now at 1.
    change (now w1) with (now w). fold loading.
    unfold bind at 1.
    rewrite (insertMessage_stored settings sessionId loading w1 Hsession).
    fold w2.
    unfold bind at 1. rewrite Hdesc.
    unfold bind at 1. unfold uuidv4 at 1. rewrite Hid1. fold w4.
    unfold bind at 1. unfold Date_now at 1.
    unfold bind at 1. fold notice. rewrite Hmod4.
    unfold bind at 1. unfold uuidv4 at 1. rewrite Hid2. fold w6.
    unfold bind at 1. unfold Date_now at 1. fold refining.
    unfold bind at 1.
    rewrite (insertMessage_stored settings sessionId refining w6 Hs5).
    fold w7.
    unfold bind at 1. unfold uuidv4 at 1. rewrite Hid3. fold w8.
    unfold bind at 1. unfold Date_now at 1. fold refined0.
    unfold bind at 1.
    rewrite (insertMessage_stored settings sessionId refined0 w8 Hs7).
    fold w9. reflexivity. }
  rewrite Hstart. clear Hstart.
  assert (Hfresh : fresh_id refinedId
                     (((old ++ [loading]) ++ [described]) ++ [refining]) = true).
  { rewrite !fresh_id_app, Hfresh3. cbn [andb fresh_id forallb].
    unfold loading, described, notice, refining.
    cbn [Message.id Message.text set_timestamp].
    now rewrite Hid03, Hid13, Hid23. }
  unfold try_catch at 1. unfold try_catch at 1. unfold bind at 1.
  destruct (refineImage _ _ _ _ w9) as [[[result anns]|e] w10] eqn:Hgen.
  - (* the refinement returned *)
    pose proof (store_refineImage _ _ _ _ _ Hgen) as Hst.
    assert (Hs10 : has_session sessionId (sessions w10) = true)
      by now rewrite Hst.
    assert (Hm10 : session_messages sessionId w10
                   = (((old ++ [loading]) ++ [described]) ++ [refining])
                     ++ [refined0]).
    { unfold session_messages. rewrite Hst. exact Hm9. }
    cbn [fst].
    set (upd := settle_refine refined0 result).
    assert (Hid : Message.id upd = refinedId).
    { unfold upd, settle_refine. now destruct (Result.success result). }
    destruct (modifyMessage_stored settings sessionId upd w10
                _ refined0 Hs10 Hm10) as [w11 [Hmod Hm11]].
    { now rewrite Hid. }
    { rewrite Hid. apply jseqb_refl. }
    unfold bind at 1. rewrite Hmod. cbn [ret].
    exists w11, described, refining, (set_timestamp upd (now w10)), [].
    split; [reflexivity|].
    split; [rewrite Hm11, <- !app_assoc, app_nil_r; reflexivity|].
    split; [now split|]. split; [now split|].
    split.
    { unfold upd, settle_refine.
      destruct (Result.success result); now repeat split. }
    unfold upd, settle_refine. now destruct (Result.success result).
  - (* the refinement threw *)
    pose proof (store_refineImage _ _ _ _ _ Hgen) as Hst.
    assert (Hs10 : has_session sessionId (sessions w10) = true)
      by now rewrite Hst.
    unfold report_refine_error at 1.
    unfold bind at 1. unfold uuidv4 at 1.
    unfold bind at 1. unfold Date_now at 1.
    set (w11 := with_uuid_next (S (uuid_next w10)) w10).
    set (err := refineErrorMessage (uuids w10 (uuid_next w10)) (now w11)
                  (error_text e)).
    rewrite (insertMessage_stored settings sessionId err w11 Hs10).
    eexists _, described, refining, refined0, [err].
    split; [reflexivity|].
    split.
    { unfold session_messages at 1. cbn [sessions with_sessions].
      rewrite find_append_in by exact Hs10.
      change (sessions w11) with (sessions w10). rewrite Hst.
      fold (session_messages sessionId w9). rewrite Hm9.
      now rewrite <- !app_assoc. }
    split; [now split|]. split; [now split|].
    split; [now repeat split|]. now split.
Qed.

Lemma handleRefineImage_entries_witness :
  let B := refined_entry [[]; lit "file:///img/a.png"] "file:///img/b.png" in
  let w := reroll_world [B] [] [] in
  has_session (lit "session-1") (sessions w) = true
  /\ exists w' described refining refined tail,
       handleRefineImage (E := sample_engine) (D := sample_defaults)
         sample_settings (lit "session-1") B [] [] (lit "make the sea calm") w
       = (Ok tt, w')
       /\ session_messages (lit "session-1") w'
          = [B] ++ [Message.text (uuids w 0%nat) Message.user loadingText (now w);
                    described; refining; refined] ++ tail
       /\ Message.history refined
          = Some [lit "file:///img/a.png"; lit "file:///img/b.png"].
Proof.
  cbv zeta. split; [reflexivity|].
  destruct (@handleRefineImage_entries sample_engine sample_defaults
              sample_settings (lit "session-1")
              (refined_entry [[]; lit "file:///img/a.png"] "file:///img/b.png")
              [] [] (lit "make the sea calm")
              (reroll_world
                 [refined_entry [[]; lit "file:///img/a.png"] "file:///img/b.png"]
                 [] [])
              eq_refl eq_refl eq_refl eq_refl eq_refl eq_refl eq_refl)
    as (w' & described & refining & refined & tail & Hrun & Hmsgs & _ & _
        & (_ & _ & _ & _ & Hhist) & _).
  exists w', described, refining, refined, tail.
  split; [exact Hrun|]. split; [exact Hmsgs | exact Hhist].
Defined.

(* ================================================================== *)
(** ** Further properties: a generation from end to end *)
(* ================================================================== *)

(** X29.  [generateImage] with a DALL-E model, when everything works:
    with an API key, the store initialised, the provider answering
    [{ data: [{ url }] }] and the bridge accepting the two calls, exactly
    one request is sent, the bridge is asked to make the session directory
    and to download [url] into a fresh file of it, and the result is a
    success whose image reference is the file URL of that file and whose
    full prompt is the prompt given. *)
Theorem generateImage_dalle_end_to_end {E : JsEngine}
  (options : Options.t) (w : World) (r : Response)
  (rest : list (Response + exn)) (u dir a1 a2 : jsstring)
  (answers : list (jsstring + exn)) :
  model_is options DALLE3 || model_is options DALLE2 = true ->
  truthy_opt (Options.apiKey options) = true ->
  net w = inl r :: rest -> ok r = true ->
  r_json r = inl (images_reply u) -> truthy_str u = true ->
  baseImageDir w = Some dir -> truthy_str dir = true ->
  bridge w = inl a1 :: inl a2 :: answers ->
  let sessionDir := dir ++ [slash] ++ Options.sessionId options in
  let filePath := stored_path dir (Options.sessionId options) w in
  exists w' rq,
    generateImage options w
    = (Ok (Result.set_fullPrompt (Result.succeeded (getFileUrl filePath))
             (Options.prompt options)), w')
    /\ invoked w'
       = invoked w ++ [EnsureDirectory sessionDir;
                       DownloadImage (JStr u) filePath]
    /\ sent w' = sent w ++ [rq]
    /\ net w' = rest /\ bridge w' = answers.
Proof.
  intros Hmodel Hkey Hnet Hok Hjson Hu Hdir Htruthy Hbridge.
  exact (@generateImage_dalle_run _ options w r rest u dir a1 a2 answers
           Hmodel Hkey Hnet Hok Hjson Hu Hdir Htruthy Hbridge).
Qed.

Lemma generateImage_dalle_end_to_end_witness :
  let options := sample_options DALLE3 in
  let r := {| ok := true; statusText := lit "OK";
              r_json := inl (images_reply (lit "https://images.example/tmp/i.png"));
              r_blob := inr (JsError (lit "not an image")) |} in
  let w := with_replies [inl r] [inl []; inl []] (Some (lit "/data/images")) in
  (model_is options DALLE3 || model_is options DALLE2 = true
   /\ truthy_opt (Options.apiKey options) = true)
  /\ exists w',
       generateImage (E := sample_engine) options w
       = (Ok (Result.set_fullPrompt
                (Result.succeeded
                   (lit "file:///data/images/session-1/1700000000000-0c9e1f7a.png"))
                (lit "a lighthouse at dusk")), w').
Proof.
  cbv zeta. split; [now split|].
  destruct (@generateImage_dalle_end_to_end sample_engine
              (sample_options DALLE3)
              (with_replies
                 [inl {| ok := true; statusText := lit "OK";
                         r_json := inl (images_reply
                                          (lit "https://images.example/tmp/i.png"));
                         r_blob := inr (JsError (lit "not an image")) |}]
                 [inl []; inl []] (Some (lit "/data/images")))
              _ [] (lit "https://images.example/tmp/i.png")
              (lit "/data/images") [] [] []
              eq_refl eq_refl eq_refl eq_refl eq_refl eq_refl eq_refl eq_refl
              eq_refl)
    as [w' [rq [Hrun _]]].
  exists w'. exact Hrun.
Defined.
